(** * schedsim/get_data.py: the load sweep of the scheduling simulator

    A shallow embedding of [process], of [display] and of the call that ends
    [get_data.py], and of the Python built-ins they call: [str] of a [bytes]
    object, [str.split], indexing with a negative index, [float] of a string
    and of a float, float multiplication and division (IEEE 754 binary64),
    the f-string formatting of a float, [subprocess.check_output], and the
    calls of [numpy.array], [pyplot.plot] and [pyplot.show].

    Python [str] is [string], [bytes] is [list byte], [float] is
    [spec_float] at precision 53 and maximal exponent 1024, an exception is
    a constructor of [exn], and the operating system is an oracle that
    answers every launched command line. *)

From Stdlib Require Import ZArith List Bool Lia.
From Stdlib Require Import Strings.String Strings.Ascii Strings.Byte.
From Stdlib Require Import Floats.SpecFloat.
Import ListNotations.

Local Open Scope string_scope.
Local Open Scope list_scope.

(** ** Exceptions and results *)

Module Py.

(** The exceptions that the statements of [process] raise. *)
Inductive exn : Type :=
| OSError
| CalledProcessError (returncode : Z)
| ZeroDivisionError
| IndexError
| ValueError.

Inductive result (A : Type) : Type :=
| Ok (a : A)
| Raise (e : exn).

Arguments Ok {A} a.
Arguments Raise {A} e.

Definition bind {A B} (r : result A) (k : A -> result B) : result B :=
  match r with
  | Ok a => k a
  | Raise e => Raise e
  end.

Definition is_ok {A} (r : result A) : bool :=
  match r with Ok _ => true | Raise _ => false end.

End Py.
Import Py.

Declare Scope py_scope.
Delimit Scope py_scope with py.
Notation "x <- c ;; k" := (bind c (fun x => k))
  (at level 61, c at next level, right associativity) : py_scope.

(** ** Characters *)

Definition TAB : ascii := "009"%char.
Definition LF : ascii := "010"%char.
Definition CR : ascii := "013"%char.
Definition BACKSLASH : ascii := "092"%char.
Definition SQUOTE : ascii := "039"%char.
Definition DQUOTE : ascii := "034"%char.

Definition bytes : Type := list byte.

(** The bytes of an ASCII literal. *)
Definition b (s : string) : bytes := list_byte_of_string s.

(** The text a byte string stands for, one character per byte. *)
Definition text_of_bytes (raw : bytes) : string := string_of_list_byte raw.

(** ** [str(bytes)]: the repr of a bytes object

    [bytes.__repr__] chooses the quote (a single quote unless the bytes hold
    a single quote and no double quote), and writes every byte either as
    itself or as an escape. *)

Definition has_byte (c : ascii) (raw : bytes) : bool :=
  existsb (fun x => Ascii.eqb (ascii_of_byte x) c) raw.

Definition repr_quote (raw : bytes) : ascii :=
  if has_byte SQUOTE raw && negb (has_byte DQUOTE raw) then DQUOTE else SQUOTE.

Definition hexdigit (n : N) : ascii :=
  nth (N.to_nat n) (list_ascii_of_string "0123456789abcdef") "0"%char.

Definition repr_byte (quote : ascii) (c : byte) : string :=
  let a := ascii_of_byte c in
  let n := Byte.to_N c in
  if Ascii.eqb a quote || Ascii.eqb a BACKSLASH then String BACKSLASH (String a "")
  else if Ascii.eqb a TAB then String BACKSLASH "t"
  else if Ascii.eqb a LF then String BACKSLASH "n"
  else if Ascii.eqb a CR then String BACKSLASH "r"
  else if (n <? 32)%N || (127 <=? n)%N then
    String BACKSLASH (String "x" (String (hexdigit (n / 16)) (String (hexdigit (n mod 16)) "")))
  else String a "".

Fixpoint repr_body (quote : ascii) (raw : bytes) : string :=
  match raw with
  | [] => ""
  | c :: raw' => repr_byte quote c ++ repr_body quote raw'
  end.

Definition bytes_repr (raw : bytes) : string :=
  let quote := repr_quote raw in
  String "b" (String quote (repr_body quote raw ++ String quote "")).

(** ** [str.split(sep)]

    The text is scanned from the left; wherever the separator starts the
    current field is closed and the scan resumes after the separator.  An
    empty separator raises [ValueError]. *)

Definition push_char (c : ascii) (fields : list string) : list string :=
  match fields with
  | [] => [String c ""]
  | f :: fs => String c f :: fs
  end.

Fixpoint split_scan (sep s : string) (skip : nat) : list string :=
  match s with
  | "" => [""]
  | String c s' =>
      match skip with
      | S k => split_scan sep s' k
      | O =>
          if prefix sep s then "" :: split_scan sep s' (String.length sep - 1)
          else push_char c (split_scan sep s' 0)
      end
  end.

Definition str_split (s sep : string) : result (list string) :=
  match sep with
  | "" => Raise ValueError
  | _ => Ok (split_scan sep s 0)
  end.

(** ** [seq[i]] with a possibly negative index *)

Definition getitem {A} (l : list A) (i : Z) : result A :=
  let n := Z.of_nat (List.length l) in
  let j := if (i <? 0)%Z then (i + n)%Z else i in
  if (0 <=? j)%Z && (j <? n)%Z then
    match nth_error l (Z.to_nat j) with
    | Some x => Ok x
    | None => Raise IndexError
    end
  else Raise IndexError.

(** ** [float]: IEEE 754 binary64 *)

Definition prec : Z := 53%Z.
Definition emax : Z := 1024%Z.

(** A float is a signed zero, a signed infinity, the NaN or a finite
    [(-1)^s * m * 2^e]. *)
Definition float : Type := spec_float.

Definition float_mul : float -> float -> float := SFmul prec emax.
Definition float_ltb : float -> float -> bool := SFltb.

Definition is_zero (x : float) : bool :=
  match x with S754_zero _ => true | _ => false end.

(** [x / y] on floats: a zero divisor raises, whatever the dividend. *)
Definition float_truediv (x y : float) : result float :=
  if is_zero y then Raise ZeroDivisionError else Ok (SFdiv prec emax x y).

(** The float of an [int], as [int * float] converts its left operand; exact
    below [2^53]. *)
Definition float_of_int (z : Z) : float := binary_normalize prec emax z 0%Z false.

(** The binary64 value nearest to [(-1)^neg * M * 10^E] (ties to even), for
    [0 <= M]; what the decimal-to-binary conversion of Python returns. *)
Definition float_of_decimal (neg : bool) (M E : Z) : float :=
  match M with
  | Zpos m =>
      if (0 <=? E)%Z then binary_round prec emax neg (m * Z.to_pos (10 ^ E)%Z)%positive 0%Z
      else
        let '(q, e, l) := SFdiv_core_binary prec emax (Zpos m) 0%Z (10 ^ (- E))%Z 0%Z in
        binary_round_aux prec emax neg q e l
  | _ => S754_zero neg
  end.

(** *** [float(str)] *)

(** The white space that [float] strips from an ASCII string: the
    characters of C's [isspace]. *)
Definition is_space (c : ascii) : bool :=
  let n := N_of_ascii c in
  ((9 <=? n) && (n <=? 13) || (n =? 32))%N.

Definition is_digit (c : ascii) : bool :=
  let n := N_of_ascii c in ((48 <=? n) && (n <=? 57))%N.

Definition digit_value (c : ascii) : Z := (Z.of_N (N_of_ascii c) - 48)%Z.

Fixpoint lstrip (s : string) : string :=
  match s with
  | "" => ""
  | String c s' => if is_space c then lstrip s' else s
  end.

Fixpoint rstrip (s : string) : string :=
  match s with
  | "" => ""
  | String c s' =>
      match rstrip s' with
      | "" => if is_space c then "" else String c ""
      | r => String c r
      end
  end.

Definition strip (s : string) : string := rstrip (lstrip s).

(** Underscores may only stand between two digits; they are dropped. *)
Fixpoint remove_underscores (prev : ascii) (s : string) : option string :=
  match s with
  | "" => if Ascii.eqb prev "_" then None else Some ""
  | String c s' =>
      if Ascii.eqb c "_" then
        if is_digit prev then remove_underscores c s' else None
      else if Ascii.eqb prev "_" && negb (is_digit c) then None
      else option_map (String c) (remove_underscores c s')
  end.

(** The leading digits and what follows them. *)
Fixpoint span_digits (s : string) : string * string :=
  match s with
  | "" => ("", "")
  | String c s' =>
      if is_digit c then let '(ds, r) := span_digits s' in (String c ds, r)
      else ("", s)
  end.

Fixpoint Z_of_digits_acc (acc : Z) (ds : string) : Z :=
  match ds with
  | "" => acc
  | String c ds' => Z_of_digits_acc (10 * acc + digit_value c)%Z ds'
  end.

Definition Z_of_digits : string -> Z := Z_of_digits_acc 0.

Definition parse_sign (s : string) : bool * string :=
  match s with
  | String c s' =>
      if Ascii.eqb c "-" then (true, s')
      else if Ascii.eqb c "+" then (false, s')
      else (false, s)
  | "" => (false, "")
  end.

Definition is_empty (s : string) : bool :=
  match s with "" => true | _ => false end.

(** What follows the mantissa digits: nothing, or a complete exponent. *)
Definition parse_exponent (s : string) : option Z :=
  match s with
  | "" => Some 0%Z
  | String c s' =>
      if Ascii.eqb c "e" || Ascii.eqb c "E" then
        let '(neg, s'') := parse_sign s' in
        let '(ds, r) := span_digits s'' in
        if negb (is_empty ds) && is_empty r then
          Some (if neg then (- Z_of_digits ds)%Z else Z_of_digits ds)
        else None
      else None
  end.

(** [digits [. digits] [exponent]] or [. digits [exponent]]: the integer made
    of all mantissa digits and the power of ten that scales it. *)
Definition parse_decimal (s : string) : option (Z * Z) :=
  let '(ip, r1) := span_digits s in
  let '(fp, r2) :=
    match r1 with
    | String c r => if Ascii.eqb c "." then span_digits r else ("", r1)
    | "" => ("", r1)
    end in
  if is_empty ip && is_empty fp then None
  else
    match parse_exponent r2 with
    | Some e => Some (Z_of_digits (ip ++ fp), (e - Z.of_nat (String.length fp))%Z)
    | None => None
    end.

(** [inf], [infinity] and [nan], in any case. *)
Definition lower (c : ascii) : ascii :=
  let n := N_of_ascii c in
  if ((65 <=? n) && (n <=? 90))%N then ascii_of_N (n + 32) else c.

Fixpoint lower_str (s : string) : string :=
  match s with
  | "" => ""
  | String c s' => String (lower c) (lower_str s')
  end.

Definition parse_inf_or_nan (neg : bool) (s : string) : option float :=
  let l := lower_str s in
  if String.eqb l "inf" || String.eqb l "infinity" then Some (S754_infinity neg)
  else if String.eqb l "nan" then Some S754_nan
  else None.

Definition NUL : ascii := "000"%char.

(** [float(s)] for an ASCII string: white space is stripped from both ends,
    underscores are checked and dropped, and the rest is a decimal number,
    an infinity or a NaN, or else [ValueError] is raised. *)
Definition float_of_str (s : string) : result float :=
  match remove_underscores NUL (strip s) with
  | None => Raise ValueError
  | Some u =>
      let '(neg, r) := parse_sign u in
      match parse_decimal r with
      | Some (M, E) => Ok (float_of_decimal neg M E)
      | None =>
          match parse_inf_or_nan neg r with
          | Some v => Ok v
          | None => Raise ValueError
          end
      end
  end.

(** [float(x)]: a float is returned as it is, a string is parsed. *)
Inductive pyobj : Type :=
| PyStr (s : string)
| PyFloat (x : float).

Definition py_float (o : pyobj) : result float :=
  match o with
  | PyStr s => float_of_str s
  | PyFloat x => Ok x
  end.

(** *** [repr(float)], which [f"{x}"] writes for a float

    The shortest decimal string that reads back as the same float; of two
    such strings of the same length the one nearer to the float (ties to the
    even last digit).  The digits are then laid out in fixed notation when
    the decimal point position is in [(-4, 16]], with an exponent
    otherwise. *)

Definition digit_char (d : Z) : ascii := ascii_of_N (Z.to_N (48 + d)).

Fixpoint decimal_acc (fuel : nat) (n : Z) (acc : string) : string :=
  match fuel with
  | O => acc
  | S f =>
      let acc' := String (digit_char (n mod 10)) acc in
      if (n <? 10)%Z then acc' else decimal_acc f (n / 10)%Z acc'
  end.

Definition decimal (n : Z) : string :=
  decimal_acc (S (Z.to_nat (Z.log2 n))) n "".

(** [m * 2^e / 10^k] as a fraction of two positive integers. *)
Definition scaled (m : positive) (e k : Z) : Z * Z :=
  ((Zpos m * 2 ^ Z.max e 0 * 10 ^ Z.max (- k) 0)%Z,
   (2 ^ Z.max (- e) 0 * 10 ^ Z.max k 0)%Z).

Fixpoint find_decpt (fuel : nat) (m : positive) (e k : Z) : Z :=
  match fuel with
  | O => k
  | S f =>
      let '(n, d) := scaled m e k in
      if (n <? d)%Z then k else find_decpt f m e (k + 1)%Z
  end.

(** The least [k] with [m * 2^e < 10^k], searched upwards from an
    under-estimate of the decimal logarithm. *)
Definition decpt (m : positive) (e : Z) : Z :=
  let bits := (Zpos (digits2_pos m) + e)%Z in
  find_decpt 4 m e ((bits - 1) * 1233 / 4096 - 1)%Z.

(** [float] reads the decimal [D * 10^j] as [m * 2^e]. *)
Definition reads_back (D j : Z) (m : positive) (e : Z) : bool :=
  match float_of_decimal false D j with
  | S754_finite false m' e' => Pos.eqb m' m && Z.eqb e' e
  | _ => false
  end.

(** The [n]-digit integer [D] with [D * 10^(dp - n)] reading back as
    [m * 2^e], if there is one. *)
Definition digits_at (m : positive) (e dp : Z) (n : Z) : option Z :=
  let j := (dp - n)%Z in
  let '(num, den) := scaled m e j in
  let lo := (num / den)%Z in
  let r := (num mod den)%Z in
  let hi := (lo + 1)%Z in
  match reads_back lo j m e, reads_back hi j m e with
  | true, true =>
      match (2 * r ?= den)%Z with
      | Lt => Some lo
      | Gt => Some hi
      | Eq => Some (if Z.even lo then lo else hi)
      end
  | true, false => Some lo
  | false, true => Some hi
  | false, false => None
  end.

(** The first precision from [n] up at which some decimal reads back; 17
    digits always do. *)
Fixpoint shortest_from (fuel : nat) (m : positive) (e dp n : Z) : Z * Z :=
  match fuel with
  | O => (0%Z, n)
  | S f =>
      match digits_at m e dp n with
      | Some D => (D, n)
      | None => shortest_from f m e dp (n + 1)%Z
      end
  end.

Fixpoint strip_zeros_rev (s : string) : string :=
  match s with
  | String c s' => if Ascii.eqb c "0" then strip_zeros_rev s' else s
  | "" => ""
  end.

Fixpoint rev_str (s acc : string) : string :=
  match s with
  | "" => acc
  | String c s' => rev_str s' (String c acc)
  end.

Definition strip_trailing_zeros (s : string) : string :=
  rev_str (strip_zeros_rev (rev_str s "")) "".

(** The digits (no trailing zero) and the position of the decimal point:
    the float is [0.d1d2...dn * 10^decpt]. *)
Definition float_digits (m : positive) (e : Z) : string * Z :=
  let dp := decpt m e in
  let '(D, n) := shortest_from 17 m e dp 1 in
  let ds := decimal D in
  (strip_trailing_zeros ds, (Z.of_nat (String.length ds) + (dp - n))%Z).

Fixpoint zeros (n : nat) : string :=
  match n with
  | O => ""
  | S k => String "0" (zeros k)
  end.

Fixpoint take (n : nat) (s : string) : string :=
  match n, s with
  | S k, String c s' => String c (take k s')
  | _, _ => ""
  end.

Fixpoint drop (n : nat) (s : string) : string :=
  match n, s with
  | S k, String _ s' => drop k s'
  | _, _ => s
  end.

(** The exponent with its sign and two digits at least. *)
Definition format_exponent (x : Z) : string :=
  let a := decimal (Z.abs x) in
  String (if (x <? 0)%Z then "-" else "+")%char
         (if (Z.abs x <? 10)%Z then String "0" a else a).

(** The digits [ds] with the decimal point after [dp] of them. *)
Definition format_digits (ds : string) (dp : Z) : string :=
  let nd := String.length ds in
  if (dp <=? -4)%Z || (16 <? dp)%Z then
    take 1 ds ++ (if (1 <? nd)%nat then String "." (drop 1 ds) else "")
      ++ String "e" (format_exponent (dp - 1))
  else if (dp <=? 0)%Z then "0." ++ zeros (Z.to_nat (- dp)) ++ ds
  else if (Z.of_nat nd <=? dp)%Z then ds ++ zeros (Z.to_nat dp - nd) ++ ".0"
  else take (Z.to_nat dp) ds ++ String "." (drop (Z.to_nat dp) ds).

Definition float_repr (x : float) : string :=
  match x with
  | S754_nan => "nan"
  | S754_infinity s => if s then "-inf" else "inf"
  | S754_zero s => if s then "-0.0" else "0.0"
  | S754_finite s m e =>
      let '(ds, dp) := float_digits m e in
      (if s then "-" else "") ++ format_digits ds dp
  end.

(** ** The operating system and [subprocess.check_output]

    The command line is handed to the shell ([shell=True]).  Either no
    process can be started, or the process exits with a return code after
    writing its standard output; a simulator that the shell cannot start
    shows as a return code of the shell other than zero.  The environment
    answers the [n]-th launch (counted from 0) of a command line. *)

Inductive outcome : Type :=
| NotStarted
| Exited (returncode : Z) (stdout : bytes).

Definition env : Type := nat -> string -> outcome.

(** A computation that launches commands: it extends the list of the command
    lines launched so far and returns or raises. *)
Definition M (A : Type) : Type := list string -> list string * result A.

Definition ret {A} (a : A) : M A := fun launched => (launched, Ok a).

Definition bindM {A B} (c : M A) (k : A -> M B) : M B :=
  fun launched =>
    match c launched with
    | (launched', Ok a) => k a launched'
    | (launched', Raise e) => (launched', Raise e)
    end.

Definition lift {A} (r : result A) : M A := fun launched => (launched, r).

Declare Scope sweep_scope.
Delimit Scope sweep_scope with sweep.
Notation "x <- c ;; k" := (bindM c (fun x => k))
  (at level 61, c at next level, right associativity) : sweep_scope.
Notation "' pat <- c ;; k" := (bindM c (fun pat => k))
  (at level 61, pat pattern, c at next level, right associativity) : sweep_scope.

Fixpoint for_each {A S} (xs : list A) (body : A -> S -> M S) (s : S) : M S :=
  match xs with
  | [] => ret s
  | x :: xs' => bindM (body x s) (for_each xs' body)
  end.

Fixpoint map_result {A B} (f : A -> result B) (l : list A) : result (list B) :=
  match l with
  | [] => Ok []
  | x :: l' => (y <- f x ;; ys <- map_result f l' ;; Ok (y :: ys))%py
  end.

(** The words a POSIX shell makes of a command line that holds no quoting,
    expansion or operator character: the non-empty runs between spaces. *)
Fixpoint sh_words_acc (s : string) (cur : string) : list string :=
  match s with
  | "" => if is_empty cur then [] else [rev_str cur ""]
  | String c s' =>
      if Ascii.eqb c " " then
        if is_empty cur then sh_words_acc s' "" else rev_str cur "" :: sh_words_acc s' ""
      else sh_words_acc s' (String c cur)
  end.

Definition sh_words (s : string) : list string := sh_words_acc s "".

(** ** [get_data.py] *)

(** The literal [0.001]. *)
Definition lit_0_001 : float :=
  Eval vm_compute in
    match float_of_str "0.001" with Ok x => x | Raise _ => S754_nan end.

(** The argument of [display] at the end of the script: the literal [0.1]. *)
Definition lit_0_1 : float :=
  Eval vm_compute in
    match float_of_str "0.1" with Ok x => x | Raise _ => S754_nan end.

(** [[(i + 1)*0.001 for i in range(100)]] *)
Definition lambdas : list float :=
  map (fun i => float_mul (float_of_int (Z.of_nat i + 1)) lit_0_001) (seq 0 100).

(** [f"./schedsim --topo=0 --mu={mu} --lambda={l} --genType=3 --procType=0"] *)
Definition command (mu l : float) : string :=
  "./schedsim --topo=0 --mu=" ++ float_repr mu ++ " --lambda=" ++ float_repr l
    ++ " --genType=3 --procType=0".

(** [float(output.split("\\t")[-2])]: the separator is a backslash followed
    by the letter t. *)
Definition parse_metric (output : string) : result float :=
  (fields <- str_split output "\t" ;;
   field <- getitem fields (-2) ;;
   py_float (PyStr field))%py.

(** The parser applied to what one run wrote: [output] is [str] of the bytes
    that [check_output] returned. *)
Definition parse_output (raw : bytes) : result float :=
  parse_metric (bytes_repr raw).

(** What [check_output] makes of the outcome of the launch: the bytes
    written, or [OSError] when nothing could be started, or
    [CalledProcessError] when the return code is not zero. *)
Definition returned (o : outcome) : result bytes :=
  match o with
  | NotStarted => Raise OSError
  | Exited rc out => if (rc =? 0)%Z then Ok out else Raise (CalledProcessError rc)
  end.

Section Process.

Variable E : env.

(** [subprocess.check_output(cmd, shell=True)] *)
Definition check_output (cmd : string) : M bytes :=
  fun launched =>
    (launched ++ [cmd], returned (E (List.length launched) cmd)).

(** The body of [for l in lambdas], on the two lists built so far. *)
Definition step (mu l : float) (acc : list float * list float)
  : M (list float * list float) :=
  let '(load, performance) := acc in
  (raw <- check_output (command mu l) ;;
   let output := bytes_repr raw in
   q <- lift (float_truediv l mu) ;;
   let load := load ++ [q] in
   v <- lift (parse_metric output) ;;
   let performance := performance ++ [v] in
   ret (load, performance))%sweep.

(** The loop of [process]. *)
Definition sweep (mu : float) : M (list float * list float) :=
  for_each lambdas (step mu) ([], []).

(** [process(mu)] *)
Definition process (mu : float) : M (list float * list float) :=
  ('(load, performance) <- sweep mu ;;
   performance <- lift (map_result py_float (map PyFloat performance)) ;;
   ret (load, performance))%sweep.

(** A run of [process] from the start of the script. *)
Definition run (mu : float) : list string * result (list float * list float) :=
  process mu [].

End Process.

(** ** The figure: [numpy.array], [pyplot.plot] and [pyplot.show]

    [display] acts on the outside in three ways: through [process] it
    launches command lines, it draws a line on the current figure, and it
    shows the figure.  A trace lists these actions in the order in which
    they happen. *)

Inductive event : Type :=
| Launched (cmd : string)
| Plotted (xpoints ypoints : list float)
| Shown.

(** The command lines launched in a trace. *)
Definition launched_of (trace : list event) : list string :=
  flat_map (fun ev => match ev with Launched cmd => [cmd] | _ => [] end) trace.

(** A computation of the script: it extends the trace and returns or
    raises. *)
Definition Script (A : Type) : Type := list event -> list event * result A.

Definition retS {A} (a : A) : Script A := fun trace => (trace, Ok a).

Definition bindS {A B} (c : Script A) (k : A -> Script B) : Script B :=
  fun trace =>
    match c trace with
    | (trace', Ok a) => k a trace'
    | (trace', Raise e) => (trace', Raise e)
    end.

Declare Scope script_scope.
Delimit Scope script_scope with script.
Notation "x <- c ;; k" := (bindS c (fun x => k))
  (at level 61, c at next level, right associativity) : script_scope.
Notation "' pat <- c ;; k" := (bindS c (fun pat => k))
  (at level 61, pat pattern, c at next level, right associativity) : script_scope.

(** A computation that launches commands, run by the script: it starts from
    the commands launched so far, and what it launches is appended to the
    trace. *)
Definition launching {A} (c : M A) : Script A :=
  fun trace =>
    let launched := launched_of trace in
    let '(launched', r) := c launched in
    (trace ++ map Launched (skipn (List.length launched) launched'), r).

(** [np.array(l)] for a list of floats: the one-dimensional array of the
    same floats. *)
Definition np_array (l : list float) : list float := l.

(** [plt.plot(xpoints, ypoints)] draws one line through the points; arrays
    of different lengths raise [ValueError]. *)
Definition plt_plot (xpoints ypoints : list float) : Script unit :=
  fun trace =>
    if Nat.eqb (List.length xpoints) (List.length ypoints)
    then (trace ++ [Plotted xpoints ypoints], Ok tt)
    else (trace, Raise ValueError).

(** [plt.show()] *)
Definition plt_show : Script unit := fun trace => (trace ++ [Shown], Ok tt).

(** [for x in xs: body] *)
Fixpoint for_in {A} (xs : list A) (body : A -> Script unit) : Script unit :=
  match xs with
  | [] => retS tt
  | x :: xs' => bindS (body x) (fun _ => for_in xs' body)
  end.

Section Display.

Variable E : env.

(** [display(mus)] *)
Definition display (mus : list float) : Script unit :=
  for_in mus (fun mu =>
    ('(load, performance) <- launching (process E mu) ;;
     let xpoints := np_array load in
     let ypoints := np_array performance in
     _ <- plt_plot xpoints ypoints ;;
     plt_show)%script).

(** The last line of the script, run from the empty trace:
    [display([0.1])]. *)
Definition script : list event * result unit := display [lit_0_1] [].

End Display.

(** ** The vocabulary of the specification *)

(** The two error kinds and the exceptions they stand for. *)
Inductive error_kind : Type :=
| InvocationError
| ParseError.

Definition kind_of (e : exn) : option error_kind :=
  match e with
  | OSError | CalledProcessError _ => Some InvocationError
  | IndexError | ValueError => Some ParseError
  | ZeroDivisionError => None
  end.

Definition TABb : byte := x09.
Definition is_tab (c : byte) : bool := Byte.eqb c TABb.

(** The tab-delimited fields of the raw output. *)
Fixpoint tab_fields (raw : bytes) : list bytes :=
  match raw with
  | [] => [[]]
  | c :: raw' =>
      if is_tab c then [] :: tab_fields raw'
      else
        match tab_fields raw' with
        | f :: fs => (c :: f) :: fs
        | [] => [[c]]
        end
  end.

(** A field is numeric when [float] accepts its text, read with the ASCII
    white space and digits. *)
Definition numeric (field : bytes) : bool :=
  is_ok (float_of_str (text_of_bytes field)).

(** The parser as the specification words it: the second-to-last
    tab-delimited field, read as a float. *)
Definition spec_parse (raw : bytes) : result float :=
  (field <- getitem (tab_fields raw) (-2) ;;
   float_of_str (text_of_bytes field))%py.

(** No backslash byte is directly followed by the byte of the letter t. *)
Fixpoint bs_t_free (raw : bytes) : bool :=
  match raw with
  | c :: raw' =>
      negb (Byte.eqb c x5c && match raw' with d :: _ => Byte.eqb d x74 | [] => false end)
        && bs_t_free raw'
  | [] => true
  end.

(** Bytes that [str] writes as themselves under either quote: printable
    ASCII other than the backslash and the two quotes. *)
Definition plain_byte (c : byte) : bool :=
  let n := Byte.to_N c in
  ((32 <=? n) && (n <? 127))%N
    && negb (Byte.eqb c x5c) && negb (Byte.eqb c x27) && negb (Byte.eqb c x22).

Definition plain (raw : bytes) : bool := forallb plain_byte raw.

(** The launch could not be started or exited with a return code other than
    zero. *)
Definition invocation_fails (o : outcome) : bool :=
  match o with
  | NotStarted => true
  | Exited rc _ => negb (rc =? 0)%Z
  end.

(** The metric that one answer of the environment yields. *)
Definition metric (o : outcome) : result float :=
  (raw <- returned o ;; parse_output raw)%py.

(** The default element of the lists of floats. *)
Definition NaN : float := S754_nan.

(** Step [i] of the sweep at service rate [mu]: its command line, and the
    answer of the environment to launch [i]. *)
Definition command_at (mu : float) (i : nat) : string :=
  command mu (nth i lambdas NaN).

Definition answer (E : env) (mu : float) (i : nat) : outcome :=
  E i (command_at mu i).

(** Adjacent elements are in strictly increasing order. *)
Fixpoint increasing (l : list float) : bool :=
  match l with
  | x :: (y :: _) as l' => float_ltb x y && increasing l'
  | _ => true
  end.

(** The arrival rates divided by the service rate. *)
Definition loads (mu : float) : list float :=
  map (fun l => SFdiv prec emax l mu) lambdas.

(** ** Definitions for the statements and the proofs *)

(** The separator of [process], a backslash and the letter t, and the fields
    it cuts a text into. *)
Definition SEP : string := "\t".
Definition split (s : string) : list string := split_scan SEP s 0.

(** The text starts with the character [c]. *)
Definition head_is (c : ascii) (s : string) : bool :=
  match s with String d _ => Ascii.eqb d c | "" => false end.

(** The text [p] put in front of the first field. *)
Fixpoint push_str (p : string) (fields : list string) : list string :=
  match p with
  | "" => fields
  | String c p' => push_char c (push_str p' fields)
  end.

(** The two quotes [str] may choose. *)
Definition is_quote (q : ascii) : Prop := q = SQUOTE \/ q = DQUOTE.

(** No byte is a tab. *)
Definition tab_free (raw : bytes) : bool := forallb (fun c => negb (is_tab c)) raw.

(** The fields put together again, a tab between two of them. *)
Fixpoint join_tab (fields : list bytes) : bytes :=
  match fields with
  | [] => []
  | [f] => f
  | f :: fs => f ++ TABb :: join_tab fs
  end.

(** Every character of the text satisfies [P]; some character is [c]. *)
Fixpoint all_chars (P : ascii -> bool) (s : string) : bool :=
  match s with
  | "" => true
  | String c s' => P c && all_chars P s'
  end.

Definition has_char (c : ascii) (s : string) : bool :=
  negb (all_chars (fun d => negb (Ascii.eqb d c)) s).

(** The alphabet of the texts that [float] accepts. *)
Definition float_char (c : ascii) : bool :=
  is_space c || is_digit c
    || negb (all_chars (fun d => negb (Ascii.eqb d c)) "+-._eEinfatyINFATY").

(** The text holds a backslash. *)
Definition has_backslash (s : string) : Prop := has_char BACKSLASH s = true.

(** The output made of the given ASCII fields. *)
Definition tabbed (fields : list string) : bytes := join_tab (map b fields).

(** What one step appends to the two lists, from the answer of the
    environment. *)
Definition step_result (mu l : float) (o : outcome) : result (float * float) :=
  (raw <- returned o ;;
   q <- float_truediv l mu ;;
   v <- parse_output raw ;;
   Ok (q, v))%py.

(** Environments to run the sweep in.  An output of three fields. *)
Definition sample_output : bytes := tabbed ["a"; "1.5"; "z"].

(** Every launch exits with code 0 after writing three fields. *)
Definition env_ok : env := fun _ _ => Exited 0 sample_output.

(** As [env_ok], but launch [k] exits with code [rc]. *)
Definition env_exit_at (k : nat) (rc : Z) : env :=
  fun n _ => if Nat.eqb n k then Exited rc [] else Exited 0 sample_output.

(** Every launch exits with code 0; launch [k] has written one field, the
    others three. *)
Definition env_one_field_at (k : nat) : env :=
  fun n _ => Exited 0 (if Nat.eqb n k then b "hello" else sample_output).

(** The characters of the repr of a float. *)
Definition repr_char (c : ascii) : bool :=
  is_digit c || negb (all_chars (fun d => negb (Ascii.eqb d c)) ".e+-infa").

(** A character other than the space. *)
Definition word_char (c : ascii) : bool := negb (Ascii.eqb c " ").

(** The words of the command line of a step. *)
Definition argv (mu l : float) : list string :=
  ["./schedsim"; "--topo=0"; ("--mu=" ++ float_repr mu)%string;
   ("--lambda=" ++ float_repr l)%string; "--genType=3"; "--procType=0"].

(** [x] is within a relative [2^-k] of the fraction [n / d]. *)
Definition within (x : float) (n d k : Z) : bool :=
  match x with
  | S754_finite false m e =>
      ((e <=? 0) && (Z.abs (Zpos m * d - n * 2 ^ (- e)) * 2 ^ k <=? n * 2 ^ (- e)))%Z
  | _ => false
  end.

(** A positive normal binary64 float. *)
Definition normal_positive (x : float) : bool :=
  match x with
  | S754_finite false m e =>
      ((Zpos (digits2_pos m) =? 53) && (-1074 <=? e) && (e <=? 971))%Z
  | _ => false
  end.

(** Two positive normal floats of the magnitude of the arrival rates, the
    second above the first by [2^20] units in the last place of the first
    at least. *)
Definition well_apart (x1 x2 : float) : bool :=
  match x1, x2 with
  | S754_finite false m1 e1, S754_finite false m2 e2 =>
      ((Zpos (digits2_pos m1) =? 53) && (Zpos (digits2_pos m2) =? 53)
       && (-62 <=? e1) && (e1 <=? e2) && (e2 <=? -56)
       && (2 ^ 20 <=? Zpos m2 * 2 ^ (e2 - e1) - Zpos m1))%Z
  | _, _ => false
  end.

(** The least positive float, [2^-1074]. *)
Definition mu_min : float := S754_finite false 1 (-1074).

(** [P i j] holds for all [i < j < n]. *)
Definition pairs_below (n : nat) (P : nat -> nat -> bool) : bool :=
  forallb (fun i => forallb (fun j => implb (Nat.ltb i j) (P i j)) (seq 0 n)) (seq 0 n).

(** The environment after [n] launches. *)
Definition shift (n : nat) (E : env) : env := fun i cmd => E (n + i) cmd.

(** What the sweep of one service rate leaves in the trace when it is
    plotted: the 100 launches, the plot of the loads against the metrics,
    and the show. *)
Definition curve_events (curve : float * list float) : list event :=
  let '(mu, performance) := curve in
  map Launched (map (command mu) lambdas) ++ [Plotted (loads mu) performance; Shown].

(** The places at which [process] cuts the text of the output: a tab byte,
    and a backslash byte directly before the byte of the letter t. *)
Definition cut_here (c : byte) (raw' : bytes) : bool :=
  is_tab c
  || (Byte.eqb c x5c && match raw' with d :: _ => Byte.eqb d x74 | [] => false end).

Fixpoint separators (raw : bytes) : nat :=
  match raw with
  | c :: raw' => (if cut_here c raw' then 1 else 0) + separators raw'
  | [] => 0
  end.

(** [sep.join(fields)]: the fields with the separator between two of them. *)
Fixpoint join (sep : string) (fields : list string) : string :=
  match fields with
  | [] => ""
  | [f] => f
  | f :: fs => f ++ sep ++ join sep fs
  end.

(** A positive finite float. *)
Definition positive_finite (x : float) : bool :=
  match x with S754_finite false _ _ => true | _ => false end.

(** What follows the last backslash that stands directly before a letter t,
    when there is one. *)
Fixpoint after_last_bs_t (raw : bytes) : option bytes :=
  match raw with
  | [] => None
  | c :: raw' =>
      match after_last_bs_t raw' with
      | Some r => Some r
      | None =>
          match raw' with
          | d :: r => if Byte.eqb c x5c && Byte.eqb d x74 then Some r else None
          | [] => None
          end
      end
  end.

(** The one way for [process] to read a number where the second-to-last
    tab-delimited field [f] is none: the last field [g] holds no backslash
    before a letter t, [f] holds one, and what follows the last one in [f]
    is a number written in plain bytes. *)
Definition reads_past_bs_t (f g : bytes) : bool :=
  bs_t_free g
  && match after_last_bs_t f with
     | Some r => plain r && numeric r
     | None => false
     end.

(** The bytes of [n] spaces. *)
Definition spaces (n : nat) : bytes := repeat x20 n.

(** A letter of the ASCII alphabet. *)
Definition is_letter (c : ascii) : bool :=
  let n := N_of_ascii c in
  ((65 <=? n) && (n <=? 90) || (97 <=? n) && (n <=? 122))%N.

(** The characters that a POSIX shell takes as they are, within a word or
    between two words: letters, digits, the space and [. / = + -]. *)
Definition shell_plain (c : ascii) : bool :=
  is_letter c || is_digit c || has_char c " ./=+-".

(** The position of the fraction [A / B] between the integer below it and
    the next one. *)
Definition loc_frac (A B : Z) : location :=
  if (A mod B =? 0)%Z then loc_Exact
  else loc_Inexact (2 * (A mod B) ?= B)%Z.

(** The record of the shifts for the fraction [A / B]. *)
Definition rec_frac (A B : Z) : shr_record :=
  shr_record_of_loc (A / B)%Z (loc_frac A B).

(** The float nearest to [A / B * 2^e], as the rounding of the division and
    of the decimal conversion computes it from the integer part of the
    fraction and from its position. *)
Definition round_frac (A B e : Z) : float :=
  binary_round_aux prec emax false (A / B)%Z e (loc_frac A B).

(** The float nearest to the fraction [N / Dn] (ties to even): the fraction
    is cut at the weight [2^-1074] of the last bit of the subnormal floats
    and then rounded. *)
Definition nearest (N Dn : Z) : float :=
  round_frac (N * 2 ^ 1074)%Z Dn (-1074)%Z.

(** The search for the decimal point of a float of [t + 1] bits before the
    binary point starts at [t * 1233 / 4096 - 1]: low enough, when the power
    of ten before the start is not above [2^t]. *)
Definition decpt_start_ok (t : Z) : bool :=
  let k := (t * 1233 / 4096 - 2)%Z in
  (2 ^ Z.max (- t) 0 * 10 ^ Z.max k 0 <=? 2 ^ Z.max t 0 * 10 ^ Z.max (- k) 0)%Z.

(** * Proofs *)

Lemma append_assoc (x y z : string) : ((x ++ y) ++ z = x ++ (y ++ z))%string.
Proof. induction x as [|c x IH]; simpl; [reflexivity | now rewrite IH]. Qed.

Lemma append_nil_r (x : string) : (x ++ "")%string = x.
Proof. induction x as [|c x IH]; simpl; [reflexivity | now rewrite IH]. Qed.

(** *** [split_scan] at the separator of [process] *)

Lemma split_nonempty sep s k : split_scan sep s k <> [].
Proof.
  revert k; induction s as [|c s IH]; intros k; cbn [split_scan]; [discriminate|].
  destruct k; [|apply IH].
  destruct (prefix sep (String c s)); [discriminate|].
  specialize (IH 0). destruct (split_scan sep s 0); simpl; [congruence | discriminate].
Qed.

Lemma push_char_app c l1 l2 : l1 <> [] -> push_char c (l1 ++ l2) = push_char c l1 ++ l2.
Proof. destruct l1; [congruence | reflexivity]. Qed.

Lemma prefix_cons a s1 c s2 :
  prefix (String a s1) (String c s2) = if ascii_dec a c then prefix s1 s2 else false.
Proof. reflexivity. Qed.

Lemma prefix_SEP c s :
  prefix SEP (String c s) = Ascii.eqb c BACKSLASH && head_is "t" s.
Proof.
  unfold SEP. rewrite prefix_cons.
  destruct (ascii_dec "\" c) as [<-|n].
  - change (Ascii.eqb "\" BACKSLASH) with true. cbv beta iota. rewrite andb_true_l.
    destruct s as [|d s]; [reflexivity|]. rewrite prefix_cons. cbn [head_is].
    destruct (ascii_dec "t" d) as [<-|n].
    + destruct s; reflexivity.
    + symmetry. apply Ascii.eqb_neq. intros H. apply n. now rewrite H.
  - symmetry. apply andb_false_iff. left. apply Ascii.eqb_neq.
    intros H. apply n. now rewrite H.
Qed.

Lemma split_cons c s :
  split (String c s) =
  if Ascii.eqb c BACKSLASH && head_is "t" s then "" :: split_scan SEP s 1
  else push_char c (split s).
Proof. unfold split. cbn [split_scan]. rewrite prefix_SEP. reflexivity. Qed.

Lemma head_is_app c x y :
  head_is c (x ++ y)%string = if is_empty x then head_is c y else head_is c x.
Proof. destruct x; reflexivity. Qed.

Lemma split_sep y : split (SEP ++ y)%string = "" :: split y.
Proof. unfold SEP. cbn [append]. rewrite split_cons. reflexivity. Qed.

(** The separator cannot overlap itself, so the fields of a text cut at one
    separator are the fields of the two parts. *)
Lemma split_scan_app_sep y x k :
  k <= String.length x ->
  split_scan SEP (x ++ SEP ++ y)%string k = split_scan SEP x k ++ split y.
Proof.
  revert k; induction x as [|c x IH]; intros k Hk.
  - simpl in Hk. assert (k = 0) by lia. subst k. apply split_sep.
  - destruct k as [|k].
    + change (split (String c (x ++ SEP ++ y)%string) = split (String c x) ++ split y).
      rewrite !split_cons, head_is_app.
      destruct x as [|d x].
      * simpl is_empty. cbv iota. simpl (head_is "t" "").
        rewrite andb_false_r.
        replace (Ascii.eqb c BACKSLASH && head_is "t" (SEP ++ y)%string) with false
          by (symmetry; apply andb_false_r).
        change (("" ++ SEP ++ y)%string) with ((SEP ++ y)%string).
        rewrite split_sep, ?andb_false_r. reflexivity.
      * simpl is_empty. cbv iota.
        destruct (Ascii.eqb c BACKSLASH && head_is "t" (String d x)).
        -- simpl. f_equal. apply (IH 1). simpl; lia.
        -- fold (split (String d x ++ SEP ++ y)%string).
           unfold split at 1. rewrite (IH 0) by lia.
           apply push_char_app, split_nonempty.
    + simpl. apply IH. simpl in Hk. lia.
Qed.

Lemma split_app_sep x y : split (x ++ SEP ++ y)%string = split x ++ split y.
Proof. apply split_scan_app_sep. lia. Qed.

Lemma split_cons_other c s : c <> BACKSLASH -> split (String c s) = push_char c (split s).
Proof.
  intros H. rewrite split_cons.
  apply Ascii.eqb_neq in H. now rewrite H.
Qed.

Lemma split_cons_bs s :
  head_is "t" s = false -> split (String BACKSLASH s) = push_char BACKSLASH (split s).
Proof. intros H. rewrite split_cons, H, andb_false_r. reflexivity. Qed.

Lemma split_single c : c <> BACKSLASH -> split (String c "") = [String c ""].
Proof. intros H. now rewrite split_cons_other. Qed.

Lemma push_str_app x y l : push_str (x ++ y)%string l = push_str x (push_str y l).
Proof. induction x as [|c x IH]; simpl; [reflexivity | now rewrite IH]. Qed.

Lemma push_str_cons p f fs : push_str p (f :: fs) = (p ++ f)%string :: fs.
Proof. induction p as [|c p IH]; simpl; [reflexivity | now rewrite IH]. Qed.

Lemma hexdigit_cases n : In (hexdigit n) (list_ascii_of_string "00123456789abcdef").
Proof.
  unfold hexdigit.
  destruct (nth_in_or_default (N.to_nat n) (list_ascii_of_string "0123456789abcdef") "0"%char)
    as [H|H].
  - right. exact H.
  - left. symmetry. exact H.
Qed.

Lemma hexdigit_not_bs n : hexdigit n <> BACKSLASH.
Proof.
  pose proof (hexdigit_cases n) as H. simpl in H.
  intros E. rewrite E in H.
  repeat (destruct H as [H|H]; [discriminate H|]). exact H.
Qed.

Lemma ascii_of_byte_inj c d : ascii_of_byte c = ascii_of_byte d -> c = d.
Proof.
  intros H. rewrite <- (byte_of_ascii_of_byte c), <- (byte_of_ascii_of_byte d).
  now rewrite H.
Qed.

Lemma repr_quote_is_quote raw : is_quote (repr_quote raw).
Proof. unfold repr_quote, is_quote. destruct (_ && _); auto. Qed.

Lemma quote_not_t q : is_quote q -> q <> "t"%char.
Proof. intros [-> | ->]; discriminate. Qed.

Lemma quote_not_bs q : is_quote q -> q <> BACKSLASH.
Proof. intros [-> | ->]; discriminate. Qed.

(** One written byte, other than a tab, never closes a field, unless it is a
    backslash and the letter t follows. *)
Lemma split_repr_byte q c X :
  is_quote q -> is_tab c = false ->
  (c = x5c -> head_is "t" X = false) ->
  split (repr_byte q c ++ X)%string = push_str (repr_byte q c) (split X).
Proof.
  intros Hq Htab Hbs.
  pose proof (quote_not_t q Hq) as Hq1. pose proof (quote_not_bs q Hq) as Hq2.
  unfold repr_byte.
  destruct (Ascii.eqb_spec (ascii_of_byte c) q) as [Eq|Nq].
  { cbn [orb append push_str]. rewrite Eq.
    rewrite split_cons_bs by (cbn [head_is]; now apply Ascii.eqb_neq).
    now rewrite split_cons_other. }
  destruct (Ascii.eqb_spec (ascii_of_byte c) BACKSLASH) as [Eb|Nb].
  { cbn [orb append push_str]. rewrite Eb.
    rewrite split_cons_bs by reflexivity.
    rewrite split_cons_bs; [reflexivity|].
    apply Hbs. apply ascii_of_byte_inj. exact Eb. }
  cbn [orb].
  destruct (Ascii.eqb_spec (ascii_of_byte c) TAB) as [Et|Nt].
  { exfalso. assert (c = TABb) by (apply ascii_of_byte_inj; exact Et).
    subst c. discriminate Htab. }
  destruct (Ascii.eqb (ascii_of_byte c) LF).
  { cbn [append push_str]. rewrite split_cons_bs by reflexivity.
    rewrite split_cons_other by discriminate. reflexivity. }
  destruct (Ascii.eqb (ascii_of_byte c) CR).
  { cbn [append push_str]. rewrite split_cons_bs by reflexivity.
    rewrite split_cons_other by discriminate. reflexivity. }
  destruct (_ || _).
  { cbn [append push_str]. rewrite split_cons_bs by reflexivity.
    rewrite split_cons_other by discriminate.
    rewrite !split_cons_other by apply hexdigit_not_bs. reflexivity. }
  cbn [append push_str]. now rewrite split_cons_other.
Qed.

Lemma head_repr_byte q c X :
  is_quote q -> head_is "t" (repr_byte q c ++ X)%string = Byte.eqb c x74.
Proof.
  intros Hq. pose proof (quote_not_t q Hq) as Hq1.
  assert (Hne : forall d, ascii_of_byte c = d -> d <> "t"%char -> Byte.eqb c x74 = false).
  { intros d Hd Hn. destruct (Byte.eqb c x74) eqn:E; [|reflexivity].
    apply Byte.byte_dec_bl in E. subst c. exfalso. apply Hn. now rewrite <- Hd. }
  unfold repr_byte.
  destruct (Ascii.eqb_spec (ascii_of_byte c) q) as [Eq|Nq].
  { cbn. symmetry. now apply (Hne q). }
  destruct (Ascii.eqb_spec (ascii_of_byte c) BACKSLASH) as [Eb|Nb].
  { cbn. symmetry. now apply (Hne BACKSLASH). }
  cbn [orb].
  destruct (Ascii.eqb_spec (ascii_of_byte c) TAB) as [Et|Nt].
  { cbn. symmetry. now apply (Hne TAB). }
  destruct (Ascii.eqb_spec (ascii_of_byte c) LF) as [El|Nl].
  { cbn. symmetry. now apply (Hne LF). }
  destruct (Ascii.eqb_spec (ascii_of_byte c) CR) as [Er|Nr].
  { cbn. symmetry. now apply (Hne CR). }
  destruct (_ || _) eqn:Hr.
  { cbn [append head_is]. change (Ascii.eqb BACKSLASH "t") with false.
    destruct (Byte.eqb c x74) eqn:E; [|reflexivity].
    apply Byte.byte_dec_bl in E. subst c. discriminate Hr. }
  cbn [append head_is].
  destruct (Ascii.eqb_spec (ascii_of_byte c) "t") as [E|N].
  - symmetry. apply Byte.byte_dec_lb. apply ascii_of_byte_inj. exact E.
  - symmetry. destruct (Byte.eqb c x74) eqn:E; [|reflexivity].
    apply Byte.byte_dec_bl in E. subst c. exfalso. now apply N.
Qed.

Lemma head_repr_body q raw rest :
  is_quote q ->
  head_is "t" (repr_body q raw ++ rest)%string =
  match raw with c :: _ => Byte.eqb c x74 | [] => head_is "t" rest end.
Proof.
  intros Hq. destruct raw as [|c raw]; [reflexivity|].
  cbn [repr_body]. rewrite append_assoc. now apply head_repr_byte.
Qed.

(** A field without a tab and without a backslash before a letter t is
    written as one field. *)
Lemma split_repr_body q f rest :
  is_quote q -> tab_free f = true -> bs_t_free f = true ->
  head_is "t" rest = false ->
  split (repr_body q f ++ rest)%string = push_str (repr_body q f) (split rest).
Proof.
  intros Hq. induction f as [|c f IH]; intros Ht Hb Hr; [reflexivity|].
  cbn [repr_body]. rewrite append_assoc, push_str_app.
  cbn [tab_free forallb] in Ht. apply andb_true_iff in Ht as [Ht1 Ht2].
  cbn [bs_t_free] in Hb. apply andb_true_iff in Hb as [Hb1 Hb2].
  rewrite split_repr_byte; [|assumption|now apply negb_true_iff in Ht1|].
  - f_equal. now apply IH.
  - intros ->. rewrite head_repr_body by assumption.
    cbn in Hb1. destruct f as [|d f]; [exact Hr|].
    now apply negb_true_iff in Hb1.
Qed.

Lemma repr_body_app q x y :
  repr_body q (x ++ y) = (repr_body q x ++ repr_body q y)%string.
Proof.
  induction x as [|c x IH]; [reflexivity|].
  cbn [repr_body app]. now rewrite IH, append_assoc.
Qed.

Lemma repr_byte_tab q : is_quote q -> repr_byte q TABb = SEP.
Proof. intros [-> | ->]; reflexivity. Qed.

Lemma repr_body_tab q y :
  is_quote q -> repr_body q (TABb :: y) = (SEP ++ repr_body q y)%string.
Proof. intros Hq. cbn [repr_body]. now rewrite repr_byte_tab. Qed.

(** *** Tab-delimited fields *)

Lemma tab_fields_nonempty raw : tab_fields raw <> [].
Proof.
  destruct raw as [|c raw]; cbn [tab_fields]; [discriminate|].
  destruct (is_tab c); [discriminate|]. destruct (tab_fields raw); discriminate.
Qed.

Lemma is_tab_eq c : is_tab c = true -> c = TABb.
Proof. apply Byte.byte_dec_bl. Qed.

Lemma join_tab_fields raw : join_tab (tab_fields raw) = raw.
Proof.
  induction raw as [|c raw IH]; [reflexivity|].
  cbn [tab_fields]. pose proof (tab_fields_nonempty raw) as Hne.
  destruct (is_tab c) eqn:Hc.
  - apply is_tab_eq in Hc. subst c.
    destruct (tab_fields raw) as [|f fs] eqn:E; [congruence|].
    cbn [join_tab app]. cbn [join_tab] in IH. now rewrite IH.
  - destruct (tab_fields raw) as [|f fs] eqn:E; [congruence|].
    destruct fs as [|g fs]; cbn [join_tab app] in *; now rewrite IH.
Qed.

Lemma tab_fields_free raw : Forall (fun f => tab_free f = true) (tab_fields raw).
Proof.
  induction raw as [|c raw IH]; cbn [tab_fields].
  - constructor; [reflexivity | constructor].
  - destruct (is_tab c) eqn:Hc.
    + constructor; [reflexivity | exact IH].
    + destruct (tab_fields raw) as [|f fs]; [repeat constructor; cbn; now rewrite Hc|].
      inversion IH as [|? ? Hf Hfs]; subst. constructor; [|exact Hfs].
      cbn. now rewrite Hc.
Qed.

Lemma join_tab_snoc2 fs f g :
  fs <> [] -> join_tab (fs ++ [f; g]) = join_tab fs ++ TABb :: f ++ TABb :: g.
Proof.
  induction fs as [|h fs IH]; [congruence|]. intros _.
  destruct fs as [|h' fs].
  - reflexivity.
  - change (join_tab ((h :: h' :: fs) ++ [f; g]))
      with (h ++ TABb :: join_tab ((h' :: fs) ++ [f; g])).
    rewrite IH by discriminate.
    change (join_tab (h :: h' :: fs)) with (h ++ TABb :: join_tab (h' :: fs)).
    now rewrite <- app_assoc.
Qed.

(** *** Indexing from the end *)

Lemma getitem_neg2 {A} (l : list A) (x y : A) : getitem (l ++ [x; y]) (-2) = Ok x.
Proof.
  unfold getitem. rewrite length_app. cbn [List.length].
  change (-2 <? 0)%Z with true. cbv iota.
  replace (-2 + Z.of_nat (List.length l + 2))%Z with (Z.of_nat (List.length l)) by lia.
  replace ((0 <=? Z.of_nat (List.length l))%Z && (Z.of_nat (List.length l) <? Z.of_nat (List.length l + 2))%Z)
    with true by (symmetry; apply andb_true_iff; split; [apply Z.leb_le | apply Z.ltb_lt]; lia).
  rewrite Nat2Z.id, nth_error_app2 by lia. now rewrite Nat.sub_diag.
Qed.

(** *** The fields that [process] makes of the text of the output *)

Lemma split_repr_field q f :
  is_quote q -> tab_free f = true -> bs_t_free f = true ->
  split (repr_body q f) = [repr_body q f].
Proof.
  intros Hq Ht Hb. rewrite <- (append_nil_r (repr_body q f)) at 1.
  rewrite split_repr_body by auto.
  change (split "") with [""]. now rewrite push_str_cons, append_nil_r.
Qed.

Lemma split_repr_last q g :
  is_quote q -> tab_free g = true -> bs_t_free g = true ->
  split (repr_body q g ++ String q "")%string = [(repr_body q g ++ String q "")%string].
Proof.
  intros Hq Ht Hb.
  rewrite split_repr_body; auto.
  - rewrite split_single by now apply quote_not_bs. now rewrite push_str_cons.
  - cbn [head_is]. apply Ascii.eqb_neq. now apply quote_not_t.
Qed.

(** With three fields or more, the last two of them free of a backslash
    before a letter t, the field that [process] reads is the second-to-last
    tab-delimited field as [str] wrote it. *)
Lemma parse_output_fields raw fs f g :
  fs <> [] -> tab_fields raw = fs ++ [f; g] ->
  bs_t_free f = true -> bs_t_free g = true ->
  parse_output raw = float_of_str (repr_body (repr_quote raw) f).
Proof.
  intros Hfs Hraw Hf Hg.
  pose proof (tab_fields_free raw) as Hfree. rewrite Hraw in Hfree.
  apply Forall_app in Hfree as [_ Hfree].
  inversion Hfree as [|? ? Hff Hfree']; subst.
  inversion Hfree' as [|? ? Hfg _]; subst.
  pose proof (repr_quote_is_quote raw) as Hq.
  unfold parse_output, bytes_repr. cbv zeta.
  set (q := repr_quote raw) in *.
  rewrite <- (join_tab_fields raw) at 1. rewrite Hraw, join_tab_snoc2 by assumption.
  rewrite repr_body_app, repr_body_tab, repr_body_app, repr_body_tab by assumption.
  rewrite !append_assoc.
  unfold parse_metric.
  change (str_split ?s "\t") with (Ok (split s)). cbn [bind].
  change (String "b" (String q (repr_body q (join_tab fs) ++ SEP ++ repr_body q f ++ SEP ++ repr_body q g ++ String q "")))%string
    with (String "b" (String q (repr_body q (join_tab fs))) ++ SEP ++ (repr_body q f ++ SEP ++ (repr_body q g ++ String q "")))%string.
  rewrite !split_app_sep, split_repr_field, split_repr_last by assumption.
  cbn [app]. rewrite getitem_neg2. reflexivity.
Qed.

(** *** The characters that [float] accepts *)

Lemma all_chars_app P x y :
  all_chars P (x ++ y)%string = all_chars P x && all_chars P y.
Proof.
  induction x as [|c x IH]; [reflexivity|].
  cbn [append all_chars]. now rewrite IH, andb_assoc.
Qed.

Lemma all_chars_lstrip P s :
  (forall c, is_space c = true -> P c = true) ->
  all_chars P (lstrip s) = true -> all_chars P s = true.
Proof.
  intros HP. induction s as [|c s IH]; [reflexivity|].
  cbn [lstrip]. destruct (is_space c) eqn:Hc; [|trivial].
  intros H. cbn [all_chars]. rewrite (HP c Hc). now apply IH.
Qed.

Lemma all_chars_rstrip P s :
  (forall c, is_space c = true -> P c = true) ->
  all_chars P (rstrip s) = true -> all_chars P s = true.
Proof.
  intros HP. induction s as [|c s IH]; [reflexivity|].
  cbn [rstrip]. destruct (rstrip s) as [|d r].
  - destruct (is_space c) eqn:Hc; cbn [all_chars]; intros H.
    + rewrite (HP c Hc). now apply IH.
    + apply andb_true_iff in H as [H _]. rewrite H. now apply IH.
  - cbn [all_chars]. intros H. apply andb_true_iff in H as [H1 H2].
    rewrite H1. apply IH. exact H2.
Qed.

Lemma all_chars_remove_underscores P s : forall prev u,
  P "_"%char = true ->
  remove_underscores prev s = Some u ->
  all_chars P u = true -> all_chars P s = true.
Proof.
  induction s as [|c s IH]; intros prev u HP; [reflexivity|].
  cbn [remove_underscores].
  destruct (Ascii.eqb_spec c "_") as [->|Hc].
  - destruct (is_digit prev); [|discriminate].
    intros H Hu. cbn [all_chars]. rewrite HP. now apply (IH "_"%char u).
  - destruct (_ && _); [discriminate|].
    destruct (remove_underscores c s) as [u'|] eqn:E; [|discriminate].
    cbn [option_map]. intros [= <-]. cbn [all_chars].
    intros H. apply andb_true_iff in H as [H1 H2]. rewrite H1.
    now apply (IH c u').
Qed.

Lemma all_chars_parse_sign P u :
  P "+"%char = true -> P "-"%char = true ->
  all_chars P (snd (parse_sign u)) = true -> all_chars P u = true.
Proof.
  intros Hp Hm. destruct u as [|c u]; [reflexivity|].
  cbn [parse_sign].
  destruct (Ascii.eqb_spec c "-") as [->|H1]; cbn [snd all_chars].
  - now rewrite Hm.
  - destruct (Ascii.eqb_spec c "+") as [->|H2]; cbn [snd all_chars]; [now rewrite Hp | trivial].
Qed.

Lemma span_digits_spec s :
  s = (fst (span_digits s) ++ snd (span_digits s))%string
  /\ all_chars is_digit (fst (span_digits s)) = true.
Proof.
  induction s as [|c s [IH1 IH2]]; [split; reflexivity|].
  cbn [span_digits]. destruct (is_digit c) eqn:Hc.
  - destruct (span_digits s) as [ds r]. cbn [fst snd] in *. split.
    + cbn [append]. now rewrite <- IH1.
    + cbn [all_chars]. now rewrite Hc.
  - split; reflexivity.
Qed.

Lemma digit_float_char c : is_digit c = true -> float_char c = true.
Proof. intros H. unfold float_char. rewrite H. now rewrite orb_true_r. Qed.

Lemma all_digits_float s : all_chars is_digit s = true -> all_chars float_char s = true.
Proof.
  induction s as [|c s IH]; [reflexivity|]. cbn [all_chars].
  intros H. apply andb_true_iff in H as [H1 H2].
  now rewrite (digit_float_char c H1), IH.
Qed.

Lemma all_chars_span s :
  all_chars float_char (snd (span_digits s)) = true -> all_chars float_char s = true.
Proof.
  intros H. destruct (span_digits_spec s) as [E D]. rewrite E, all_chars_app.
  now rewrite (all_digits_float _ D), H.
Qed.

Lemma is_empty_eq s : is_empty s = true -> s = "".
Proof. destruct s; [reflexivity | discriminate]. Qed.

Lemma all_chars_parse_exponent s e :
  parse_exponent s = Some e -> all_chars float_char s = true.
Proof.
  destruct s as [|c s]; [reflexivity|]. cbn [parse_exponent].
  destruct (Ascii.eqb c "e" || Ascii.eqb c "E") eqn:Hc; [|discriminate].
  destruct (parse_sign s) as [neg s''] eqn:Es.
  destruct (span_digits s'') as [ds r] eqn:Ed.
  destruct (negb (is_empty ds) && is_empty r) eqn:Hok; [|discriminate].
  intros _. apply andb_true_iff in Hok as [_ Hr]. apply is_empty_eq in Hr. subst r.
  cbn [all_chars]. apply andb_true_iff. split.
  - apply orb_true_iff in Hc as [H|H]; apply Ascii.eqb_eq in H; subst c; reflexivity.
  - apply all_chars_parse_sign; [reflexivity | reflexivity |].
    rewrite Es. cbn [snd]. apply all_chars_span. now rewrite Ed.
Qed.

Lemma all_chars_parse_decimal s x :
  parse_decimal s = Some x -> all_chars float_char s = true.
Proof.
  unfold parse_decimal.
  destruct (span_digits s) as [ip r1] eqn:E1.
  pose proof (span_digits_spec s) as [Es Ds]. rewrite E1 in Es, Ds. cbn [fst snd] in Es, Ds.
  intros H.
  assert (Hr1 : all_chars float_char r1 = true).
  { destruct r1 as [|c r].
    - reflexivity.
    - destruct (Ascii.eqb_spec c ".") as [->|Hc].
      + destruct (span_digits r) as [fp r2] eqn:E2.
        destruct (is_empty ip && is_empty fp); [discriminate|].
        destruct (parse_exponent r2) as [e|] eqn:Ee; [|discriminate].
        cbn [all_chars]. apply andb_true_iff. split; [reflexivity|].
        apply all_chars_span. rewrite E2. cbn [snd].
        now apply (all_chars_parse_exponent r2 e).
      + destruct (is_empty ip && is_empty ""); [discriminate|].
        destruct (parse_exponent (String c r)) as [e|] eqn:Ee; [|discriminate].
        now apply (all_chars_parse_exponent _ e). }
  rewrite Es, all_chars_app. now rewrite (all_digits_float _ Ds), Hr1.
Qed.

Lemma float_char_lower c : float_char (lower c) = true -> float_char c = true.
Proof.
  destruct c as [[] [] [] [] [] [] [] []]; vm_compute; intros H; exact H || reflexivity.
Qed.

Lemma all_chars_lower s :
  all_chars float_char (lower_str s) = true -> all_chars float_char s = true.
Proof.
  induction s as [|c s IH]; [reflexivity|]. cbn [lower_str all_chars].
  intros H. apply andb_true_iff in H as [H1 H2].
  now rewrite (float_char_lower c H1), IH.
Qed.

Lemma all_chars_parse_inf_or_nan neg s v :
  parse_inf_or_nan neg s = Some v -> all_chars float_char s = true.
Proof.
  unfold parse_inf_or_nan. intros H. apply all_chars_lower.
  destruct (String.eqb_spec (lower_str s) "inf") as [->|H1]; [reflexivity|].
  destruct (String.eqb_spec (lower_str s) "infinity") as [->|H2]; [reflexivity|].
  cbn [orb] in H.
  destruct (String.eqb_spec (lower_str s) "nan") as [->|H3]; [reflexivity|discriminate].
Qed.

Lemma space_float_char c : is_space c = true -> float_char c = true.
Proof. intros H. unfold float_char. now rewrite H. Qed.

(** [float] accepts no text with a character outside its alphabet. *)
Lemma float_of_str_chars s v :
  float_of_str s = Ok v -> all_chars float_char s = true.
Proof.
  unfold float_of_str.
  destruct (remove_underscores NUL (strip s)) as [u|] eqn:Eu; [|discriminate].
  destruct (parse_sign u) as [neg r] eqn:Es.
  intros H.
  apply all_chars_lstrip; [exact space_float_char|].
  apply all_chars_rstrip; [exact space_float_char|].
  apply (all_chars_remove_underscores float_char _ NUL u); [reflexivity | exact Eu |].
  apply all_chars_parse_sign; [reflexivity | reflexivity |].
  rewrite Es. cbn [snd].
  destruct (parse_decimal r) as [[M E]|] eqn:Ed.
  - now apply (all_chars_parse_decimal r (M, E)).
  - destruct (parse_inf_or_nan neg r) as [w|] eqn:Ei; [|discriminate].
    now apply (all_chars_parse_inf_or_nan neg r w).
Qed.

Lemma all_chars_has P c s :
  P c = false -> has_char c s = true -> all_chars P s = false.
Proof.
  intros HP. unfold has_char. induction s as [|d s IH]; [discriminate|].
  cbn [all_chars]. destruct (Ascii.eqb_spec d c) as [->|Hd].
  - intros _. now rewrite HP.
  - cbn [negb andb]. intros H. rewrite (IH H). apply andb_false_r.
Qed.

Lemma float_of_str_rejects c s :
  float_char c = false -> has_char c s = true -> float_of_str s = Raise ValueError.
Proof.
  intros Hc Hs.
  destruct (float_of_str s) as [v|e] eqn:E.
  - apply float_of_str_chars in E. rewrite (all_chars_has float_char c s Hc Hs) in E.
    discriminate.
  - revert E. unfold float_of_str.
    destruct (remove_underscores NUL (strip s)) as [u|]; [|now intros [= <-]].
    destruct (parse_sign u) as [neg r].
    destruct (parse_decimal r) as [[? ?]|]; [discriminate|].
    destruct (parse_inf_or_nan neg r); [discriminate | now intros [= <-]].
Qed.

Lemma has_char_app c x y : has_char c (x ++ y)%string = has_char c x || has_char c y.
Proof. unfold has_char. rewrite all_chars_app. apply negb_andb. Qed.

Lemma has_char_cons c d s : has_char c (String d s) = Ascii.eqb d c || has_char c s.
Proof. unfold has_char. cbn [all_chars]. rewrite negb_andb, negb_involutive. reflexivity. Qed.

(** *** Fields that [str] writes as they are *)

Lemma text_of_bytes_cons c f :
  text_of_bytes (c :: f) = String (ascii_of_byte c) (text_of_bytes f).
Proof. reflexivity. Qed.

Lemma repr_byte_plain q c :
  is_quote q -> plain_byte c = true -> repr_byte q c = String (ascii_of_byte c) "".
Proof. intros [-> | ->]; destruct c; intros H; try discriminate H; reflexivity. Qed.

Lemma repr_body_plain q f :
  is_quote q -> plain f = true -> repr_body q f = text_of_bytes f.
Proof.
  intros Hq. unfold plain. induction f as [|c f IH]; [reflexivity|].
  cbn [forallb]. intros H. apply andb_true_iff in H as [H1 H2].
  cbn [repr_body]. rewrite text_of_bytes_cons, repr_byte_plain, IH by assumption.
  reflexivity.
Qed.

Lemma repr_byte_no_backslash q c :
  has_char BACKSLASH (repr_byte q c) = false -> repr_byte q c = String (ascii_of_byte c) "".
Proof.
  unfold repr_byte.
  destruct (_ || _); [discriminate|].
  destruct (Ascii.eqb _ TAB); [discriminate|].
  destruct (Ascii.eqb _ LF); [discriminate|].
  destruct (Ascii.eqb _ CR); [discriminate|].
  destruct (_ || _); [discriminate|]. reflexivity.
Qed.

Lemma repr_body_no_backslash q f :
  has_char BACKSLASH (repr_body q f) = false -> repr_body q f = text_of_bytes f.
Proof.
  induction f as [|c f IH]; [reflexivity|].
  cbn [repr_body]. rewrite has_char_app. intros H.
  apply orb_false_iff in H as [H1 H2].
  now rewrite text_of_bytes_cons, (repr_byte_no_backslash q c H1), IH.
Qed.

Lemma plain_tab_free f : plain f = true -> tab_free f = true.
Proof.
  unfold plain, tab_free.
  induction f as [|c f IH]; [reflexivity|]. cbn [forallb].
  intros H. apply andb_true_iff in H as [H1 H2]. rewrite (IH H2), andb_true_r.
  destruct c; try discriminate H1; reflexivity.
Qed.

Lemma plain_bs_t_free f : plain f = true -> bs_t_free f = true.
Proof.
  unfold plain.
  induction f as [|c f IH]; [reflexivity|]. cbn [bs_t_free forallb].
  intros H. apply andb_true_iff in H as [H1 H2]. rewrite (IH H2), andb_true_r.
  destruct c; try discriminate H1; reflexivity.
Qed.

Lemma float_of_str_error s e : float_of_str s = Raise e -> e = ValueError.
Proof.
  unfold float_of_str.
  destruct (remove_underscores NUL (strip s)) as [u|]; [|now intros [= <-]].
  destruct (parse_sign u) as [neg r].
  destruct (parse_decimal r) as [[? ?]|]; [discriminate|].
  destruct (parse_inf_or_nan neg r); [discriminate | now intros [= <-]].
Qed.

(** *** Output without a tab *)

Lemma repr_byte_backslash q : is_quote q -> repr_byte q x5c = String BACKSLASH (String BACKSLASH "").
Proof. intros [-> | ->]; reflexivity. Qed.

Lemma repr_byte_t q : is_quote q -> repr_byte q x74 = "t".
Proof. intros [-> | ->]; reflexivity. Qed.

Lemma has_char_repr_byte_bs q c a :
  has_char BACKSLASH a = true -> has_char BACKSLASH (repr_byte q c ++ a)%string = true.
Proof. intros H. rewrite has_char_app, H. apply orb_true_r. Qed.

(** Without a tab in the output, every field but the last holds a
    backslash: the only separators are backslashes before a letter t, which
    [str] doubles. *)
Lemma split_repr_no_tab q : is_quote q -> forall n raw rest,
  List.length raw <= n -> tab_free raw = true -> head_is "t" rest = false ->
  exists A u,
    split (repr_body q raw ++ rest)%string = A ++ push_str u (split rest)
    /\ Forall has_backslash A.
Proof.
  intros Hq. induction n as [|n IH]; intros raw rest Hlen Ht Hr.
  { destruct raw; [|simpl in Hlen; lia]. exists [], "". split; [reflexivity | constructor]. }
  destruct raw as [|c raw].
  { exists [], "". split; [reflexivity | constructor]. }
  cbn [tab_free forallb] in Ht. apply andb_true_iff in Ht as [Ht1 Ht2].
  apply negb_true_iff in Ht1. cbn [List.length] in Hlen.
  destruct (Byte.eqb c x5c && match raw with d :: _ => Byte.eqb d x74 | [] => false end) eqn:Hc.
  - apply andb_true_iff in Hc as [Hc1 Hc2]. apply Byte.byte_dec_bl in Hc1. subst c.
    destruct raw as [|d raw]; [discriminate|]. apply Byte.byte_dec_bl in Hc2. subst d.
    cbn [tab_free forallb] in Ht2. apply andb_true_iff in Ht2 as [_ Ht3].
    destruct (IH raw rest) as (A & u & HA & HF); [cbn [List.length] in Hlen; lia | assumption | assumption |].
    exists (String BACKSLASH "" :: A), u. split.
    + cbn [repr_body]. rewrite repr_byte_backslash, repr_byte_t by assumption.
      cbn [append]. rewrite split_cons_bs by reflexivity.
      change (String BACKSLASH (String "t" (repr_body q raw ++ rest)))%string
        with (SEP ++ (repr_body q raw ++ rest))%string.
      rewrite split_sep, HA. reflexivity.
    + constructor; [reflexivity | exact HF].
  - destruct (IH raw rest) as (A & u & HA & HF); [lia | assumption | assumption |].
    assert (Hsplit : split (repr_body q (c :: raw) ++ rest)%string
                     = push_str (repr_byte q c) (A ++ push_str u (split rest))).
    { cbn [repr_body]. rewrite append_assoc, split_repr_byte, HA; auto.
      intros ->. rewrite head_repr_body by assumption.
      cbn [andb] in Hc. change (Byte.eqb x5c x5c) with true in Hc. cbn [andb] in Hc.
      destruct raw; assumption. }
    destruct A as [|a A].
    + exists [], (repr_byte q c ++ u)%string. split; [|constructor].
      rewrite Hsplit. cbn [app]. now rewrite push_str_app.
    + exists ((repr_byte q c ++ a)%string :: A), u. split.
      * rewrite Hsplit. cbn [app]. now rewrite push_str_cons.
      * inversion HF as [|? ? Ha HA']; subst. constructor; [|assumption].
        now apply has_char_repr_byte_bs.
Qed.

Lemma parse_metric_split s :
  parse_metric s = (field <- getitem (split s) (-2) ;; float_of_str field)%py.
Proof. reflexivity. Qed.

(** Output without a tab is never parsed. *)
Lemma parse_output_no_tab raw :
  tab_free raw = true ->
  parse_output raw = Raise IndexError \/ parse_output raw = Raise ValueError.
Proof.
  intros Ht. pose proof (repr_quote_is_quote raw) as Hq.
  unfold parse_output, bytes_repr. cbv zeta. set (q := repr_quote raw) in *.
  rewrite parse_metric_split.
  destruct (split_repr_no_tab q Hq (List.length raw) raw (String q "")) as (A & u & HA & HF);
    [lia | assumption | cbn [head_is]; apply Ascii.eqb_neq; now apply quote_not_t |].
  rewrite split_cons_other by discriminate.
  rewrite split_cons_other by now apply quote_not_bs.
  rewrite HA, split_single by now apply quote_not_bs.
  rewrite push_str_cons.
  destruct A as [|a A].
  - left. reflexivity.
  - right. cbn [app push_char].
    set (L := String "b" (String q a) :: A).
    assert (HL : Forall (fun s => float_of_str s = Raise ValueError) L).
    { inversion HF as [|? ? Ha HA']; subst. constructor.
      - apply (float_of_str_rejects "b"); [reflexivity|].
        rewrite has_char_cons. reflexivity.
      - eapply Forall_impl; [|exact HA']. intros s Hs.
        now apply (float_of_str_rejects BACKSLASH). }
    destruct (exists_last (l := L)) as (L' & x & HLx); [discriminate|].
    change (String "b" (String q a) :: A ++ [(u ++ String q "")%string])
      with (L ++ [(u ++ String q "")%string]).
    rewrite HLx in HL |- *. rewrite <- app_assoc. cbn [app].
    rewrite getitem_neg2. cbn [bind].
    apply Forall_app in HL as [_ HL]. now inversion HL.
Qed.

Lemma tab_fields_single raw :
  List.length (tab_fields raw) < 2 -> tab_free raw = true.
Proof.
  intros H. pose proof (tab_fields_free raw) as HF.
  pose proof (join_tab_fields raw) as HJ.
  destruct (tab_fields raw) as [|f [|g fs]] eqn:E; cbn [List.length] in H; try lia.
  - now apply tab_fields_nonempty in E.
  - cbn [join_tab] in HJ. subst f. now inversion HF.
Qed.

Lemma getitem_neg2_pair {A} (x y : A) : getitem [x; y] (-2) = Ok x.
Proof. reflexivity. Qed.

(** With exactly two fields the field read starts with the letter b of the
    bytes literal. *)
Lemma parse_output_two_fields raw f g :
  tab_fields raw = [f; g] -> bs_t_free f = true -> bs_t_free g = true ->
  parse_output raw = Raise ValueError.
Proof.
  intros Hraw Hf Hg.
  pose proof (tab_fields_free raw) as Hfree. rewrite Hraw in Hfree.
  inversion Hfree as [|? ? Hff Hfree']; subst.
  inversion Hfree' as [|? ? Hfg _]; subst.
  pose proof (repr_quote_is_quote raw) as Hq.
  unfold parse_output, bytes_repr. cbv zeta.
  set (q := repr_quote raw) in *.
  rewrite <- (join_tab_fields raw) at 1. rewrite Hraw. cbn [join_tab].
  rewrite repr_body_app, repr_body_tab by assumption.
  rewrite !append_assoc, parse_metric_split.
  change (String "b" (String q (repr_body q f ++ SEP ++ repr_body q g ++ String q "")))%string
    with (String "b" (String q (repr_body q f)) ++ SEP ++ (repr_body q g ++ String q ""))%string.
  rewrite split_app_sep, split_repr_last by assumption.
  rewrite split_cons_other by discriminate.
  rewrite split_cons_other by now apply quote_not_bs.
  rewrite split_repr_field by assumption.
  cbn [push_char app]. rewrite getitem_neg2_pair. cbn [bind].
  apply (float_of_str_rejects "b"); [reflexivity|]. now rewrite has_char_cons.
Qed.

Lemma spec_parse_fields raw fs f g :
  tab_fields raw = fs ++ [f; g] -> spec_parse raw = float_of_str (text_of_bytes f).
Proof. intros H. unfold spec_parse. now rewrite H, getitem_neg2. Qed.

(** C1 (as amended).  When the raw output has at least three tab-delimited
    fields and neither of the last two holds a backslash directly before a
    letter t, [process] reads the second-to-last field as [str] wrote it and
    returns its float; when that field is made of printable ASCII other than
    the backslash and the quotes, this is the float of the field itself, as
    the specification words it. *)
Theorem parse_output_second_to_last raw fs f g :
  fs <> [] -> tab_fields raw = fs ++ [f; g] ->
  bs_t_free f = true -> bs_t_free g = true ->
  parse_output raw = float_of_str (repr_body (repr_quote raw) f)
  /\ (plain f = true ->
      parse_output raw = float_of_str (text_of_bytes f)
      /\ parse_output raw = spec_parse raw).
Proof.
  intros Hfs Hraw Hf Hg.
  pose proof (parse_output_fields raw fs f g Hfs Hraw Hf Hg) as H.
  split; [exact H|]. intros Hp.
  rewrite (spec_parse_fields raw fs f g Hraw), H.
  now rewrite (repr_body_plain _ f (repr_quote_is_quote raw) Hp).
Qed.

Lemma parse_output_second_to_last_witness :
  let raw := tabbed ["a"; "b"; "c"; "1.5"; "e"] in
  tab_fields raw = [b "a"; b "b"; b "c"] ++ [b "1.5"; b "e"]
  /\ parse_output raw = float_of_str "1.5"
  /\ parse_output raw = spec_parse raw.
Proof.
  intros raw.
  assert (Hraw : tab_fields raw = [b "a"; b "b"; b "c"] ++ [b "1.5"; b "e"])
    by reflexivity.
  split; [exact Hraw|].
  destruct (parse_output_second_to_last raw [b "a"; b "b"; b "c"] (b "1.5") (b "e"))
    as [_ H]; [discriminate | exact Hraw | reflexivity | reflexivity |].
  apply H. reflexivity.
Defined.

(** The instance of the specification: five plain fields. *)
Lemma parse_output_five_fields a1 a2 a3 d a5 :
  plain a1 = true -> plain a2 = true -> plain a3 = true -> plain d = true ->
  plain a5 = true ->
  parse_output (a1 ++ TABb :: a2 ++ TABb :: a3 ++ TABb :: d ++ TABb :: a5)
  = float_of_str (text_of_bytes d).
Proof.
  intros H1 H2 H3 H4 H5.
  pose proof (repr_quote_is_quote (a1 ++ TABb :: a2 ++ TABb :: a3 ++ TABb :: d ++ TABb :: a5)) as Hq.
  unfold parse_output, bytes_repr. cbv zeta.
  set (q := repr_quote _) in *.
  rewrite parse_metric_split.
  repeat rewrite ?repr_body_app, ?repr_body_tab by assumption.
  rewrite !append_assoc.
  change (String "b" (String q (repr_body q a1 ++ ?z)))%string
    with (String "b" (String q (repr_body q a1)) ++ z)%string.
  rewrite !split_app_sep.
  rewrite (split_repr_field q d), (split_repr_last q a5)
    by auto using plain_tab_free, plain_bs_t_free.
  rewrite !app_assoc. rewrite <- app_assoc. cbn [app].
  rewrite getitem_neg2. cbn [bind]. now rewrite repr_body_plain.
Qed.

Lemma parse_output_five_fields_witness :
  parse_output (b "a" ++ TABb :: b "b" ++ TABb :: b "c" ++ TABb :: b "2.5" ++ TABb :: b "e")
  = float_of_str "2.5".
Proof.
  exact (parse_output_five_fields (b "a") (b "b") (b "c") (b "2.5") (b "e")
           eq_refl eq_refl eq_refl eq_refl eq_refl).
Defined.

(** C1 (as stated) fails: with two fields the field read is [b'1.5], with
    an escape in the field it is [1.5\n], with a backslash before a
    letter t in the last field it is [z\]. *)
Lemma parse_output_not_second_to_last :
  (spec_parse (tabbed ["1.5"; "x"]) = float_of_str "1.5"
   /\ is_ok (float_of_str "1.5") = true
   /\ parse_output (tabbed ["1.5"; "x"]) = Raise ValueError)
  /\ (spec_parse (tabbed ["a"; String "1" (String "0" (String LF "")); "z"]) = float_of_str "10"
      /\ parse_output (tabbed ["a"; String "1" (String "0" (String LF "")); "z"]) = Raise ValueError)
  /\ (spec_parse (tabbed ["a"; "1.5"; "z\tw"]) = float_of_str "1.5"
      /\ parse_output (tabbed ["a"; "1.5"; "z\tw"]) = Raise ValueError).
Proof. vm_compute. repeat split. Qed.

(** *** The separators of the output *)

Lemma length_push_char c l : l <> [] -> List.length (push_char c l) = List.length l.
Proof. destruct l; [congruence | reflexivity]. Qed.

Lemma push_char_nonempty c l : push_char c l <> [].
Proof. destruct l; discriminate. Qed.

Lemma push_str_nonempty p l : l <> [] -> push_str p l <> [].
Proof. destruct p; [trivial | intros _; apply push_char_nonempty]. Qed.

Lemma length_push_str p l : l <> [] -> List.length (push_str p l) = List.length l.
Proof.
  intros Hl. induction p as [|c p IH]; [reflexivity|].
  cbn [push_str]. rewrite length_push_char; [exact IH | now apply push_str_nonempty].
Qed.

(** The text of the output has one field more than the output has
    separators. *)
Lemma split_repr_count q : is_quote q -> forall n raw rest,
  List.length raw <= n -> head_is "t" rest = false ->
  List.length (split (repr_body q raw ++ rest)%string)
  = separators raw + List.length (split rest).
Proof.
  intros Hq. induction n as [|n IH]; intros raw rest Hlen Hr.
  { destruct raw; [reflexivity | simpl in Hlen; lia]. }
  destruct raw as [|c raw]; [reflexivity|].
  cbn [List.length] in Hlen. cbn [separators]. unfold cut_here.
  destruct (is_tab c) eqn:Ht.
  - apply is_tab_eq in Ht. subst c. rewrite repr_body_tab, append_assoc, split_sep by assumption.
    cbn [orb List.length Nat.add]. f_equal. apply IH; [lia | assumption].
  - cbn [orb].
    destruct (Byte.eqb c x5c && match raw with d :: _ => Byte.eqb d x74 | [] => false end) eqn:Hc.
    + apply andb_true_iff in Hc as [Hc1 Hc2]. apply Byte.byte_dec_bl in Hc1. subst c.
      destruct raw as [|d raw]; [discriminate|]. apply Byte.byte_dec_bl in Hc2. subst d.
      cbn [repr_body]. rewrite repr_byte_backslash, repr_byte_t by assumption.
      cbn [append]. rewrite split_cons_bs by reflexivity.
      change (String BACKSLASH (String "t" (repr_body q raw ++ rest)))%string
        with (SEP ++ (repr_body q raw ++ rest))%string.
      rewrite split_sep. cbn [push_char List.length separators].
      change (cut_here x74 raw) with false. cbn [Nat.add]. f_equal.
      apply IH; [cbn [List.length] in Hlen; lia | assumption].
    + cbn [repr_body]. rewrite append_assoc, split_repr_byte; [|assumption|assumption|].
      * rewrite length_push_str by apply split_nonempty.
        cbn [Nat.add]. apply IH; [lia | assumption].
      * intros ->. rewrite head_repr_body by assumption.
        change (Byte.eqb x5c x5c) with true in Hc. cbn [andb] in Hc.
        destruct raw; assumption.
Qed.

Lemma split_bytes_repr raw :
  exists a fields,
    split (bytes_repr raw) = String "b" a :: fields
    /\ List.length fields = separators raw.
Proof.
  pose proof (repr_quote_is_quote raw) as Hq.
  unfold bytes_repr. cbv zeta. set (q := repr_quote raw) in *.
  assert (Hr : head_is "t" (String q "") = false)
    by (cbn [head_is]; apply Ascii.eqb_neq; now apply quote_not_t).
  pose proof (split_repr_count q Hq (List.length raw) raw (String q "") (le_n _) Hr) as H.
  rewrite split_single in H by now apply quote_not_bs.
  cbn [List.length] in H.
  rewrite split_cons_other by discriminate.
  rewrite split_cons_other by now apply quote_not_bs.
  destruct (split (repr_body q raw ++ String q "")%string) as [|f fs];
    [rewrite Nat.add_comm in H; discriminate H|].
  exists (String q f), fs. split; [reflexivity|].
  cbn [List.length] in H. lia.
Qed.

Lemma getitem_neg2_ok {A} (x : A) l :
  l <> [] -> exists y, getitem (x :: l) (-2) = Ok y /\ (List.length l = 1 -> y = x).
Proof.
  intros Hl. destruct (exists_last Hl) as (l' & z & ->).
  destruct l' as [|u l'].
  - exists x. split; [reflexivity | trivial].
  - destruct (exists_last (l := x :: u :: l')) as (l'' & w & Hw); [discriminate|].
    exists w. split.
    + change (x :: (u :: l') ++ [z]) with ((x :: u :: l') ++ [z]). rewrite Hw, <- app_assoc.
      apply getitem_neg2.
    + rewrite length_app. cbn [List.length]. lia.
Qed.

Lemma float_of_str_b a : float_of_str (String "b" a) = Raise ValueError.
Proof. apply (float_of_str_rejects "b"); [reflexivity | now rewrite has_char_cons]. Qed.

Lemma parse_output_no_separator raw :
  parse_output raw = Raise IndexError <-> separators raw = 0.
Proof.
  unfold parse_output. rewrite parse_metric_split.
  destruct (split_bytes_repr raw) as (a & fields & -> & Hlen).
  split.
  - intros H. destruct fields as [|f fields]; [now rewrite <- Hlen|].
    destruct (getitem_neg2_ok (String "b" a) (f :: fields)) as (y & Hy & _); [discriminate|].
    rewrite Hy in H. cbn [bind] in H.
    destruct (float_of_str y) as [v|e] eqn:E; [discriminate|].
    apply float_of_str_error in E. congruence.
  - intros H. rewrite H in Hlen. destruct fields; [reflexivity | discriminate].
Qed.

Lemma parse_output_one_separator raw :
  separators raw = 1 -> parse_output raw = Raise ValueError.
Proof.
  intros H. unfold parse_output. rewrite parse_metric_split.
  destruct (split_bytes_repr raw) as (a & fields & -> & Hlen).
  rewrite H in Hlen.
  destruct (getitem_neg2_ok (String "b" a) fields) as (y & Hy & Hx);
    [destruct fields; [discriminate Hlen | discriminate]|].
  rewrite Hy, (Hx Hlen). cbn [bind]. apply float_of_str_b.
Qed.

(** [process] raises [IndexError] on the output of a launch exactly when
    the output holds no separator: no tab and no backslash directly before a
    letter t. *)
Theorem index_error_iff_no_separator raw :
  parse_output raw = Raise IndexError <-> separators raw = 0.
Proof. exact (parse_output_no_separator raw). Qed.

(** Output with exactly one separator is never parsed, whatever its two
    fields: the field read starts with the letter b of the bytes literal and
    [float] raises [ValueError].  So output that is parsed holds two
    separators at least. *)
Theorem parsed_output_has_two_separators raw :
  (separators raw = 1 -> parse_output raw = Raise ValueError)
  /\ (forall v, parse_output raw = Ok v -> 2 <= separators raw).
Proof.
  split; [exact (parse_output_one_separator raw)|].
  intros v Hv.
  destruct (separators raw) as [|[|n]] eqn:E; [| |lia].
  - apply parse_output_no_separator in E. congruence.
  - apply parse_output_one_separator in E. congruence.
Qed.

Lemma float_of_str_alphabet s :
  all_chars float_char s = false -> float_of_str s = Raise ValueError.
Proof.
  intros H. destruct (float_of_str s) as [v|e] eqn:E.
  - apply float_of_str_chars in E. congruence.
  - now rewrite (float_of_str_error _ _ E).
Qed.

Lemma repr_byte_not_plain q c :
  is_quote q -> plain_byte c = false -> all_chars float_char (repr_byte q c) = false.
Proof. intros [-> | ->]; destruct c; intros H; try discriminate H; reflexivity. Qed.

Lemma repr_body_not_plain q f :
  is_quote q -> plain f = false -> all_chars float_char (repr_body q f) = false.
Proof.
  intros Hq. unfold plain. induction f as [|c f IH]; [discriminate|].
  cbn [forallb repr_body]. rewrite all_chars_app. intros H.
  apply andb_false_iff in H as [H | H].
  - now rewrite (repr_byte_not_plain q c Hq H).
  - rewrite (IH H). apply andb_false_r.
Qed.

(** *** Output that is not parsed *)

Lemma after_last_bs_t_none f : after_last_bs_t f = None <-> bs_t_free f = true.
Proof.
  induction f as [|c f IH]; [split; reflexivity|].
  cbn [after_last_bs_t bs_t_free].
  destruct (after_last_bs_t f) as [r|].
  - split; [discriminate|]. intros H. apply andb_true_iff in H as [_ H].
    apply IH in H. discriminate H.
  - rewrite (proj1 IH eq_refl), andb_true_r.
    destruct f as [|d f]; [rewrite andb_false_r; split; reflexivity|].
    destruct (Byte.eqb c x5c && Byte.eqb d x74); split; try reflexivity; discriminate.
Qed.

Lemma after_last_bs_t_some f : forall r,
  after_last_bs_t f = Some r ->
  exists f1, f = f1 ++ x5c :: x74 :: r /\ bs_t_free r = true.
Proof.
  induction f as [|c f IH]; intros r; [discriminate|].
  cbn [after_last_bs_t].
  destruct (after_last_bs_t f) as [r'|] eqn:E.
  - intros [= <-]. destruct (IH r' eq_refl) as (f1 & -> & Hr).
    exists (c :: f1). split; [reflexivity | exact Hr].
  - destruct f as [|d f]; [discriminate|].
    destruct (Byte.eqb c x5c && Byte.eqb d x74) eqn:Hc; [|discriminate].
    intros [= <-]. apply andb_true_iff in Hc as [H1 H2].
    apply Byte.byte_dec_bl in H1, H2. subst c d.
    exists []. split; [reflexivity|].
    apply after_last_bs_t_none in E. cbn [bs_t_free] in E.
    now apply andb_true_iff in E as [_ E].
Qed.

Lemma tab_free_app x y : tab_free (x ++ y) = tab_free x && tab_free y.
Proof. apply forallb_app. Qed.

Lemma separators_bs_t g : tab_free g = true -> bs_t_free g = false -> 1 <= separators g.
Proof.
  induction g as [|c g IH]; [discriminate|].
  cbn [tab_free forallb bs_t_free separators]. unfold cut_here.
  intros Ht Hb. apply andb_true_iff in Ht as [Ht1 Ht2]. apply negb_true_iff in Ht1.
  rewrite Ht1. cbn [orb].
  destruct (Byte.eqb c x5c && match g with d :: _ => Byte.eqb d x74 | [] => false end);
    [lia|].
  cbn [negb andb] in Hb. specialize (IH Ht2 Hb). lia.
Qed.

(** The raw output ends with its last two tab-delimited fields. *)
Lemma tab_fields_last_two raw fs f g :
  tab_fields raw = fs ++ [f; g] ->
  (exists pre, raw = pre ++ f ++ TABb :: g)
  /\ tab_free f = true /\ tab_free g = true.
Proof.
  intros Hraw. pose proof (tab_fields_free raw) as Hfree. rewrite Hraw in Hfree.
  apply Forall_app in Hfree as [_ Hfree].
  inversion Hfree as [|? ? Hff Hfree']; subst.
  inversion Hfree' as [|? ? Hfg _]; subst.
  split; [|split; assumption].
  rewrite <- (join_tab_fields raw), Hraw.
  destruct fs as [|h fs].
  - exists []. reflexivity.
  - exists (join_tab (h :: fs) ++ [TABb]).
    rewrite join_tab_snoc2 by discriminate. now rewrite <- app_assoc.
Qed.

(** A last field with a backslash before a letter t: the field read ends
    with the backslash that [str] has put before it. *)
Lemma parse_output_last_bs_t raw pre g :
  raw = pre ++ TABb :: g -> tab_free g = true -> bs_t_free g = false ->
  parse_output raw = Raise ValueError.
Proof.
  intros Hraw Ht Hb. pose proof (repr_quote_is_quote raw) as Hq.
  unfold parse_output, bytes_repr. cbv zeta. set (q := repr_quote raw) in *.
  rewrite Hraw at 1. rewrite repr_body_app, repr_body_tab by assumption.
  rewrite !append_assoc, parse_metric_split.
  change (String "b" (String q (repr_body q pre ++ SEP ++ repr_body q g ++ String q "")))%string
    with (String "b" (String q (repr_body q pre)) ++ SEP ++ (repr_body q g ++ String q ""))%string.
  rewrite split_app_sep.
  assert (Hr : head_is "t" (String q "") = false)
    by (cbn [head_is]; apply Ascii.eqb_neq; now apply quote_not_t).
  destruct (split_repr_no_tab q Hq (List.length g) g (String q "") (le_n _) Ht Hr)
    as (A & u & HA & HF).
  pose proof (split_repr_count q Hq (List.length g) g (String q "") (le_n _) Hr) as Hlen.
  rewrite HA in Hlen |- *. rewrite split_single in Hlen |- * by now apply quote_not_bs.
  rewrite push_str_cons in Hlen |- *.
  rewrite length_app in Hlen. cbn [List.length] in Hlen.
  pose proof (separators_bs_t g Ht Hb) as Hsep.
  destruct (exists_last (l := A)) as (A' & a & ->);
    [destruct A; [cbn in Hlen; lia | discriminate]|].
  apply Forall_app in HF as [_ HF]. inversion HF as [|? ? Ha _]; subst.
  rewrite <- !app_assoc. cbn [app]. rewrite app_assoc, getitem_neg2. cbn [bind].
  now apply (float_of_str_rejects BACKSLASH).
Qed.

(** A second-to-last field with a backslash before a letter t, and a last
    field without: the field read is what follows the last such backslash
    and its letter t. *)
Lemma parse_output_past_bs_t raw fs f g r :
  tab_fields raw = fs ++ [f; g] -> bs_t_free g = true ->
  after_last_bs_t f = Some r ->
  parse_output raw = float_of_str (repr_body (repr_quote raw) r).
Proof.
  intros Hraw Hg Hr.
  destruct (tab_fields_last_two raw fs f g Hraw) as ((pre & Hpre) & Htf & Htg).
  destruct (after_last_bs_t_some f r Hr) as (f1 & -> & Hbr).
  assert (Htr : tab_free r = true).
  { rewrite tab_free_app in Htf. apply andb_true_iff in Htf as [_ Htf].
    cbn [tab_free forallb] in Htf. now repeat (apply andb_true_iff in Htf as [_ Htf]). }
  pose proof (repr_quote_is_quote raw) as Hq.
  unfold parse_output, bytes_repr. cbv zeta. set (q := repr_quote raw) in *.
  rewrite Hpre at 1. rewrite <- !app_assoc.
  rewrite !repr_body_app. cbn [app repr_body].
  rewrite repr_byte_backslash, repr_byte_t by assumption.
  rewrite !append_assoc, parse_metric_split. cbn [append].
  replace (String "b" (String q (repr_body q pre ++ repr_body q f1 ++
            String BACKSLASH (String BACKSLASH (String "t"
              (repr_body q r ++ repr_byte q TABb ++ repr_body q g ++ String q ""))))))%string
    with ((String "b" (String q (repr_body q pre ++ repr_body q f1 ++ String BACKSLASH ""))
             ++ SEP ++ (repr_body q r ++ SEP ++ (repr_body q g ++ String q ""))))%string
    by (rewrite repr_byte_tab by assumption; cbn [append]; rewrite !append_assoc;
        reflexivity).
  rewrite !split_app_sep, split_repr_field, split_repr_last by assumption.
  cbn [app]. rewrite getitem_neg2. reflexivity.
Qed.

Lemma text_has_backslash f1 r :
  has_char BACKSLASH (text_of_bytes (f1 ++ x5c :: r)) = true.
Proof.
  induction f1 as [|c f1 IH].
  - cbn [app]. rewrite text_of_bytes_cons, has_char_cons. reflexivity.
  - cbn [app]. rewrite text_of_bytes_cons, has_char_cons, IH. apply orb_true_r.
Qed.

(** C2 (as amended).  Output with fewer than two tab-delimited fields, and
    output whose second-to-last tab-delimited field is not numeric, is not
    parsed: [process] raises [IndexError] or [ValueError].  There is one
    exception, and the second part states it: when the last field holds no
    backslash directly before a letter t and the second-to-last field holds
    one, [process] reads what follows the last such backslash and its letter
    t; if this is a number written in plain bytes, [process] returns it,
    although the field as a whole is not numeric. *)
Theorem parse_output_error raw :
  (List.length (tab_fields raw) < 2
   \/ (exists fs f g, tab_fields raw = fs ++ [f; g]
         /\ numeric f = false /\ reads_past_bs_t f g = false) ->
   exists e, parse_output raw = Raise e /\ kind_of e = Some ParseError)
  /\ (forall fs f g, tab_fields raw = fs ++ [f; g] -> reads_past_bs_t f g = true ->
      numeric f = false
      /\ exists r, after_last_bs_t f = Some r
           /\ parse_output raw = float_of_str (text_of_bytes r)
           /\ is_ok (parse_output raw) = true).
Proof.
  split.
  - intros [H | (fs & f & g & Hraw & Hn & Hp)].
    + apply tab_fields_single in H.
      destruct (parse_output_no_tab raw H) as [-> | ->]; eexists; split; reflexivity.
    + exists ValueError. split; [|reflexivity].
      destruct (tab_fields_last_two raw fs f g Hraw) as ((pre & Hpre) & Htf & Htg).
      unfold reads_past_bs_t in Hp.
      destruct (bs_t_free g) eqn:Hg.
      * cbn [andb] in Hp. destruct (after_last_bs_t f) as [r|] eqn:Hr.
        -- rewrite (parse_output_past_bs_t raw fs f g r Hraw Hg Hr).
           destruct (plain r) eqn:Hpl.
           ++ rewrite (repr_body_plain _ r (repr_quote_is_quote raw) Hpl).
              cbn [andb] in Hp. unfold numeric in Hp.
              destruct (float_of_str (text_of_bytes r)) as [v|e] eqn:E; [discriminate|].
              now rewrite (float_of_str_error _ _ E).
           ++ apply float_of_str_alphabet, repr_body_not_plain;
                [apply repr_quote_is_quote | exact Hpl].
        -- apply after_last_bs_t_none in Hr.
           destruct fs as [|h fs].
           ++ now apply (parse_output_two_fields raw f g).
           ++ rewrite (parse_output_fields raw (h :: fs) f g) by (assumption || discriminate).
              destruct (has_char BACKSLASH (repr_body (repr_quote raw) f)) eqn:Hb.
              ** now apply (float_of_str_rejects BACKSLASH).
              ** rewrite (repr_body_no_backslash _ _ Hb).
                 unfold numeric in Hn.
                 destruct (float_of_str (text_of_bytes f)) as [v|e] eqn:E; [discriminate|].
                 now rewrite (float_of_str_error _ _ E).
      * apply (parse_output_last_bs_t raw (pre ++ f) g); [|assumption|assumption].
        now rewrite <- app_assoc.
  - intros fs f g Hraw Hp. unfold reads_past_bs_t in Hp.
    apply andb_true_iff in Hp as [Hg Hp].
    destruct (after_last_bs_t f) as [r|] eqn:Hr; [|discriminate].
    apply andb_true_iff in Hp as [Hpl Hnum].
    split.
    + destruct (after_last_bs_t_some f r Hr) as (f1 & -> & _).
      unfold numeric.
      rewrite (float_of_str_rejects BACKSLASH _ eq_refl (text_has_backslash f1 _)).
      reflexivity.
    + exists r. split; [reflexivity|].
      rewrite (parse_output_past_bs_t raw fs f g r Hraw Hg Hr).
      rewrite (repr_body_plain _ r (repr_quote_is_quote raw) Hpl).
      split; [reflexivity | exact Hnum].
Qed.

Lemma parse_output_error_witness :
  let raw := tabbed ["x"; "y"; "abc"; "z"] in
  (exists fs f g, tab_fields raw = fs ++ [f; g]
     /\ numeric f = false /\ reads_past_bs_t f g = false)
  /\ exists e, parse_output raw = Raise e /\ kind_of e = Some ParseError.
Proof.
  intros raw.
  assert (H : exists fs f g, tab_fields raw = fs ++ [f; g]
     /\ numeric f = false /\ reads_past_bs_t f g = false).
  { exists [b "x"; b "y"], (b "abc"), (b "z"). repeat split. }
  split; [exact H|]. apply (proj1 (parse_output_error raw)). right. exact H.
Defined.

(** C2 (as stated) fails: the second-to-last tab-delimited field [\t5] is
    not numeric, and [process] reads the field [5] between the written
    backslash-t and the written tab. *)
Lemma parse_output_non_numeric_accepted :
  let raw := tabbed ["\t5"; "z"] in
  tab_fields raw = [b "\t5"; b "z"]
  /\ numeric (b "\t5") = false
  /\ spec_parse raw = Raise ValueError
  /\ parse_output raw = float_of_str "5"
  /\ is_ok (parse_output raw) = true.
Proof. vm_compute. repeat split. Qed.

(** ** The sweep *)

Section Sweep.

Variable E : env.
Variable mu : float.

Lemma step_spec l load perf launched :
  step E mu l (load, perf) launched =
  (launched ++ [command mu l],
   match step_result mu l (E (List.length launched) (command mu l)) with
   | Ok (q, v) => Ok (load ++ [q], perf ++ [v])
   | Raise e => Raise e
   end).
Proof.
  unfold step, step_result, bindM, check_output, lift, ret, parse_output.
  destruct (returned _) as [raw|e]; cbn [bind]; [|reflexivity].
  destruct (float_truediv l mu) as [q|e]; cbn [bind]; [|reflexivity].
  destruct (parse_metric _) as [v|e]; reflexivity.
Qed.

(** The commands launched are those of a prefix of the arrival rates, of
    all of them when the loop returns. *)
Lemma for_each_launched ls : forall acc launched,
  exists n, n <= List.length ls
    /\ fst (for_each ls (step E mu) acc launched)
       = launched ++ map (command mu) (firstn n ls)
    /\ (is_ok (snd (for_each ls (step E mu) acc launched)) = true
        -> n = List.length ls).
Proof.
  induction ls as [|l ls IH]; intros [load perf] launched.
  - exists 0. split; [lia|]. cbn. now rewrite app_nil_r.
  - cbn [for_each]. unfold bindM. rewrite step_spec.
    destruct (step_result _ _ _) as [[q v]|e].
    + destruct (IH (load ++ [q], perf ++ [v]) (launched ++ [command mu l]))
        as (n & Hn & H & Hok).
      exists (S n). split; [cbn; lia|]. rewrite H. cbn [firstn map].
      split; [now rewrite <- app_assoc|].
      intros H'. cbn [List.length]. f_equal. now apply Hok.
    + exists 1. split; [cbn; lia|]. cbn [fst snd firstn map is_ok].
      split; [destruct ls; reflexivity | discriminate].
Qed.

(** When every step yields a pair, the loop launches every command and
    returns the two lists, one element per step. *)
Lemma for_each_ok ls : forall load perf launched,
  (forall i, i < List.length ls ->
     is_ok (step_result mu (nth i ls NaN)
              (E (List.length launched + i) (command mu (nth i ls NaN)))) = true) ->
  exists qs vs,
    for_each ls (step E mu) (load, perf) launched
    = (launched ++ map (command mu) ls, Ok (load ++ qs, perf ++ vs))
    /\ List.length qs = List.length ls /\ List.length vs = List.length ls
    /\ forall i, i < List.length ls ->
         step_result mu (nth i ls NaN)
           (E (List.length launched + i) (command mu (nth i ls NaN)))
         = Ok (nth i qs NaN, nth i vs NaN).
Proof.
  induction ls as [|l ls IH]; intros load perf launched H.
  - exists [], []. cbn. rewrite !app_nil_r. repeat split. intros i Hi. lia.
  - cbn [for_each]. unfold bindM. rewrite step_spec.
    pose proof (H 0 ltac:(cbn; lia)) as H0. cbn [nth] in H0.
    rewrite Nat.add_0_r in H0.
    destruct (step_result mu l (E (List.length launched) (command mu l)))
      as [[q v]|e] eqn:E0; [|discriminate].
    destruct (IH (load ++ [q]) (perf ++ [v]) (launched ++ [command mu l]))
      as (qs & vs & Hrun & Hq & Hv & Hnth).
    { intros i Hi. rewrite length_app. cbn [List.length].
      replace (List.length launched + 1 + i) with (List.length launched + S i) by lia.
      apply (H (S i)). cbn. lia. }
    exists (q :: qs), (v :: vs). rewrite Hrun. cbn [map List.length].
    rewrite <- !app_assoc. cbn [app]. repeat split; try lia.
    intros [|i] Hi; cbn [nth].
    + now rewrite Nat.add_0_r.
    + specialize (Hnth i ltac:(lia)). rewrite length_app in Hnth. cbn [List.length] in Hnth.
      replace (List.length launched + 1 + i) with (List.length launched + S i) in Hnth by lia.
      exact Hnth.
Qed.

(** When some step yields no pair, the loop stops at the first such step
    with its exception, having launched nothing after it. *)
Lemma for_each_raise ls : forall load perf launched k,
  k < List.length ls ->
  is_ok (step_result mu (nth k ls NaN)
           (E (List.length launched + k) (command mu (nth k ls NaN)))) = false ->
  exists j e,
    j <= k
    /\ for_each ls (step E mu) (load, perf) launched
       = (launched ++ map (command mu) (firstn (S j) ls), Raise e)
    /\ step_result mu (nth j ls NaN)
         (E (List.length launched + j) (command mu (nth j ls NaN))) = Raise e
    /\ forall i, i < j ->
         is_ok (step_result mu (nth i ls NaN)
                  (E (List.length launched + i) (command mu (nth i ls NaN)))) = true.
Proof.
  induction ls as [|l ls IH]; intros load perf launched k Hk Hfail; [cbn in Hk; lia|].
  cbn [for_each]. unfold bindM. rewrite step_spec.
  destruct (step_result mu l (E (List.length launched) (command mu l)))
    as [[q v]|e] eqn:E0.
  - destruct k as [|k].
    { cbn [nth] in Hfail. rewrite Nat.add_0_r, E0 in Hfail. discriminate. }
    destruct (IH (load ++ [q]) (perf ++ [v]) (launched ++ [command mu l]) k)
      as (j & e & Hj & Hrun & He & Hbefore).
    { cbn in Hk. lia. }
    { rewrite length_app. cbn [List.length nth] in *.
      replace (List.length launched + 1 + k) with (List.length launched + S k) by lia.
      exact Hfail. }
    exists (S j), e. rewrite Hrun. rewrite length_app in He. cbn [List.length] in He.
    replace (List.length launched + 1 + j) with (List.length launched + S j) in He by lia.
    split; [lia|]. split; [|split; [exact He|]].
    + now rewrite <- app_assoc.
    + intros [|i] Hi; cbn [nth].
      * now rewrite Nat.add_0_r, E0.
      * specialize (Hbefore i ltac:(lia)). rewrite length_app in Hbefore.
        cbn [List.length] in Hbefore.
        replace (List.length launched + 1 + i) with (List.length launched + S i)
          in Hbefore by lia.
        exact Hbefore.
  - exists 0, e. split; [lia|]. split; [|split; [|intros i Hi; lia]].
    + cbn [firstn map]. reflexivity.
    + cbn [nth]. now rewrite Nat.add_0_r.
Qed.

End Sweep.

Lemma map_result_floats perf : map_result py_float (map PyFloat perf) = Ok perf.
Proof.
  induction perf as [|x perf IH]; [reflexivity|].
  cbn [map map_result py_float bind]. now rewrite IH.
Qed.

Lemma process_sweep E mu launched : process E mu launched = sweep E mu launched.
Proof.
  unfold process, bindM.
  destruct (sweep E mu launched) as [launched' [[load perf]|e]]; [|reflexivity].
  unfold lift. now rewrite map_result_floats.
Qed.

Lemma lambdas_length : List.length lambdas = 100.
Proof. reflexivity. Qed.

Lemma step_result_metric mu l o :
  is_ok (metric o) = false -> is_ok (step_result mu l o) = false.
Proof.
  unfold metric, step_result.
  destruct (returned o) as [raw|e]; cbn [bind]; [|trivial].
  destruct (float_truediv l mu) as [q|e]; cbn [bind]; [|trivial].
  destruct (parse_output raw); trivial.
Qed.

Lemma step_result_ok mu l o :
  is_zero mu = false -> is_ok (metric o) = true ->
  exists v, metric o = Ok v /\ step_result mu l o = Ok (SFdiv prec emax l mu, v).
Proof.
  unfold metric, step_result, float_truediv. intros ->.
  destruct (returned o) as [raw|e]; cbn [bind]; [|discriminate].
  destruct (parse_output raw) as [v|e]; [|discriminate].
  intros _. exists v. split; reflexivity.
Qed.

Lemma invocation_fails_metric o : invocation_fails o = true -> is_ok (metric o) = false.
Proof.
  unfold metric. destruct o as [|rc out]; [reflexivity|].
  cbn [invocation_fails returned]. destruct (rc =? 0)%Z; [discriminate | reflexivity].
Qed.

Lemma run_sweep E mu : run E mu = for_each lambdas (step E mu) ([], []) [].
Proof. unfold run. now rewrite process_sweep. Qed.

Lemma metric_fails o :
  is_ok (metric o) = false <->
  invocation_fails o = true
  \/ exists out, o = Exited 0 out /\ is_ok (parse_output out) = false.
Proof.
  split.
  - destruct o as [|rc out]; [now left|].
    unfold metric. cbn [returned invocation_fails].
    destruct (Z.eqb_spec rc 0) as [->|Hrc]; [|now left].
    cbn [bind negb]. intros H. right. now exists out.
  - intros [H | (out & -> & H)]; [now apply invocation_fails_metric | exact H].
Qed.

(** C3.  When the launch of a step cannot be started or exits with a return
    code other than zero, the step raises [OSError] or [CalledProcessError],
    the exceptions of the kind InvocationError, and appends nothing. *)
Theorem invocation_error E mu l acc launched :
  invocation_fails (E (List.length launched) (command mu l)) = true ->
  exists e,
    step E mu l acc launched = (launched ++ [command mu l], Raise e)
    /\ kind_of e = Some InvocationError.
Proof.
  intros H. destruct acc as [load perf]. rewrite step_spec. unfold step_result.
  destruct (E (List.length launched) (command mu l)) as [|rc out].
  - exists OSError. split; reflexivity.
  - cbn [invocation_fails] in H. cbn [returned].
    destruct (rc =? 0)%Z; [discriminate|].
    exists (CalledProcessError rc). split; reflexivity.
Qed.

Lemma invocation_error_witness :
  invocation_fails (env_exit_at 0 1 (List.length (@nil string)) (command lit_0_1 lit_0_001)) = true
  /\ exists e,
       step (env_exit_at 0 1) lit_0_1 lit_0_001 ([], []) []
       = ([] ++ [command lit_0_1 lit_0_001], Raise e)
       /\ kind_of e = Some InvocationError.
Proof.
  split; [reflexivity|].
  apply (invocation_error (env_exit_at 0 1) lit_0_1 lit_0_001 ([], []) []).
  reflexivity.
Defined.

(** C4.  When the invocation or the parse of some step fails, [process]
    raises: it returns no pair of lists, and the commands launched are those
    of the steps up to the first one that failed. *)
Theorem sweep_aborts E mu k :
  k < 100 ->
  invocation_fails (answer E mu k) = true
  \/ (exists out, answer E mu k = Exited 0 out /\ is_ok (parse_output out) = false) ->
  exists j e,
    j <= k
    /\ run E mu = (map (command mu) (firstn (S j) lambdas), Raise e)
    /\ step_result mu (nth j lambdas NaN) (answer E mu j) = Raise e
    /\ forall i, i < j -> is_ok (step_result mu (nth i lambdas NaN) (answer E mu i)) = true.
Proof.
  intros Hk Hfail. apply metric_fails in Hfail.
  rewrite run_sweep.
  exact (for_each_raise E mu lambdas [] [] [] k Hk
           (step_result_metric mu _ _ Hfail)).
Qed.

Lemma sweep_aborts_witness :
  invocation_fails (answer (env_exit_at 36 1) lit_0_1 36) = true
  /\ exists j e,
       j <= 36
       /\ run (env_exit_at 36 1) lit_0_1
          = (map (command lit_0_1) (firstn (S j) lambdas), Raise e)
       /\ step_result lit_0_1 (nth j lambdas NaN) (answer (env_exit_at 36 1) lit_0_1 j)
          = Raise e
       /\ forall i, i < j ->
            is_ok (step_result lit_0_1 (nth i lambdas NaN)
                     (answer (env_exit_at 36 1) lit_0_1 i)) = true.
Proof.
  split; [reflexivity|].
  apply (sweep_aborts (env_exit_at 36 1) lit_0_1 36); [lia | left; reflexivity].
Defined.

(** When the launch of step [k] cannot be started or exits with a code
    other than zero, and every launch before it has yielded a metric,
    [process] raises the exception of that launch, having launched exactly
    the commands of the steps 0 to [k]. *)
Theorem sweep_aborts_at_launch E mu k e :
  k < 100 -> (0 < k -> is_zero mu = false) ->
  (forall i, i < k -> is_ok (metric (answer E mu i)) = true) ->
  returned (answer E mu k) = Raise e ->
  run E mu = (map (command mu) (firstn (S k) lambdas), Raise e).
Proof.
  intros Hk Hmu Hbefore Hfail.
  assert (Hs : step_result mu (nth k lambdas NaN) (answer E mu k) = Raise e)
    by (unfold step_result; now rewrite Hfail).
  destruct (for_each_raise E mu lambdas [] [] [] k Hk) as (j & e' & Hj & Hrun & He & _).
  { cbn [List.length Nat.add]. unfold answer, command_at in Hs. now rewrite Hs. }
  cbn [List.length Nat.add app] in Hrun, He.
  destruct (Nat.eq_dec j k) as [->|Hne].
  - unfold answer, command_at in Hs. rewrite Hs in He. injection He as <-.
    now rewrite run_sweep.
  - exfalso.
    destruct (step_result_ok mu (nth j lambdas NaN) (answer E mu j))
      as (v & _ & Hok); [apply Hmu; lia | apply Hbefore; lia |].
    unfold answer, command_at in Hok. rewrite Hok in He. discriminate He.
Qed.

(** The scenario of the specification: launch 37 of 100 exits with code 1. *)
Lemma sweep_aborts_at_37 :
  run (env_exit_at 36 1) lit_0_1
  = (map (command lit_0_1) (firstn 37 lambdas), Raise (CalledProcessError 1)).
Proof.
  apply (sweep_aborts_at_launch (env_exit_at 36 1) lit_0_1 36);
    [lia | reflexivity | | reflexivity].
  intros i Hi. unfold answer, env_exit_at.
  destruct (Nat.eqb_spec i 36); [lia | reflexivity].
Defined.

Lemma loads_length mu : List.length (loads mu) = 100.
Proof. unfold loads. now rewrite length_map. Qed.

Lemma nth_loads mu i :
  i < 100 -> nth i (loads mu) NaN = SFdiv prec emax (nth i lambdas NaN) mu.
Proof.
  intros Hi. unfold loads.
  rewrite (nth_indep _ NaN (SFdiv prec emax NaN mu)) by (rewrite length_map; exact Hi).
  apply (map_nth (fun l => SFdiv prec emax l mu)).
Qed.

(** When no step fails, the sweep returns the loads and the metrics. *)
Lemma run_completes E mu :
  is_zero mu = false ->
  (forall i, i < 100 -> is_ok (metric (answer E mu i)) = true) ->
  exists performance,
    run E mu = (map (command mu) lambdas, Ok (loads mu, performance))
    /\ List.length (loads mu) = 100 /\ List.length performance = 100
    /\ (forall i, i < 100 ->
          nth i (loads mu) NaN = SFdiv prec emax (nth i lambdas NaN) mu)
    /\ (forall i, i < 100 -> metric (answer E mu i) = Ok (nth i performance NaN)).
Proof.
  intros Hmu Hok. rewrite run_sweep.
  destruct (for_each_ok E mu lambdas [] [] []) as (qs & vs & Hrun & Hq & Hv & Hnth).
  { intros i Hi. destruct (step_result_ok mu (nth i lambdas NaN) _ Hmu (Hok i Hi))
      as (v & _ & Hs). cbn [List.length Nat.add]. unfold answer, command_at in Hs.
    now rewrite Hs. }
  assert (Hqs : qs = loads mu).
  { apply (nth_ext _ _ NaN NaN); [now rewrite loads_length|].
    intros i Hi. rewrite Hq, lambdas_length in Hi. rewrite nth_loads by exact Hi.
    specialize (Hnth i ltac:(now rewrite lambdas_length)).
    destruct (step_result_ok mu (nth i lambdas NaN) _ Hmu (Hok i Hi)) as (v & _ & Hs).
    cbn [List.length Nat.add] in Hnth. unfold answer, command_at in Hs.
    rewrite Hs in Hnth. now injection Hnth as <- _. }
  exists vs. rewrite Hrun, Hqs. cbn [app].
  split; [reflexivity|]. split; [apply loads_length|]. split; [exact Hv|].
  split; [intros i Hi; now apply nth_loads|].
  intros i Hi. specialize (Hnth i ltac:(now rewrite lambdas_length)).
  destruct (step_result_ok mu (nth i lambdas NaN) _ Hmu (Hok i Hi)) as (v & Hm & Hs).
  cbn [List.length Nat.add] in Hnth. unfold answer, command_at in Hs, Hm |- *.
  rewrite Hs in Hnth. injection Hnth as _ <-. exact Hm.
Qed.

(** C7 (as amended).  For a service rate other than zero, when every launch
    exits with code 0 and every output is parsed, [process] launches the 100
    commands and returns one pair of lists of 100 elements each, in the order
    of the sweep: load [i] is arrival rate [i] divided by the service rate,
    performance [i] is the metric of launch [i]. *)
Theorem sweep_completes E mu :
  is_zero mu = false ->
  (forall i, i < 100 -> is_ok (metric (answer E mu i)) = true) ->
  exists performance,
    run E mu = (map (command mu) lambdas, Ok (loads mu, performance))
    /\ List.length (loads mu) = 100 /\ List.length performance = 100
    /\ (forall i, i < 100 ->
          nth i (loads mu) NaN = SFdiv prec emax (nth i lambdas NaN) mu)
    /\ (forall i, i < 100 -> metric (answer E mu i) = Ok (nth i performance NaN)).
Proof. exact (run_completes E mu). Qed.

Lemma sweep_completes_witness :
  is_zero lit_0_1 = false
  /\ (forall i, i < 100 -> is_ok (metric (answer env_ok lit_0_1 i)) = true)
  /\ exists performance,
       run env_ok lit_0_1 = (map (command lit_0_1) lambdas, Ok (loads lit_0_1, performance))
       /\ List.length (loads lit_0_1) = 100 /\ List.length performance = 100
       /\ (forall i, i < 100 ->
             nth i (loads lit_0_1) NaN = SFdiv prec emax (nth i lambdas NaN) lit_0_1)
       /\ (forall i, i < 100 -> metric (answer env_ok lit_0_1 i) = Ok (nth i performance NaN)).
Proof.
  split; [reflexivity|]. split; [intros i _; reflexivity|].
  apply (sweep_completes env_ok lit_0_1); [reflexivity | intros i _; reflexivity].
Defined.

(** C7 (as stated) fails: all 100 invocations are made and succeed, the
    output of the last one has one field; its parse raises and no pair of
    lists is returned. *)
Lemma all_invocations_succeed_no_curve :
  forallb (fun i => negb (invocation_fails (answer (env_one_field_at 99) lit_0_1 i)))
    (seq 0 100) = true
  /\ run (env_one_field_at 99) lit_0_1
     = (map (command lit_0_1) lambdas, Raise IndexError).
Proof. vm_compute. split; reflexivity. Qed.

(** C10.  [process] returns what the loop built: converting the performance
    list with [float] again changes no element. *)
Theorem reconversion_identity :
  (forall performance, map_result py_float (map PyFloat performance) = Ok performance)
  /\ (forall E mu launched, process E mu launched = sweep E mu launched).
Proof. split; [exact map_result_floats | exact process_sweep]. Qed.

(** ** The command line *)

Lemma digit_char_is_digit n : is_digit (digit_char (n mod 10)%Z) = true.
Proof.
  pose proof (Z.mod_pos_bound n 10 eq_refl) as H.
  assert (Hc : (n mod 10 = 0 \/ n mod 10 = 1 \/ n mod 10 = 2 \/ n mod 10 = 3
               \/ n mod 10 = 4 \/ n mod 10 = 5 \/ n mod 10 = 6 \/ n mod 10 = 7
               \/ n mod 10 = 8 \/ n mod 10 = 9)%Z) by lia.
  repeat (destruct Hc as [-> | Hc]; [reflexivity|]). now rewrite Hc.
Qed.

Lemma digit_repr_char c : is_digit c = true -> repr_char c = true.
Proof. intros H. unfold repr_char. now rewrite H. Qed.

Lemma all_chars_decimal_acc fuel : forall n acc,
  all_chars repr_char acc = true -> all_chars repr_char (decimal_acc fuel n acc) = true.
Proof.
  induction fuel as [|fuel IH]; intros n acc H; [exact H|].
  cbn [decimal_acc].
  assert (H' : all_chars repr_char (String (digit_char (n mod 10)) acc) = true).
  { cbn [all_chars]. now rewrite (digit_repr_char _ (digit_char_is_digit n)). }
  destruct (n <? 10)%Z; [exact H' | now apply IH].
Qed.

Lemma all_chars_decimal n : all_chars repr_char (decimal n) = true.
Proof. now apply all_chars_decimal_acc. Qed.

Lemma all_chars_rev_str P s : forall acc,
  all_chars P s = true -> all_chars P acc = true -> all_chars P (rev_str s acc) = true.
Proof.
  induction s as [|c s IH]; intros acc Hs Hacc; [exact Hacc|].
  cbn [all_chars] in Hs. apply andb_true_iff in Hs as [Hc Hs].
  cbn [rev_str]. apply IH; [exact Hs|]. cbn [all_chars]. now rewrite Hc.
Qed.

Lemma all_chars_strip_zeros_rev P s :
  all_chars P s = true -> all_chars P (strip_zeros_rev s) = true.
Proof.
  induction s as [|c s IH]; [trivial|]. cbn [strip_zeros_rev].
  destruct (Ascii.eqb c "0"); [|trivial].
  cbn [all_chars]. intros H. apply andb_true_iff in H as [_ H]. now apply IH.
Qed.

Lemma all_chars_strip_trailing_zeros P s :
  all_chars P s = true -> all_chars P (strip_trailing_zeros s) = true.
Proof.
  intros H. unfold strip_trailing_zeros.
  apply all_chars_rev_str; [|reflexivity].
  apply all_chars_strip_zeros_rev. now apply all_chars_rev_str.
Qed.

Lemma all_chars_zeros n : all_chars repr_char (zeros n) = true.
Proof. induction n as [|n IH]; [reflexivity|]. cbn [zeros all_chars]. now rewrite IH. Qed.

Lemma all_chars_take P n : forall s, all_chars P s = true -> all_chars P (take n s) = true.
Proof.
  induction n as [|n IH]; intros [|c s] H; try reflexivity.
  cbn [all_chars] in H. apply andb_true_iff in H as [Hc Hs].
  cbn [take all_chars]. now rewrite Hc, IH.
Qed.

Lemma all_chars_drop P n : forall s, all_chars P s = true -> all_chars P (drop n s) = true.
Proof.
  induction n as [|n IH]; intros [|c s] H; try exact H.
  cbn [all_chars] in H. apply andb_true_iff in H as [Hc Hs].
  cbn [drop]. now apply IH.
Qed.

Lemma all_chars_format_exponent x : all_chars repr_char (format_exponent x) = true.
Proof.
  unfold format_exponent. cbn [all_chars]. apply andb_true_iff. split.
  - destruct (x <? 0)%Z; reflexivity.
  - destruct (Z.abs x <? 10)%Z; cbn [all_chars]; now rewrite all_chars_decimal.
Qed.

Lemma all_chars_format_digits ds dp :
  all_chars repr_char ds = true -> all_chars repr_char (format_digits ds dp) = true.
Proof.
  intros H. unfold format_digits.
  destruct (_ || _).
  - rewrite !all_chars_app, (all_chars_take _ 1 ds H). cbn [all_chars andb].
    rewrite all_chars_format_exponent.
    destruct (1 <? String.length ds)%nat; cbn [all_chars]; [|reflexivity].
    now rewrite (all_chars_drop _ 1 ds H).
  - destruct (dp <=? 0)%Z.
    + rewrite !all_chars_app, all_chars_zeros, H. reflexivity.
    + destruct (_ <=? dp)%Z.
      * rewrite !all_chars_app, all_chars_zeros, H. reflexivity.
      * rewrite all_chars_app. cbn [all_chars].
        now rewrite (all_chars_take _ _ ds H), (all_chars_drop _ _ ds H).
Qed.

Lemma all_chars_float_repr x : all_chars repr_char (float_repr x) = true.
Proof.
  destruct x as [s|s| |s m e]; cbn [float_repr]; try (destruct s; reflexivity); [reflexivity|].
  unfold float_digits. destruct (shortest_from 17 m e (decpt m e) 1) as [D n].
  rewrite all_chars_app.
  rewrite all_chars_format_digits
    by (apply all_chars_strip_trailing_zeros, all_chars_decimal).
  destruct s; reflexivity.
Qed.

Lemma all_chars_impl (P Q : ascii -> bool) s :
  (forall c, P c = true -> Q c = true) -> all_chars P s = true -> all_chars Q s = true.
Proof.
  intros HPQ. induction s as [|c s IH]; [trivial|]. cbn [all_chars].
  intros H. apply andb_true_iff in H as [Hc Hs]. now rewrite (HPQ c Hc), IH.
Qed.

Lemma repr_word_char c : repr_char c = true -> word_char c = true.
Proof.
  unfold word_char. destruct (Ascii.eqb_spec c " ") as [->|]; [discriminate | reflexivity].
Qed.

Lemma float_repr_word x : all_chars word_char (float_repr x) = true.
Proof. exact (all_chars_impl _ _ _ repr_word_char (all_chars_float_repr x)). Qed.

(** *** The words of the shell *)

Lemma rev_str_acc s : forall acc, rev_str s acc = (rev_str s "" ++ acc)%string.
Proof.
  induction s as [|c s IH]; intros acc; [reflexivity|].
  cbn [rev_str]. rewrite (IH (String c acc)), (IH (String c "")).
  now rewrite append_assoc.
Qed.

Lemma sh_words_acc_word w : forall cur rest,
  all_chars word_char w = true ->
  sh_words_acc (w ++ String " " rest) cur =
  if is_empty cur && is_empty w then sh_words_acc rest ""
  else (rev_str cur "" ++ w)%string :: sh_words_acc rest "".
Proof.
  induction w as [|c w IH]; intros cur rest H.
  - cbn [append sh_words_acc]. change (Ascii.eqb " " " ") with true. cbv iota.
    rewrite andb_true_r, append_nil_r. reflexivity.
  - cbn [all_chars] in H. apply andb_true_iff in H as [Hc Hw].
    unfold word_char in Hc. apply negb_true_iff in Hc.
    cbn [append sh_words_acc]. rewrite Hc, (IH (String c cur) rest Hw).
    cbn [is_empty andb]. rewrite andb_false_r.
    cbn [rev_str]. now rewrite (rev_str_acc cur (String c "")), append_assoc.
Qed.

Lemma sh_words_acc_last w : forall cur,
  all_chars word_char w = true ->
  sh_words_acc w cur =
  if is_empty cur && is_empty w then [] else [(rev_str cur "" ++ w)%string].
Proof.
  induction w as [|c w IH]; intros cur H.
  - cbn [sh_words_acc]. rewrite andb_true_r, append_nil_r. reflexivity.
  - cbn [all_chars] in H. apply andb_true_iff in H as [Hc Hw].
    unfold word_char in Hc. apply negb_true_iff in Hc.
    cbn [sh_words_acc]. rewrite Hc, (IH (String c cur) Hw).
    cbn [is_empty andb]. rewrite andb_false_r.
    cbn [rev_str]. now rewrite (rev_str_acc cur (String c "")), append_assoc.
Qed.

Lemma sh_words_command mu l : sh_words (command mu l) = argv mu l.
Proof.
  assert (Hc : command mu l =
    ("./schedsim" ++ String " " ("--topo=0" ++ String " " (("--mu=" ++ float_repr mu)
       ++ String " " (("--lambda=" ++ float_repr l) ++ String " " ("--genType=3"
       ++ String " " "--procType=0")))))%string).
  { unfold command. rewrite !append_assoc. reflexivity. }
  rewrite Hc. unfold sh_words.
  assert (Hmu : all_chars word_char ("--mu=" ++ float_repr mu) = true)
    by (rewrite all_chars_app, float_repr_word; reflexivity).
  assert (Hl : all_chars word_char ("--lambda=" ++ float_repr l) = true)
    by (rewrite all_chars_app, float_repr_word; reflexivity).
  rewrite sh_words_acc_word by reflexivity. cbn [is_empty andb rev_str].
  rewrite sh_words_acc_word by reflexivity. cbn [is_empty andb rev_str].
  rewrite (sh_words_acc_word _ "" _ Hmu). cbn [is_empty andb rev_str].
  rewrite (sh_words_acc_word _ "" _ Hl). cbn [is_empty andb rev_str].
  rewrite sh_words_acc_word by reflexivity.
  rewrite sh_words_acc_last by reflexivity. reflexivity.
Qed.

Lemma nth_error_map_firstn {A B} (f : A -> B) (d : A) n : forall l i y,
  nth_error (map f (firstn n l)) i = Some y ->
  i < n /\ i < List.length l /\ y = f (nth i l d).
Proof.
  induction n as [|n IH]; intros l i y H.
  - destruct i; discriminate H.
  - destruct l as [|x l]; [destruct i; discriminate H|].
    destruct i as [|i]; cbn in H.
    + injection H as <-. cbn. repeat split; lia.
    + destruct (IH l i y H) as (H1 & H2 & H3). cbn. repeat split; try lia. exact H3.
Qed.

Lemma run_launched E mu :
  exists n, n <= 100
    /\ fst (run E mu) = map (command mu) (firstn n lambdas)
    /\ (is_ok (snd (run E mu)) = true -> n = 100).
Proof.
  rewrite run_sweep.
  destruct (for_each_launched E mu lambdas ([], []) []) as (n & Hn & H & Hok).
  exists n. split; [exact Hn|]. split; [exact H | exact Hok].
Qed.

(** C9.  The arrival rates do not depend on the service rate: whatever the
    two service rates and environments, the commands launched are those of
    prefixes of one list of 100 arrival rates, whole when the sweep
    completes, and step [i] of either sweep passes the same [--lambda]
    word. *)
Theorem arrival_rates_independent E1 E2 mu1 mu2 :
  List.length lambdas = 100
  /\ (exists n1 n2,
        fst (run E1 mu1) = map (command mu1) (firstn n1 lambdas)
        /\ fst (run E2 mu2) = map (command mu2) (firstn n2 lambdas)
        /\ (is_ok (snd (run E1 mu1)) = true -> n1 = 100)
        /\ (is_ok (snd (run E2 mu2)) = true -> n2 = 100))
  /\ (forall i c1 c2,
        nth_error (fst (run E1 mu1)) i = Some c1 ->
        nth_error (fst (run E2 mu2)) i = Some c2 ->
        nth_error (sh_words c1) 3 = Some ("--lambda=" ++ float_repr (nth i lambdas NaN))%string
        /\ nth_error (sh_words c1) 3 = nth_error (sh_words c2) 3).
Proof.
  split; [reflexivity|]. split.
  - destruct (run_launched E1 mu1) as (n1 & _ & H1 & Hok1).
    destruct (run_launched E2 mu2) as (n2 & _ & H2 & Hok2).
    exists n1, n2. repeat split; assumption.
  - intros i c1 c2 H1 H2.
    destruct (run_launched E1 mu1) as (n1 & _ & Hr1 & _). rewrite Hr1 in H1.
    destruct (run_launched E2 mu2) as (n2 & _ & Hr2 & _). rewrite Hr2 in H2.
    destruct (nth_error_map_firstn (command mu1) NaN n1 lambdas i c1 H1) as (_ & _ & ->).
    destruct (nth_error_map_firstn (command mu2) NaN n2 lambdas i c2 H2) as (_ & _ & ->).
    rewrite !sh_words_command. split; reflexivity.
Qed.

(** A sweep that returns has passed every step, and its loads are the
    quotients of the arrival rates by the service rate. *)
Lemma run_ok_loads E mu load performance :
  snd (run E mu) = Ok (load, performance) ->
  load = loads mu /\ List.length performance = 100.
Proof.
  rewrite run_sweep. intros Hrun.
  assert (Hall : forall i, i < 100 ->
            is_ok (step_result mu (nth i lambdas NaN)
                     (E (List.length (@nil string) + i) (command mu (nth i lambdas NaN)))) = true).
  { intros i Hi.
    destruct (is_ok (step_result mu (nth i lambdas NaN)
                (E (List.length (@nil string) + i) (command mu (nth i lambdas NaN))))) eqn:Hs;
      [reflexivity|].
    destruct (for_each_raise E mu lambdas [] [] [] i Hi Hs) as (j & e & _ & H & _).
    rewrite H in Hrun. discriminate Hrun. }
  destruct (for_each_ok E mu lambdas [] [] [] Hall) as (qs & vs & H & Hq & Hv & Hnth).
  rewrite H in Hrun. cbn [snd app] in Hrun. injection Hrun as <- <-.
  split; [|exact Hv].
  apply (nth_ext _ _ NaN NaN); [now rewrite loads_length|].
  intros i Hi. rewrite Hq, lambdas_length in Hi. rewrite nth_loads by exact Hi.
  specialize (Hnth i Hi). revert Hnth. unfold step_result, float_truediv.
  destruct (returned _) as [raw|e]; cbn [bind]; [|discriminate].
  destruct (is_zero mu); cbn [bind]; [discriminate|].
  destruct (parse_output raw); cbn [bind]; [|discriminate].
  now intros [= <- _].
Qed.

(** ** Division of binary64 floats *)

Section Binary64.

Local Open Scope Z_scope.

Lemma digits2_size p : digits2_pos p = Pos.size p.
Proof. induction p as [p IH|p IH|]; cbn; now rewrite ?IH. Qed.

Lemma pow2_double n : 0 < n -> 2 ^ n = 2 * 2 ^ (n - 1).
Proof.
  intros H. rewrite <- Z.pow_succ_r by lia.
  now replace (Z.succ (n - 1)) with n by lia.
Qed.

Lemma digits2_bounds p :
  2 ^ (Zpos (digits2_pos p) - 1) <= Zpos p < 2 ^ Zpos (digits2_pos p).
Proof.
  rewrite digits2_size.
  pose proof (Pos.size_gt p) as Hgt. pose proof (Pos.size_le p) as Hle.
  apply Pos2Z.pos_lt_pos in Hgt. apply Pos2Z.pos_le_pos in Hle.
  rewrite Pos2Z.inj_pow in Hgt, Hle.
  pose proof (pow2_double (Zpos (Pos.size p)) (Pos2Z.is_pos _)) as H2.
  set (a := 2 ^ Zpos (Pos.size p)) in *. set (c := 2 ^ (Zpos (Pos.size p) - 1)) in *.
  lia.
Qed.

Lemma digits2_le p n : 0 <= n -> Zpos p < 2 ^ n -> Zpos (digits2_pos p) <= n.
Proof.
  intros Hn Hp. destruct (Z_le_gt_dec (Zpos (digits2_pos p)) n) as [H|H]; [exact H|].
  pose proof (digits2_bounds p) as [Hlo _].
  assert (2 ^ n <= 2 ^ (Zpos (digits2_pos p) - 1)) by (apply Z.pow_le_mono_r; lia).
  lia.
Qed.

Lemma digits2_eq p n : 2 ^ (n - 1) <= Zpos p < 2 ^ n -> Zpos (digits2_pos p) = n.
Proof.
  intros [Hlo Hhi].
  assert (Hn : 0 < n).
  { destruct (Z_lt_le_dec 0 n) as [H|H]; [exact H|].
    assert (2 ^ n <= 2 ^ 0) by (destruct (Z_lt_le_dec n 0);
      [rewrite Z.pow_neg_r by lia; cbn; lia | apply Z.pow_le_mono_r; lia]).
    cbn in *. lia. }
  pose proof (digits2_le p n ltac:(lia) Hhi) as H1.
  pose proof (digits2_bounds p) as [_ Hd].
  destruct (Z_le_gt_dec n (Zpos (digits2_pos p))) as [H|H]; [lia|].
  assert (2 ^ Zpos (digits2_pos p) <= 2 ^ (n - 1)) by (apply Z.pow_le_mono_r; lia).
  lia.
Qed.

Lemma fexp_eq e : fexp prec emax e = Z.max (e - 53) (-1074).
Proof. reflexivity. Qed.

Lemma shr_nonpos mrs e n : n <= 0 -> shr mrs e n = (mrs, e).
Proof. destruct n; [reflexivity | lia | reflexivity]. Qed.

Lemma shr_one mrs e : shr mrs e 1 = (shr_1 mrs, e + 1).
Proof. reflexivity. Qed.

Lemma shr_1_m mrs : 2 <= shr_m mrs -> shr_m (shr_1 mrs) = shr_m mrs / 2.
Proof.
  destruct mrs as [m r s]. cbn [shr_m]. intros H.
  destruct m as [|p|p]; try lia.
  destruct p as [p|p|]; cbn [shr_1 shr_m]; try lia.
  - rewrite Pos2Z.inj_xI. apply Z.div_unique with (r := 1); lia.
  - rewrite Pos2Z.inj_xO. apply Z.div_unique with (r := 0); lia.
Qed.

Lemma round_nearest_even_bounds m l :
  m <= round_nearest_even m l <= m + 1.
Proof. destruct l as [|[]]; cbn; try destruct (Z.even m); lia. Qed.

Lemma shr_m_of_loc m l : shr_m (shr_record_of_loc m l) = m.
Proof. destruct l as [|[]]; reflexivity. Qed.

(** A mantissa of at most 53 bits is kept; the mantissa [2^53] is halved. *)
Lemma shr_fexp_exact m e :
  1 <= m <= 2 ^ 53 -> -1074 <= e ->
  exists m' e',
    shr_m (fst (shr_fexp prec emax m e loc_Exact)) = m'
    /\ snd (shr_fexp prec emax m e loc_Exact) = e'
    /\ (m < 2 ^ 53 -> m' = m /\ e' = e)
    /\ (m = 2 ^ 53 -> m' = 2 ^ 52 /\ e' = e + 1).
Proof.
  intros Hm He. unfold shr_fexp. rewrite fexp_eq.
  destruct m as [|p|p]; try lia. cbn [Zdigits2].
  destruct (Z_lt_le_dec (Zpos p) (2 ^ 53)) as [Hlt|Hge].
  - pose proof (digits2_le p 53 ltac:(lia) Hlt) as Hd.
    rewrite shr_nonpos by lia.
    exists (Zpos p), e. cbn [fst snd shr_m shr_record_of_loc]. repeat split; lia.
  - assert (Hp : Zpos p = 2 ^ 53) by lia.
    assert (Hd : Zpos (digits2_pos p) = 54) by (apply digits2_eq; rewrite Hp; cbn; lia).
    rewrite Hd.
    replace (Z.max (54 + e - 53) (-1074) - e) with 1 by lia.
    rewrite shr_one. exists (2 ^ 52), (e + 1). cbn [fst snd].
    split; [|repeat split; lia].
    rewrite shr_1_m by (cbn [shr_m shr_record_of_loc]; lia).
    cbn [shr_m shr_record_of_loc]. rewrite Hp. reflexivity.
Qed.

(** The first shift of [binary_round_aux] on a quotient of at most 54
    bits. *)
Lemma shr_fexp_first q e l :
  1 <= q < 2 ^ 54 -> -1074 <= e ->
  exists m1 e1 l1,
    shr_fexp prec emax q e l = (m1, e1)
    /\ round_nearest_even (shr_m m1) (loc_of_shr_record m1) = l1
    /\ ((q < 2 ^ 53 /\ e1 = e /\ q <= l1 <= q + 1)
        \/ (2 ^ 53 <= q /\ e1 = e + 1 /\ q / 2 <= l1 <= q / 2 + 1)).
Proof.
  intros Hq He. unfold shr_fexp. rewrite fexp_eq.
  destruct q as [|p|p]; try lia. cbn [Zdigits2].
  destruct (Z_lt_le_dec (Zpos p) (2 ^ 53)) as [Hlt|Hge].
  - pose proof (digits2_le p 53 ltac:(lia) Hlt) as Hd.
    rewrite shr_nonpos by lia.
    eexists _, _, _. split; [reflexivity|]. split; [reflexivity|]. left.
    rewrite shr_m_of_loc.
    pose proof (round_nearest_even_bounds (Zpos p)
                  (loc_of_shr_record (shr_record_of_loc (Zpos p) l))). lia.
  - assert (Hd : Zpos (digits2_pos p) = 54) by (apply digits2_eq; cbn in *; lia).
    rewrite Hd. replace (Z.max (54 + e - 53) (-1074) - e) with 1 by lia.
    rewrite shr_one.
    eexists _, _, _. split; [reflexivity|]. split; [reflexivity|]. right.
    rewrite shr_1_m by (rewrite shr_m_of_loc; cbn in *; lia).
    rewrite shr_m_of_loc.
    pose proof (round_nearest_even_bounds (Zpos p / 2)
                  (loc_of_shr_record (shr_1 (shr_record_of_loc (Zpos p) l)))). lia.
Qed.

(** What [binary_round_aux] returns on a positive quotient [q * 2^e] of at
    most 54 bits: a finite float in canonical form, at most two units of
    [2^e] away from the quotient. *)
Lemma round_aux_spec q e l :
  1 <= q < 2 ^ 54 -> -1074 <= e <= 969 -> (-1074 < e -> 2 ^ 52 <= q) ->
  exists mz ez,
    binary_round_aux prec emax false q e l = S754_finite false mz ez
    /\ Zpos mz < 2 ^ 53
    /\ e <= ez <= e + 2
    /\ (-1074 < ez -> 2 ^ 52 <= Zpos mz)
    /\ q - 1 <= Zpos mz * 2 ^ (ez - e) <= q + 2.
Proof.
  intros Hq He Hn. unfold binary_round_aux.
  destruct (shr_fexp_first q e l Hq ltac:(lia)) as (m1 & e1 & l1 & H1 & Hl1 & Hcase).
  rewrite H1, Hl1.
  assert (Hl : 1 <= l1 <= 2 ^ 53 /\ -1074 <= e1).
  { destruct Hcase as [(Hq1 & -> & Hb) | (Hq1 & -> & Hb)]; [lia|].
    assert (2 ^ 52 <= q / 2) by (apply Z.div_le_lower_bound; cbn in *; lia).
    assert (q / 2 < 2 ^ 53) by (apply Z.div_lt_upper_bound; cbn in *; lia).
    cbn in *. lia. }
  destruct (shr_fexp_exact l1 e1 (proj1 Hl) (proj2 Hl)) as (m2 & e2 & Hm2 & He2 & Hlt & Heq).
  destruct (shr_fexp prec emax l1 e1 loc_Exact) as [mrs e2'] eqn:E2.
  cbn [fst snd] in Hm2, He2. rewrite Hm2. subst e2'.
  assert (Hq2 : q / 2 * 2 <= q <= q / 2 * 2 + 1).
  { pose proof (Z.div_mod q 2 ltac:(lia)). pose proof (Z.mod_pos_bound q 2 ltac:(lia)). lia. }
  assert (Hres : 1 <= m2 < 2 ^ 53 /\ e <= e2 <= e + 2 /\ (-1074 < e2 -> 2 ^ 52 <= m2)
                 /\ q - 1 <= m2 * 2 ^ (e2 - e) <= q + 2).
  { destruct (Z_lt_le_dec l1 (2 ^ 53)) as [Hl53|Hl53].
    - destruct (Hlt Hl53) as [-> ->].
      destruct Hcase as [(Hq1 & -> & Hb) | (Hq1 & -> & Hb)].
      + replace (e - e) with 0 by lia. cbn in *. lia.
      + replace (e + 1 - e) with 1 by lia.
        assert (2 ^ 52 <= q / 2) by (apply Z.div_le_lower_bound; cbn in *; lia).
        cbn in *. lia.
    - assert (Hl1eq : l1 = 2 ^ 53) by lia.
      destruct (Heq Hl1eq) as [-> ->].
      destruct Hcase as [(Hq1 & -> & Hb) | (Hq1 & -> & Hb)].
      + replace (e + 1 - e) with 1 by lia. cbn in *. lia.
      + replace (e + 1 + 1 - e) with 2 by lia. cbn in *. lia. }
  destruct Hres as (Hm & Hez & Hcanon & Hval).
  destruct m2 as [|mz|mz]; try lia.
  replace (e2 <=? emax - prec) with true by (symmetry; apply Z.leb_le; cbn; lia).
  exists mz, e2. repeat split; lia.
Qed.

Lemma SFdiv_round mx ex my ey :
  Zpos (digits2_pos mx) = 53 -> Zpos (digits2_pos my) = 53 ->
  -1073 <= ex - ey ->
  exists l,
    SFdiv prec emax (S754_finite false mx ex) (S754_finite false my ey)
    = binary_round_aux prec emax false
        (Zpos mx * 2 ^ (ex - ey - Z.max (ex - ey - 53) (-1074)) / Zpos my)
        (Z.max (ex - ey - 53) (-1074)) l.
Proof.
  intros Hx Hy HE. unfold SFdiv, SFdiv_core_binary. cbn [Zdigits2 xorb].
  rewrite Hx, Hy, fexp_eq.
  replace (Z.min (Z.max (53 + ex - (53 + ey) - 53) (-1074)) (ex - ey))
    with (Z.max (ex - ey - 53) (-1074)) by lia.
  set (e' := Z.max (ex - ey - 53) (-1074)).
  assert (Hs : 0 < ex - ey - e') by (unfold e'; lia).
  destruct (ex - ey - e') as [|s|s] eqn:Es; try lia.
  rewrite Z.shiftl_mul_pow2 by lia.
  destruct (Z.div_eucl (Zpos mx * 2 ^ Zpos s) (Zpos my)) as [q r] eqn:D.
  exists (new_location (Zpos my) r).
  unfold Z.div. now rewrite D.
Qed.

Lemma quotient_bounds mx my s :
  2 ^ 52 <= mx < 2 ^ 53 -> 2 ^ 52 <= my < 2 ^ 53 -> 41 <= s <= 53 ->
  1 <= mx * 2 ^ s / my < 2 ^ 54
  /\ (s = 53 -> 2 ^ 52 <= mx * 2 ^ s / my)
  /\ mx * 2 ^ s / my * my <= mx * 2 ^ s < (mx * 2 ^ s / my + 1) * my.
Proof.
  intros Hx Hy Hs.
  assert (HP : 2 ^ 41 <= 2 ^ s <= 2 ^ 53)
    by (split; apply Z.pow_le_mono_r; lia).
  set (P := 2 ^ s) in *.
  change (2 ^ 41) with 2199023255552 in *. change (2 ^ 52) with 4503599627370496 in *.
  change (2 ^ 53) with 9007199254740992 in *. change (2 ^ 54) with 18014398509481984 in *.
  split; [split|split].
  - apply Z.div_le_lower_bound; nia.
  - apply Z.div_lt_upper_bound; nia.
  - intros ->. subst P. change (2 ^ 53) with 9007199254740992.
    apply Z.div_le_lower_bound; lia.
  - pose proof (Z.mul_div_le (mx * P) my ltac:(lia)).
    pose proof (Z.mul_succ_div_gt (mx * P) my ltac:(lia)). lia.
Qed.

Lemma gap_arith mx1 mx2 my q1 q2 P1 P2 D T A1 A2 :
  0 < my < 9007199254740992 ->
  q1 * my <= mx1 * P1 -> mx2 * P2 < (q2 + 1) * my ->
  2199023255552 <= P1 -> 1 <= D <= 64 -> P2 * D = P1 * T ->
  1048576 <= mx2 * T - mx1 ->
  A1 <= q1 + 2 -> q2 - 1 <= A2 ->
  A1 < A2 * D.
Proof.
  intros Hmy Hq1 Hq2 HP1 HD Hprod Hgap HA1 HA2.
  destruct (Z_lt_le_dec A1 (A2 * D)) as [H|H]; [exact H | exfalso].
  assert (H1 : (q2 - 1) * D <= A2 * D) by (apply Z.mul_le_mono_nonneg_r; lia).
  assert (H2 : mx2 * P2 * D < (q2 + 1) * my * D) by (apply Z.mul_lt_mono_pos_r; lia).
  assert (H3 : my * ((q2 - 1) * D + 2 * D) <= my * (q1 + 2 + 2 * D))
    by (apply Z.mul_le_mono_nonneg_l; lia).
  assert (H4 : my * (2 + 2 * D) <= my * 130) by (apply Z.mul_le_mono_nonneg_l; lia).
  assert (H5 : 1048576 * 2199023255552 <= (mx2 * T - mx1) * P1).
  { apply Z.mul_le_mono_nonneg; lia. }
  assert (H6 : mx2 * P2 * D = mx2 * T * P1).
  { rewrite <- Z.mul_assoc, Hprod. ring. }
  assert (H7 : (q2 + 1) * my * D = my * ((q2 - 1) * D + 2 * D)) by ring.
  assert (H8 : my * (q1 + 2 + 2 * D) = q1 * my + my * (2 + 2 * D)) by ring.
  assert (H9 : (mx2 * T - mx1) * P1 = mx2 * T * P1 - mx1 * P1) by ring.
  lia.
Qed.

Lemma cmp_arith_eq mz1 mz2 T : 0 < T -> mz1 * T < mz2 * T -> mz1 < mz2.
Proof. intros HT H. apply (Z.mul_lt_mono_pos_r T); assumption. Qed.

Lemma cmp_arith_gt mz1 mz2 T U :
  0 < T -> 2 <= U -> 4503599627370496 <= mz1 -> mz2 < 9007199254740992 ->
  mz1 * (U * T) < mz2 * T -> False.
Proof.
  intros HT HU H1 H2 H.
  assert (Ha : 4503599627370496 * (2 * T) <= mz1 * (U * T)).
  { apply Z.mul_le_mono_nonneg; try lia. apply Z.mul_le_mono_nonneg_r; lia. }
  assert (Hb : mz2 * T <= 9007199254740992 * T) by (apply Z.mul_le_mono_nonneg_r; lia).
  lia.
Qed.

(** Two dividends of the magnitude of the arrival rates, apart by more than
    rounding can bridge, keep their order when divided by a normal float. *)
Lemma SFdiv_increasing mx1 ex1 mx2 ex2 my ey :
  Zpos (digits2_pos mx1) = 53 -> Zpos (digits2_pos mx2) = 53 ->
  Zpos (digits2_pos my) = 53 ->
  -62 <= ex1 -> ex1 <= ex2 -> ex2 <= -56 ->
  2 ^ 20 <= Zpos mx2 * 2 ^ (ex2 - ex1) - Zpos mx1 ->
  -1074 <= ey <= 971 ->
  SFltb (SFdiv prec emax (S754_finite false mx1 ex1) (S754_finite false my ey))
        (SFdiv prec emax (S754_finite false mx2 ex2) (S754_finite false my ey)) = true.
Proof.
  intros Hd1 Hd2 Hdy Hlo Hle Hhi Hgap Hey.
  destruct (SFdiv_round mx1 ex1 my ey Hd1 Hdy ltac:(lia)) as [l1 ->].
  destruct (SFdiv_round mx2 ex2 my ey Hd2 Hdy ltac:(lia)) as [l2 ->].
  set (e1 := Z.max (ex1 - ey - 53) (-1074)).
  set (e2 := Z.max (ex2 - ey - 53) (-1074)).
  set (s1 := ex1 - ey - e1). set (s2 := ex2 - ey - e2).
  assert (Hs1 : 41 <= s1 <= 53) by (unfold s1, e1; lia).
  assert (Hs2 : 41 <= s2 <= 53) by (unfold s2, e2; lia).
  pose proof (digits2_bounds mx1) as Hb1. rewrite Hd1 in Hb1.
  pose proof (digits2_bounds mx2) as Hb2. rewrite Hd2 in Hb2.
  pose proof (digits2_bounds my) as Hby. rewrite Hdy in Hby.
  change (53 - 1) with 52 in *.
  destruct (quotient_bounds (Zpos mx1) (Zpos my) s1 Hb1 Hby Hs1) as (Hq1 & Hn1 & Hdiv1).
  destruct (quotient_bounds (Zpos mx2) (Zpos my) s2 Hb2 Hby Hs2) as (Hq2 & Hn2 & Hdiv2).
  set (q1 := Zpos mx1 * 2 ^ s1 / Zpos my) in *.
  set (q2 := Zpos mx2 * 2 ^ s2 / Zpos my) in *.
  assert (He1 : -1074 <= e1 <= 969) by (unfold e1; lia).
  assert (He2 : -1074 <= e2 <= 969) by (unfold e2; lia).
  assert (Hee : e1 <= e2 <= e1 + 6) by (unfold e1, e2; lia).
  assert (Hsum : s2 + (e2 - e1) = s1 + (ex2 - ex1)) by (unfold s1, s2; lia).
  assert (Hn1' : -1074 < e1 -> s1 = 53) by (unfold s1, e1; lia).
  assert (Hn2' : -1074 < e2 -> s2 = 53) by (unfold s2, e2; lia).
  clearbody q1 q2. clearbody s1 s2. clearbody e1 e2.
  destruct (round_aux_spec q1 e1 l1 Hq1 He1) as (mz1 & ez1 & -> & Hm1 & Hez1 & Hc1 & Hv1);
    [intros H; apply Hn1, Hn1', H |].
  destruct (round_aux_spec q2 e2 l2 Hq2 He2) as (mz2 & ez2 & -> & Hm2 & Hez2 & Hc2 & Hv2);
    [intros H; apply Hn2, Hn2', H |].
  set (d := e2 - e1) in *.
  assert (Hd : 0 <= d <= 6) by (unfold d; lia).
  assert (HP1 : 2 ^ 41 <= 2 ^ s1) by (apply Z.pow_le_mono_r; lia).
  assert (HD : 1 <= 2 ^ d <= 2 ^ 6)
    by (split; [apply (Z.pow_le_mono_r 2 0 d) | apply Z.pow_le_mono_r]; lia).
  assert (Hprod : 2 ^ s2 * 2 ^ d = 2 ^ s1 * 2 ^ (ex2 - ex1))
    by (rewrite <- !Z.pow_add_r by lia; now rewrite Hsum).
  change (2 ^ 41) with 2199023255552 in HP1. change (2 ^ 6) with 64 in HD.
  change (2 ^ 20) with 1048576 in Hgap.
  change (2 ^ 52) with 4503599627370496 in *.
  change (2 ^ 53) with 9007199254740992 in *.
  assert (Hmain : Zpos mz1 * 2 ^ (ez1 - e1) < Zpos mz2 * 2 ^ (ez2 - e2) * 2 ^ d).
  { apply (gap_arith (Zpos mx1) (Zpos mx2) (Zpos my) q1 q2 (2 ^ s1) (2 ^ s2) (2 ^ d)
             (2 ^ (ex2 - ex1))); try tauto; lia. }
  assert (HT : 2 ^ (ez2 - e2) * 2 ^ d = 2 ^ (ez2 - e1)).
  { rewrite <- Z.pow_add_r by lia. f_equal. unfold d. lia. }
  assert (HTpos : 0 < 2 ^ (ez2 - e1)) by (apply Z.pow_pos_nonneg; lia).
  rewrite <- Z.mul_assoc, HT in Hmain.
  unfold SFltb, SFcompare.
  destruct (Z.compare_spec ez1 ez2) as [Heq|Hlt|Hgt].
  - subst ez2. rewrite Pos.compare_cont_spec. cbn [Pos.switch_Eq].
    apply cmp_arith_eq in Hmain; [|exact HTpos].
    change ((mz1 ?= mz2)%positive = Lt) in Hmain. now rewrite Hmain.
  - reflexivity.
  - exfalso.
    assert (Hpow : 2 ^ (ez1 - e1) = 2 ^ (ez1 - ez2) * 2 ^ (ez2 - e1)).
    { rewrite <- Z.pow_add_r by lia. f_equal. lia. }
    assert (H2 : 2 <= 2 ^ (ez1 - ez2))
      by (apply (Z.pow_le_mono_r 2 1 (ez1 - ez2)); lia).
    rewrite Hpow in Hmain.
    apply (cmp_arith_gt (Zpos mz1) (Zpos mz2) (2 ^ (ez2 - e1)) (2 ^ (ez1 - ez2)));
      try assumption. apply Hc1. lia.
Qed.

End Binary64.

(** ** The arrival rates and the loads *)

Lemma pairs_below_spec n P :
  pairs_below n P = true -> forall i j, i < j -> j < n -> P i j = true.
Proof.
  unfold pairs_below. intros H i j Hij Hj.
  rewrite forallb_forall in H. specialize (H i ltac:(apply in_seq; lia)).
  rewrite forallb_forall in H. specialize (H j ltac:(apply in_seq; lia)).
  apply Nat.ltb_lt in Hij. now rewrite Hij in H.
Qed.

Lemma below_spec n (P : nat -> bool) :
  forallb P (seq 0 n) = true -> forall i, i < n -> P i = true.
Proof.
  intros H i Hi. rewrite forallb_forall in H. apply H, in_seq. lia.
Qed.

Lemma nth_lambdas i :
  i < 100 -> nth i lambdas NaN = float_mul (float_of_int (Z.of_nat i + 1)) lit_0_001.
Proof.
  intros Hi. unfold lambdas.
  rewrite (nth_indep _ NaN (float_mul (float_of_int (Z.of_nat 0 + 1)) lit_0_001))
    by (rewrite length_map, length_seq; exact Hi).
  rewrite (map_nth (fun i => float_mul (float_of_int (Z.of_nat i + 1)) lit_0_001)).
  now rewrite seq_nth by exact Hi.
Qed.

Lemma lambdas_well_apart :
  pairs_below 100 (fun i j => well_apart (nth i lambdas NaN) (nth j lambdas NaN)) = true.
Proof. vm_compute. reflexivity. Qed.

(** C5.  The step is the float that the literal [0.001] reads as, within a
    relative [2^-53] of 1/1000; the list of arrival rates has 100 elements,
    element [i] is the float product of [i + 1] and the step, within a
    relative [2^-52] of [(i+1)/1000], and the elements are strictly
    increasing. *)
Theorem arrival_rates :
  float_of_str "0.001" = Ok lit_0_001
  /\ within lit_0_001 1 1000 53 = true
  /\ List.length lambdas = 100
  /\ (forall i, i < 100 ->
        nth i lambdas NaN = float_mul (float_of_int (Z.of_nat i + 1)) lit_0_001
        /\ within (nth i lambdas NaN) (Z.of_nat i + 1) 1000 52 = true)
  /\ (forall i j, i < j -> j < 100 ->
        float_ltb (nth i lambdas NaN) (nth j lambdas NaN) = true).
Proof.
  split; [vm_compute; reflexivity|]. split; [vm_compute; reflexivity|].
  split; [reflexivity|]. split.
  - intros i Hi. split; [now apply nth_lambdas|].
    revert i Hi. apply below_spec. vm_compute. reflexivity.
  - apply (pairs_below_spec 100 (fun i j => float_ltb (nth i lambdas NaN) (nth j lambdas NaN))).
    vm_compute. reflexivity.
Qed.

(** Divided by a positive normal float, the arrival rates stay strictly
    increasing. *)
Lemma loads_increasing mu i j :
  normal_positive mu = true -> i < j -> j < 100 ->
  float_ltb (nth i (loads mu) NaN) (nth j (loads mu) NaN) = true.
Proof.
  intros Hmu Hij Hj.
  rewrite !nth_loads by lia.
  pose proof (pairs_below_spec 100 _ lambdas_well_apart i j Hij Hj) as Hw.
  cbv beta in Hw.
  destruct (nth i lambdas NaN) as [| | |[] m1 e1]; try discriminate Hw.
  destruct (nth j lambdas NaN) as [| | |[] m2 e2]; try discriminate Hw.
  destruct mu as [| | |[] my ey]; try discriminate Hmu.
  cbn [well_apart] in Hw. cbn [normal_positive] in Hmu.
  repeat (apply andb_true_iff in Hw as [Hw ?]).
  repeat (apply andb_true_iff in Hmu as [Hmu ?]).
  apply SFdiv_increasing;
    repeat match goal with
           | H : (_ =? _)%Z = true |- _ => apply Z.eqb_eq in H
           | H : (_ <=? _)%Z = true |- _ => apply Z.leb_le in H
           end; try assumption. split; assumption.
Qed.

Lemma loads_at_0_1 :
  Ok (nth 0 (loads lit_0_1) NaN) = float_of_str "0.01"
  /\ Ok (nth 99 (loads lit_0_1) NaN) = float_of_str "1.0"
  /\ forallb (fun i => within (nth i (loads lit_0_1) NaN) (Z.of_nat i + 1) 100 52)
       (seq 0 100) = true.
Proof. vm_compute. repeat split. Qed.

(** C6 (as amended).  In a sweep that returns, every load is the float
    quotient of its arrival rate by the service rate; the loads are strictly
    increasing when the service rate is a positive normal float; at service
    rate [0.1] the first load is [0.01], the last is [1.0] and load [i] is
    within a relative [2^-52] of [(i+1)/100]. *)
Theorem loads_of_sweep E mu load performance :
  snd (run E mu) = Ok (load, performance) ->
  List.length load = 100
  /\ (forall i, i < 100 -> nth i load NaN = SFdiv prec emax (nth i lambdas NaN) mu)
  /\ (normal_positive mu = true ->
      forall i j, i < j -> j < 100 ->
        float_ltb (nth i load NaN) (nth j load NaN) = true)
  /\ (mu = lit_0_1 ->
      Ok (nth 0 load NaN) = float_of_str "0.01"
      /\ Ok (nth 99 load NaN) = float_of_str "1.0"
      /\ forall i, i < 100 -> within (nth i load NaN) (Z.of_nat i + 1) 100 52 = true).
Proof.
  intros Hrun. destruct (run_ok_loads E mu load performance Hrun) as [-> _].
  split; [apply loads_length|]. split; [intros i Hi; now apply nth_loads|].
  split; [intros Hmu i j; now apply loads_increasing|].
  intros ->. destruct loads_at_0_1 as (H0 & H99 & Hall).
  split; [exact H0|]. split; [exact H99|]. now apply below_spec.
Qed.

Lemma loads_of_sweep_witness :
  snd (run env_ok lit_0_1)
  = Ok (loads lit_0_1, repeat (S754_finite false 6755399441055744 (-52)) 100)
  /\ normal_positive lit_0_1 = true
  /\ forall i j, i < j -> j < 100 ->
       float_ltb (nth i (loads lit_0_1) NaN) (nth j (loads lit_0_1) NaN) = true.
Proof.
  assert (H : snd (run env_ok lit_0_1)
    = Ok (loads lit_0_1, repeat (S754_finite false 6755399441055744 (-52)) 100))
    by (vm_compute; reflexivity).
  split; [exact H|]. split; [reflexivity|].
  exact (proj1 (proj2 (proj2 (loads_of_sweep env_ok lit_0_1 _ _ H))) eq_refl).
Defined.

(** C6 (as stated) fails.  At the positive service rate [2^-1074] the
    sweep returns and every load is the infinity, so the loads are not
    increasing; at service rate [0.1] the increments from the first load to
    the second and from the second to the third differ. *)
Lemma loads_not_increasing :
  (float_ltb (S754_zero false) mu_min = true
   /\ (exists performance,
         run env_ok mu_min = (map (command mu_min) lambdas, Ok (loads mu_min, performance)))
   /\ loads mu_min = repeat (S754_infinity false) 100
   /\ increasing (loads mu_min) = false)
  /\ SFeqb (SFsub prec emax (nth 1 (loads lit_0_1) NaN) (nth 0 (loads lit_0_1) NaN))
           (SFsub prec emax (nth 2 (loads lit_0_1) NaN) (nth 1 (loads lit_0_1) NaN))
     = false.
Proof.
  split; [|vm_compute; reflexivity].
  split; [reflexivity|]. split; [|split; vm_compute; reflexivity].
  destruct (run_completes env_ok mu_min) as (performance & H & _);
    [reflexivity | intros i _; reflexivity |].
  now exists performance.
Qed.

(** ** The text of a float is read back as the float

    [repr] writes the shortest digits that [float] reads as the float, at
    most seventeen of them.  The decimal conversion is the rounding to the
    nearest float of a fraction, whatever the exponent at which the
    conversion first divides; a fraction within half a unit of the last
    bit of a float rounds to that float; and with seventeen digits the
    decimal below the float or the one above it is that near.  The four
    layouts in which the digits are written are read as the same digits
    and exponent. *)

Section Rounding.

Local Open Scope Z_scope.

Lemma new_location_frac B r :
  0 < B -> 0 <= r < B ->
  new_location B r = if r =? 0 then loc_Exact else loc_Inexact (2 * r ?= B).
Proof.
  intros HB Hr. unfold new_location.
  destruct (Z.even B) eqn:Ev.
  - reflexivity.
  - unfold new_location_odd. destruct (r =? 0); [reflexivity|]. f_equal.
    assert (Hodd : Z.odd B = true) by (rewrite <- Z.negb_even, Ev; reflexivity).
    apply Z.odd_spec in Hodd. destruct Hodd as [c Hc].
    destruct (Z.compare_spec (2 * r + 1) B), (Z.compare_spec (2 * r) B);
      try reflexivity; lia.
Qed.

Lemma loc_frac_scale c A B :
  0 < c -> 0 < B -> loc_frac (c * A) (c * B) = loc_frac A B.
Proof.
  intros Hc HB. unfold loc_frac.
  rewrite Z.mul_mod_distr_l by lia.
  replace (c * (A mod B) =? 0) with (A mod B =? 0).
  2:{ destruct (Z.eqb_spec (A mod B) 0) as [->|Hn].
      - now rewrite Z.mul_0_r.
      - symmetry. apply Z.eqb_neq. intros H. apply Z.mul_eq_0 in H. lia. }
  destruct (A mod B =? 0); [reflexivity|]. f_equal.
  rewrite Z.mul_assoc, (Z.mul_comm 2 c), <- Z.mul_assoc.
  symmetry. apply Zmult_compare_compat_l. lia.
Qed.

Lemma rec_frac_scale c A B :
  0 < c -> 0 < B -> rec_frac (c * A) (c * B) = rec_frac A B.
Proof.
  intros Hc HB. unfold rec_frac.
  now rewrite loc_frac_scale, Z.div_mul_cancel_l by lia.
Qed.

Lemma div_mod_double A B h b :
  0 < B -> 0 <= A -> A / B = 2 * h + b -> 0 <= b <= 1 ->
  A / (2 * B) = h /\ A mod (2 * B) = b * B + A mod B.
Proof.
  intros HB HA Hq Hb.
  pose proof (Z.div_mod A B ltac:(lia)) as Hdm.
  pose proof (Z.mod_pos_bound A B HB) as Hr.
  rewrite Hq in Hdm.
  assert (Hlt : 0 <= b * B + A mod B < 2 * B).
  { destruct (Z.eq_dec b 0) as [->|]; [lia|]. assert (b = 1) by lia. subst b. lia. }
  assert (Heq : A = 2 * B * h + (b * B + A mod B)).
  { rewrite Hdm at 1. ring. }
  split.
  - symmetry. now apply (Z.div_unique_pos A (2 * B) h (b * B + A mod B)).
  - symmetry. now apply (Z.mod_unique_pos A (2 * B) h (b * B + A mod B)).
Qed.

(** One shift to the right halves the fraction. *)
Lemma shr_1_frac A B :
  0 <= A -> 0 < B -> shr_1 (rec_frac A B) = rec_frac A (2 * B).
Proof.
  intros HA HB. unfold rec_frac.
  pose proof (Z.mod_pos_bound A B HB) as Hr.
  assert (Hq : 0 <= A / B) by (apply Z.div_pos; lia).
  assert (Hcase : forall h b, A / B = 2 * h + b -> 0 <= b <= 1 ->
            shr_record_of_loc (A / (2 * B)) (loc_frac A (2 * B))
            = Build_shr_record h (b =? 1) (negb (A mod B =? 0))).
  { intros h b Hhb Hb.
    destruct (div_mod_double A B h b HB HA Hhb Hb) as [-> Hm].
    unfold loc_frac. rewrite Hm.
    destruct (Z.eqb_spec (A mod B) 0) as [Hz|Hz].
    - rewrite Hz, Z.add_0_r.
      destruct (Z.eq_dec b 0) as [->|Hb0].
      + reflexivity.
      + assert (b = 1) by lia. subst b. rewrite Z.mul_1_l.
        replace (B =? 0) with false by (symmetry; apply Z.eqb_neq; lia).
        now rewrite Z.compare_refl.
    - replace (b * B + A mod B =? 0) with false by (symmetry; apply Z.eqb_neq; nia).
      destruct (Z.eq_dec b 0) as [->|Hb0].
      + replace (2 * (0 * B + A mod B) ?= 2 * B) with Lt
          by (symmetry; apply Z.compare_lt_iff; lia).
        reflexivity.
      + assert (b = 1) by lia. subst b.
        replace (2 * (1 * B + A mod B) ?= 2 * B) with Gt
          by (symmetry; apply Z.compare_gt_iff; lia).
        reflexivity. }
  assert (Hs : forall m, shr_1 (shr_record_of_loc m (loc_frac A B))
                 = let s := negb (A mod B =? 0) in
                   match m with
                   | Z0 => Build_shr_record 0 false s
                   | Zpos xH => Build_shr_record 0 true s
                   | Zpos (xO p) => Build_shr_record (Zpos p) false s
                   | Zpos (xI p) => Build_shr_record (Zpos p) true s
                   | Zneg xH => Build_shr_record 0 true s
                   | Zneg (xO p) => Build_shr_record (Zneg p) false s
                   | Zneg (xI p) => Build_shr_record (Zneg p) true s
                   end).
  { intros m. unfold loc_frac.
    destruct (A mod B =? 0); [reflexivity|].
    destruct (2 * (A mod B) ?= B); reflexivity. }
  rewrite Hs. cbv zeta.
  destruct (A / B) as [|p|p] eqn:Eq; [| |lia].
  - rewrite (Hcase 0 0); [reflexivity | lia | lia].
  - destruct p as [p|p|].
    + rewrite (Hcase (Zpos p) 1); [reflexivity | lia | lia].
    + rewrite (Hcase (Zpos p) 0); [reflexivity | lia | lia].
    + rewrite (Hcase 0 1); [reflexivity | lia | lia].
Qed.

Lemma iter_shr_frac A p : forall B,
  0 <= A -> 0 < B -> iter_pos shr_1 p (rec_frac A B) = rec_frac A (B * 2 ^ Zpos p).
Proof.
  induction p as [p IH|p IH|]; intros B HA HB; cbn [iter_pos].
  - rewrite shr_1_frac, IH, IH by (try apply Z.mul_pos_pos; try apply Z.pow_pos_nonneg; lia).
    f_equal. replace (Zpos p~1) with (Zpos p + Zpos p + 1) by lia.
    rewrite !Z.pow_add_r by lia. ring.
  - rewrite IH, IH by (try apply Z.mul_pos_pos; try apply Z.pow_pos_nonneg; lia).
    f_equal. replace (Zpos p~0) with (Zpos p + Zpos p) by lia.
    rewrite !Z.pow_add_r by lia. ring.
  - rewrite shr_1_frac by assumption. f_equal. rewrite Z.pow_1_r. ring.
Qed.

Lemma shr_frac A B e n :
  0 <= A -> 0 < B -> 0 <= n ->
  shr (rec_frac A B) e n = (rec_frac A (B * 2 ^ n), e + n).
Proof.
  intros HA HB Hn. destruct n as [|p|p]; [| |lia]; cbn [shr].
  - now rewrite Z.mul_1_r, Z.add_0_r.
  - now rewrite iter_shr_frac.
Qed.

Lemma Zdigits2_bounds q : 0 < q -> 2 ^ (Zdigits2 q - 1) <= q < 2 ^ Zdigits2 q.
Proof. destruct q as [|p|p]; try lia. intros _. apply digits2_bounds. Qed.

Lemma Zdigits2_eq q n : 2 ^ (n - 1) <= q < 2 ^ n -> 0 < q -> Zdigits2 q = n.
Proof. destruct q as [|p|p]; try lia. intros H _. now apply digits2_eq. Qed.

Lemma Zdigits2_shift q q' d :
  0 < q -> 0 <= d -> q * 2 ^ d <= q' < (q + 1) * 2 ^ d ->
  Zdigits2 q' = Zdigits2 q + d.
Proof.
  intros Hq Hd Hq'.
  pose proof (Zdigits2_bounds q Hq) as [Hlo Hhi].
  assert (Hk : 0 < Zdigits2 q) by (destruct q; cbn; lia).
  assert (HP : 0 < 2 ^ d) by (apply Z.pow_pos_nonneg; lia).
  apply Zdigits2_eq.
  - replace (Zdigits2 q + d - 1) with (Zdigits2 q - 1 + d) by lia.
    rewrite !Z.pow_add_r by lia. split.
    + apply Z.le_trans with (q * 2 ^ d); [|lia].
      apply Z.mul_le_mono_nonneg_r; lia.
    + apply Z.lt_le_trans with ((q + 1) * 2 ^ d); [lia|].
      apply Z.mul_le_mono_nonneg_r; lia.
  - apply Z.lt_le_trans with (q * 2 ^ d); [|lia]. now apply Z.mul_pos_pos.
Qed.

Lemma fexp_ge e : -1074 <= fexp prec emax e.
Proof. rewrite fexp_eq. lia. Qed.

(** The first rounding step, on the fraction [A / B] at exponent [e]. *)
Lemma shr_fexp_frac A B e :
  0 <= A -> 0 < B -> e <= fexp prec emax (Zdigits2 (A / B) + e) ->
  shr_fexp prec emax (A / B) e (loc_frac A B)
  = (rec_frac A (B * 2 ^ (fexp prec emax (Zdigits2 (A / B) + e) - e)),
     fexp prec emax (Zdigits2 (A / B) + e)).
Proof.
  intros HA HB He. unfold shr_fexp.
  change (shr_record_of_loc (A / B) (loc_frac A B)) with (rec_frac A B).
  rewrite shr_frac by lia. f_equal. lia.
Qed.

(** A finer first division gives the same float. *)
Lemma round_frac_refine A B e d :
  0 <= A -> 0 < B -> 0 <= d -> -1074 <= e - d ->
  e <= fexp prec emax (Zdigits2 (A / B) + e) ->
  round_frac (A * 2 ^ d) B (e - d) = round_frac A B e
  /\ e - d <= fexp prec emax (Zdigits2 (A * 2 ^ d / B) + (e - d)).
Proof.
  intros HA HB Hd Hlow He.
  destruct (Z.eq_dec d 0) as [->|Hd0].
  { rewrite Z.pow_0_r, Z.mul_1_r, Z.sub_0_r. split; [reflexivity | exact He]. }
  assert (HP : 0 < 2 ^ d) by (apply Z.pow_pos_nonneg; lia).
  assert (Hdig : 53 <= Zdigits2 (A / B)) by (rewrite fexp_eq in He; lia).
  assert (Hq0 : 0 <= A / B) by (apply Z.div_pos; lia).
  assert (Hq : 0 < A / B) by (destruct (A / B); cbn in Hdig; lia).
  assert (Hq' : A / B * 2 ^ d <= A * 2 ^ d / B < (A / B + 1) * 2 ^ d).
  { pose proof (Z.mul_div_le A B HB). pose proof (Z.mul_succ_div_gt A B HB).
    split.
    - apply Z.div_le_lower_bound; [lia|].
      replace (B * (A / B * 2 ^ d)) with (B * (A / B) * 2 ^ d) by ring.
      apply Z.mul_le_mono_nonneg_r; lia.
    - apply Z.div_lt_upper_bound; [lia|].
      replace (B * ((A / B + 1) * 2 ^ d)) with (B * Z.succ (A / B) * 2 ^ d)
        by (unfold Z.succ; ring).
      apply Z.mul_lt_mono_pos_r; lia. }
  pose proof (Zdigits2_shift (A / B) (A * 2 ^ d / B) d Hq Hd Hq') as Hdig'.
  assert (Hf : fexp prec emax (Zdigits2 (A * 2 ^ d / B) + (e - d))
               = fexp prec emax (Zdigits2 (A / B) + e))
    by (rewrite Hdig'; f_equal; lia).
  split; [|rewrite Hf; lia].
  unfold round_frac, binary_round_aux.
  rewrite (shr_fexp_frac A B e HA HB He).
  rewrite (shr_fexp_frac (A * 2 ^ d) B (e - d)) by (try rewrite Hf; lia).
  rewrite Hf.
  set (t := fexp prec emax (Zdigits2 (A / B) + e)) in *.
  replace (B * 2 ^ (t - (e - d))) with (2 ^ d * (B * 2 ^ (t - e))).
  2:{ replace (t - (e - d)) with (d + (t - e)) by lia.
      rewrite Z.pow_add_r by lia. ring. }
  rewrite (Z.mul_comm A (2 ^ d)).
  rewrite rec_frac_scale; [reflexivity | lia |].
  apply Z.mul_pos_pos; [lia | apply Z.pow_pos_nonneg; lia].
Qed.

Lemma round_frac_scale c A B e :
  0 < c -> 0 < B -> round_frac (c * A) (c * B) e = round_frac A B e.
Proof.
  intros Hc HB. unfold round_frac.
  now rewrite loc_frac_scale, Z.div_mul_cancel_l by lia.
Qed.

Lemma round_frac_cross A1 B1 A2 B2 e :
  0 < B1 -> 0 < B2 -> A1 * B2 = A2 * B1 ->
  round_frac A1 B1 e = round_frac A2 B2 e.
Proof.
  intros H1 H2 H.
  rewrite <- (round_frac_scale B2 A1 B1 e H2 H1).
  rewrite <- (round_frac_scale B1 A2 B2 e H1 H2).
  f_equal; lia.
Qed.

Lemma digits_frac_scale A1 B1 A2 B2 :
  0 < B1 -> 0 < B2 -> A1 * B2 = A2 * B1 -> A1 / B1 = A2 / B2.
Proof.
  intros H1 H2 H.
  rewrite <- (Z.div_mul_cancel_l A1 B1 B2) by lia.
  rewrite <- (Z.div_mul_cancel_l A2 B2 B1) by lia.
  f_equal; lia.
Qed.

(** Whatever the exponent of the first division, the float is the one
    nearest to the fraction. *)
Lemma round_frac_nearest A B e N Dn :
  0 <= A -> 0 < B -> 0 < Dn -> -1074 <= e ->
  e <= fexp prec emax (Zdigits2 (A / B) + e) ->
  A * 2 ^ (e + 1074) * Dn = N * 2 ^ 1074 * B ->
  round_frac A B e = nearest N Dn.
Proof.
  intros HA HB HD He Hf Hv.
  destruct (round_frac_refine A B e (e + 1074) HA HB ltac:(lia) ltac:(lia) Hf) as [H _].
  replace (e - (e + 1074)) with (-1074) in H by lia.
  rewrite <- H. unfold nearest. apply round_frac_cross; assumption.
Qed.

Lemma nearest_cross N1 D1 N2 D2 :
  0 < D1 -> 0 < D2 -> N1 * D2 = N2 * D1 -> nearest N1 D1 = nearest N2 D2.
Proof.
  intros H1 H2 H. unfold nearest. apply round_frac_cross; try assumption.
  rewrite <- !Z.mul_assoc, (Z.mul_comm (2 ^ 1074) D2), (Z.mul_comm (2 ^ 1074) D1).
  rewrite !Z.mul_assoc. now rewrite H.
Qed.

Lemma loc_frac_one A : loc_frac A 1 = loc_Exact.
Proof. unfold loc_frac. now rewrite Z.mod_1_r. Qed.

Lemma iter_xO m d : Zpos (Pos.iter xO m d) = Zpos m * 2 ^ Zpos d.
Proof.
  change (Pos.iter xO m d) with (shift_pos d m).
  rewrite shift_pos_correct. change (Z.pow_pos 2 d) with (2 ^ Zpos d). ring.
Qed.

(** The conversion of a whole number. *)
Lemma binary_round_nearest mx :
  binary_round prec emax false mx 0 = nearest (Zpos mx) 1.
Proof.
  unfold binary_round, shl_align. rewrite Z.add_0_r, Z.sub_0_r.
  pose proof (fexp_ge (Zpos (digits2_pos mx))) as Hge.
  destruct (fexp prec emax (Zpos (digits2_pos mx))) as [|p|d] eqn:Ef.
  - rewrite <- (loc_frac_one (Zpos mx)), <- (Z.div_1_r (Zpos mx)) at 1.
    apply round_frac_nearest; try lia.
    rewrite Z.div_1_r. cbn [Zdigits2]. rewrite Z.add_0_r, Ef. lia.
  - rewrite <- (loc_frac_one (Zpos mx)), <- (Z.div_1_r (Zpos mx)) at 1.
    apply round_frac_nearest; try lia.
    rewrite Z.div_1_r. cbn [Zdigits2]. rewrite Z.add_0_r, Ef. lia.
  - rewrite <- (loc_frac_one (Zpos (Pos.iter xO mx d))),
      <- (Z.div_1_r (Zpos (Pos.iter xO mx d))) at 1.
    apply round_frac_nearest; try lia.
    + rewrite Z.div_1_r, iter_xO.
      rewrite (Zdigits2_shift (Zpos mx) (Zpos mx * 2 ^ Zpos d) (Zpos d)) by lia.
      cbn [Zdigits2].
      replace (Zpos (digits2_pos mx) + Zpos d + Zneg d) with (Zpos (digits2_pos mx)) by lia.
      rewrite Ef. lia.
    + rewrite iter_xO.
      replace (2 ^ 1074) with (2 ^ Zpos d * 2 ^ (Zneg d + 1074))
        by (rewrite <- Z.pow_add_r by lia; f_equal; lia).
      ring.
Qed.

(** The quotient of the division has the digits that its operands give
    it. *)
Lemma Zdigits2_div m1 m2 s :
  0 < m1 -> 0 < m2 -> 0 <= Zdigits2 m1 - 1 + s - Zdigits2 m2 -> 0 <= s ->
  Zdigits2 m1 + s - Zdigits2 m2 <= Zdigits2 (m1 * 2 ^ s / m2).
Proof.
  intros H1 H2 Hk Hs.
  pose proof (Zdigits2_bounds m1 H1) as [Hlo1 _].
  pose proof (Zdigits2_bounds m2 H2) as [_ Hhi2].
  set (d1 := Zdigits2 m1) in *. set (d2 := Zdigits2 m2) in *.
  assert (Hd2 : 0 < d2) by (subst d2; destruct m2; cbn; lia).
  assert (Hd1 : 0 < d1) by (subst d1; destruct m1; cbn; lia).
  assert (Hq : 2 ^ (d1 - 1 + s - d2) <= m1 * 2 ^ s / m2).
  { apply Z.div_le_lower_bound; [lia|].
    apply Z.le_trans with (2 ^ d2 * 2 ^ (d1 - 1 + s - d2)).
    - apply Z.mul_le_mono_nonneg_r; [apply Z.pow_nonneg|]; lia.
    - rewrite <- Z.pow_add_r by lia.
      replace (d2 + (d1 - 1 + s - d2)) with (d1 - 1 + s) by lia.
      rewrite Z.pow_add_r by lia.
      apply Z.mul_le_mono_nonneg_r; [apply Z.pow_nonneg|]; lia. }
  assert (Hpos : 0 < m1 * 2 ^ s / m2).
  { apply Z.lt_le_trans with (2 ^ (d1 - 1 + s - d2)); [|exact Hq].
    apply Z.pow_pos_nonneg; lia. }
  pose proof (Zdigits2_bounds _ Hpos) as [_ Hhi].
  assert (d1 - 1 + s - d2 < Zdigits2 (m1 * 2 ^ s / m2)).
  { apply (Z.pow_lt_mono_r_iff 2); [lia | | lia].
    destruct (m1 * 2 ^ s / m2); cbn; lia. }
  lia.
Qed.

(** The conversion of a whole number of units [1 / m2]. *)
Lemma SFdiv_core_nearest m1 m2 :
  0 < m1 -> 0 < m2 ->
  (let '(q, e, l) := SFdiv_core_binary prec emax m1 0 m2 0 in
   binary_round_aux prec emax false q e l) = nearest m1 m2.
Proof.
  intros H1 H2. unfold SFdiv_core_binary.
  rewrite !Z.add_0_r, !Z.sub_0_l. change (0 - 0) with 0.
  set (e' := Z.min (fexp prec emax (Zdigits2 m1 - Zdigits2 m2)) 0).
  pose proof (fexp_ge (Zdigits2 m1 - Zdigits2 m2)) as Hge.
  assert (He' : -1074 <= e' <= 0) by (subst e'; lia).
  assert (Hm : match - e' with
               | 0 => m1
               | Zpos _ => Z.shiftl m1 (- e')
               | Zneg _ => 0
               end = m1 * 2 ^ (- e')).
  { destruct (- e') as [|p|p] eqn:E; [cbn; lia | | lia].
    apply Z.shiftl_mul_pow2. lia. }
  rewrite Hm. clear Hm.
  assert (HA : 0 < m1 * 2 ^ (- e')) by (apply Z.mul_pos_pos; [|apply Z.pow_pos_nonneg]; lia).
  pose proof (Z.mod_pos_bound (m1 * 2 ^ (- e')) m2 H2) as Hr.
  unfold Z.modulo in Hr.
  pose proof (eq_refl (m1 * 2 ^ (- e') / m2)) as Hq. unfold Z.div at 1 in Hq.
  destruct (Z.div_eucl (m1 * 2 ^ (- e')) m2) as [q r] eqn:Ediv.
  subst q. rewrite (new_location_frac m2 r H2 Hr).
  assert (Hrm : r = (m1 * 2 ^ (- e')) mod m2) by (unfold Z.modulo; now rewrite Ediv).
  rewrite Hrm.
  change (binary_round_aux prec emax false (m1 * 2 ^ (- e') / m2) e'
            (if (m1 * 2 ^ (- e')) mod m2 =? 0 then loc_Exact
             else loc_Inexact (2 * ((m1 * 2 ^ (- e')) mod m2) ?= m2)))
    with (round_frac (m1 * 2 ^ (- e')) m2 e').
  apply round_frac_nearest; try lia.
  - destruct (Z.eq_dec e' (-1074)) as [->|Hne].
    + apply fexp_ge.
    + assert (Hle : e' <= Zdigits2 m1 - Zdigits2 m2 - 53).
      { subst e'. rewrite fexp_eq in *. lia. }
      pose proof (Zdigits2_div m1 m2 (- e') H1 H2 ltac:(lia) ltac:(lia)) as Hd.
      rewrite fexp_eq. lia.
  - replace (2 ^ 1074) with (2 ^ (- e') * 2 ^ (e' + 1074))
      by (rewrite <- Z.pow_add_r by lia; f_equal; lia).
    ring.
Qed.

(** *** The decimal conversion rounds the value of the decimal *)

Lemma float_of_decimal_nearest m E :
  float_of_decimal false (Zpos m) E
  = nearest (Zpos m * 10 ^ Z.max E 0) (10 ^ Z.max (- E) 0).
Proof.
  unfold float_of_decimal.
  destruct (Z.leb_spec 0 E) as [HE|HE].
  - rewrite binary_round_nearest.
    replace (Z.max E 0) with E by lia. replace (Z.max (- E) 0) with 0 by lia.
    rewrite Z.pow_0_r. f_equal.
    rewrite Pos2Z.inj_mul, Z2Pos.id by (apply Z.pow_pos_nonneg; lia). reflexivity.
  - rewrite SFdiv_core_nearest by (try apply Z.pow_pos_nonneg; lia).
    replace (Z.max E 0) with 0 by lia. replace (Z.max (- E) 0) with (- E) by lia.
    now rewrite Z.pow_0_r, Z.mul_1_r.
Qed.

(** Zeros moved between the digits and the exponent do not change the
    float. *)
Lemma float_of_decimal_shift M E k :
  0 < M -> 0 <= k ->
  float_of_decimal false (M * 10 ^ k) (E - k) = float_of_decimal false M E.
Proof.
  intros HM Hk.
  assert (HP : 0 < M * 10 ^ k) by (apply Z.mul_pos_pos; [|apply Z.pow_pos_nonneg]; lia).
  destruct M as [|m|m]; try lia.
  destruct (Zpos m * 10 ^ k) as [|m'|m'] eqn:Em; try lia.
  rewrite !float_of_decimal_nearest, <- Em.
  apply nearest_cross; try (apply Z.pow_pos_nonneg; lia).
  rewrite <- !Z.mul_assoc, <- !Z.pow_add_r by lia.
  f_equal. f_equal. lia.
Qed.

Lemma binary_round_aux_sign s q e l :
  binary_round_aux prec emax s q e l
  = (if s then SFopp else fun x => x) (binary_round_aux prec emax false q e l).
Proof.
  unfold binary_round_aux.
  destruct (shr_fexp prec emax q e l) as [mrs e'].
  destruct (shr_fexp prec emax _ e' loc_Exact) as [mrs' e''].
  destruct (shr_m mrs'); [| destruct (_ <=? _) |]; destruct s; reflexivity.
Qed.

Lemma float_of_decimal_sign s M E :
  float_of_decimal s M E
  = (if s then SFopp else fun x => x) (float_of_decimal false M E).
Proof.
  unfold float_of_decimal. destruct M as [|m|m]; try (destruct s; reflexivity).
  destruct (0 <=? E).
  - unfold binary_round. destruct (shl_align _ _ _) as [mz ez].
    apply binary_round_aux_sign.
  - destruct (SFdiv_core_binary _ _ _ _ _ _) as [[q e] l].
    apply binary_round_aux_sign.
Qed.

(** *** A fraction within half a unit of a float rounds to it *)

Lemma loc_of_shr_record_of_loc q l : loc_of_shr_record (shr_record_of_loc q l) = l.
Proof. destruct l as [|[]]; reflexivity. Qed.

(** A first division that needs no shift: the quotient is rounded to an
    integer, and the mantissa [2^53] is halved. *)
Lemma round_aux_exact q e l r :
  fexp prec emax (Zdigits2 q + e) <= e -> -1074 <= e ->
  round_nearest_even q l = Zpos r -> Zpos r <= 2 ^ 53 ->
  (Zpos r < 2 ^ 53 -> e <= 971 ->
   binary_round_aux prec emax false q e l = S754_finite false r e)
  /\ (Zpos r = 2 ^ 53 -> e + 1 <= 971 ->
      binary_round_aux prec emax false q e l = S754_finite false (2 ^ 52)%positive (e + 1)).
Proof.
  intros Hf He Hr Hle.
  destruct (shr_fexp_exact (Zpos r) e ltac:(lia) He) as (m' & e' & Hm & He' & Hlt & Heq).
  split; intros H1 H2; unfold binary_round_aux, shr_fexp at 1;
    rewrite shr_nonpos by lia;
    rewrite shr_m_of_loc, loc_of_shr_record_of_loc, Hr;
    destruct (shr_fexp prec emax (Zpos r) e loc_Exact) as [mrs e''];
    cbn [fst snd] in Hm, He'; subst e''; rewrite Hm.
  - destruct (Hlt H1) as [-> ->].
    now replace (e <=? emax - prec) with true by (symmetry; apply Z.leb_le; cbn; lia).
  - destruct (Heq H1) as [-> ->].
    replace (e + 1 <=? emax - prec) with true by (symmetry; apply Z.leb_le; cbn; lia).
    reflexivity.
Qed.

Lemma frac_floor A B q :
  0 < B -> q * B <= A < (q + 1) * B -> A / B = q /\ A mod B = A - q * B.
Proof.
  intros HB H. split.
  - symmetry. apply (Z.div_unique_pos A B q (A - q * B)); lia.
  - symmetry. apply (Z.mod_unique_pos A B q (A - q * B)); lia.
Qed.

Lemma bounded_canonical m e :
  bounded prec emax m e = true ->
  fexp prec emax (Zpos (digits2_pos m) + e) = e /\ -1074 <= e <= 971
  /\ Zpos m < 2 ^ 53 /\ (-1074 < e -> 2 ^ 52 <= Zpos m).
Proof.
  unfold bounded, canonical_mantissa. intros H.
  apply andb_true_iff in H as [H1 H2].
  apply Z.eqb_eq in H1. apply Z.leb_le in H2.
  pose proof (digits2_bounds m) as [Hlo Hhi].
  pose proof (fexp_ge (Zpos (digits2_pos m) + e)) as Hge.
  split; [exact H1|]. split; [cbn in H2; lia|].
  rewrite fexp_eq in H1. split.
  - apply Z.lt_le_trans with (1 := Hhi). apply Z.pow_le_mono_r; lia.
  - intros He. apply Z.le_trans with (2 := Hlo). apply Z.pow_le_mono_r; lia.
Qed.

(** The fraction [A / B], counted in units of the last bit of the float
    [m * 2^e], lies within half a unit of [m]: it rounds to the float.
    Below a power of two the floats are twice as dense, and the fraction is
    to lie within a quarter of a unit. *)
Lemma round_frac_near m e A B :
  bounded prec emax m e = true -> 0 < B ->
  (2 * Zpos m - 1) * B < 2 * A < (2 * Zpos m + 1) * B ->
  (Zpos m = 2 ^ 52 -> -1074 < e -> (4 * Zpos m - 1) * B < 4 * A) ->
  (A < Zpos m * B -> Zpos m = 2 ^ 52 -> -1074 < e ->
   round_frac (2 * A) B (e - 1) = S754_finite false m e
   /\ e - 1 <= fexp prec emax (Zdigits2 (2 * A / B) + (e - 1)))
  /\ (Zpos m * B <= A \/ Zpos m <> 2 ^ 52 \/ e = -1074 ->
      round_frac A B e = S754_finite false m e
      /\ e <= fexp prec emax (Zdigits2 (A / B) + e)).
Proof.
  intros Hb HB [Hlo Hhi] Hq.
  destruct (bounded_canonical m e Hb) as (Hc & He & Hm & Hn).
  split.
  - intros HA Hm52 He1. specialize (Hq Hm52 He1).
    destruct (frac_floor (2 * A) B (2 * Zpos m - 1) HB ltac:(lia)) as [Hd Hr].
    assert (Hd53 : Zdigits2 (2 * Zpos m - 1) = 53)
      by (apply Zdigits2_eq; change (53 - 1) with 52; lia).
    split; [|rewrite Hd, Hd53, fexp_eq; lia].
    unfold round_frac, loc_frac. rewrite Hd, Hr.
    replace (2 * A - (2 * Zpos m - 1) * B =? 0) with false
      by (symmetry; apply Z.eqb_neq; lia).
    replace (2 * (2 * A - (2 * Zpos m - 1) * B) ?= B) with Gt
      by (symmetry; apply Z.compare_gt_iff; lia).
    destruct (round_aux_exact (2 * Zpos m - 1) (e - 1) (loc_Inexact Gt) (2 ^ 53)%positive)
      as [_ H]; try lia.
    + rewrite Hd53, fexp_eq. lia.
    + cbn [round_nearest_even]. rewrite Hm52. reflexivity.
    + rewrite H by lia. f_equal; [|lia].
      apply Pos2Z.inj. rewrite Hm52. reflexivity.
  - intros Hcase.
    destruct (Z_le_gt_dec (Zpos m * B) A) as [HA|HA].
    + destruct (frac_floor A B (Zpos m) HB ltac:(lia)) as [Hd Hr].
      split; [|rewrite Hd; cbn [Zdigits2]; lia].
      unfold round_frac, loc_frac. rewrite Hd, Hr.
      destruct (round_aux_exact (Zpos m) e
                  (if A - Zpos m * B =? 0 then loc_Exact
                   else loc_Inexact (2 * (A - Zpos m * B) ?= B)) m) as [H _];
        try lia.
      * cbn [Zdigits2]. lia.
      * destruct (A - Zpos m * B =? 0); [reflexivity|].
        replace (2 * (A - Zpos m * B) ?= B) with Lt
          by (symmetry; apply Z.compare_lt_iff; lia).
        reflexivity.
      * apply H; lia.
    + destruct (frac_floor A B (Zpos m - 1) HB ltac:(lia)) as [Hd Hr].
      assert (Hf : fexp prec emax (Zdigits2 (Zpos m - 1) + e) = e).
      { destruct (Z.eq_dec e (-1074)) as [->|Hne].
        - assert (Hd' : Zdigits2 (Zpos m - 1) <= 53).
          { destruct (Zpos m - 1) as [|p|p] eqn:Ep; cbn [Zdigits2]; try lia.
            apply digits2_le; lia. }
          rewrite fexp_eq. lia.
        - assert (Hd' : Zdigits2 (Zpos m - 1) = 53)
            by (apply Zdigits2_eq; change (53 - 1) with 52; lia).
          rewrite Hd', fexp_eq. lia. }
      split; [|rewrite Hd, Hf; lia].
      unfold round_frac, loc_frac. rewrite Hd, Hr.
      replace (A - (Zpos m - 1) * B =? 0) with false
        by (symmetry; apply Z.eqb_neq; lia).
      replace (2 * (A - (Zpos m - 1) * B) ?= B) with Gt
        by (symmetry; apply Z.compare_gt_iff; lia).
      destruct (round_aux_exact (Zpos m - 1) e (loc_Inexact Gt) m) as [H _]; try lia.
      * cbn [round_nearest_even]. lia.
      * apply H; lia.
Qed.

(** The same for a fraction [N / Dn] of units: the fraction lies within
    half a unit of the last bit of the float (a quarter below a power of
    two), so the float is the nearest one. *)
Lemma nearest_near m e N Dn :
  bounded prec emax m e = true -> 0 < Dn -> 0 <= N ->
  (2 * Zpos m - 1) * (Dn * 2 ^ (e + 1074)) < 2 * (N * 2 ^ 1074)
    < (2 * Zpos m + 1) * (Dn * 2 ^ (e + 1074)) ->
  (Zpos m = 2 ^ 52 -> -1074 < e ->
   (4 * Zpos m - 1) * (Dn * 2 ^ (e + 1074)) < 4 * (N * 2 ^ 1074)) ->
  nearest N Dn = S754_finite false m e.
Proof.
  intros Hb HD HN Hnear Hq.
  destruct (bounded_canonical m e Hb) as (Hc & He & Hm & Hn).
  assert (HP : 0 < 2 ^ (e + 1074)) by (apply Z.pow_pos_nonneg; lia).
  assert (HB : 0 < Dn * 2 ^ (e + 1074)) by now apply Z.mul_pos_pos.
  assert (HA : 0 <= N * 2 ^ 1074) by (apply Z.mul_nonneg_nonneg; [|apply Z.pow_nonneg]; lia).
  destruct (round_frac_near m e (N * 2 ^ 1074) (Dn * 2 ^ (e + 1074)) Hb HB Hnear Hq)
    as [H1 H2].
  set (A := N * 2 ^ 1074) in *. set (B := Dn * 2 ^ (e + 1074)) in *.
  destruct (Z_le_gt_dec (Zpos m * B) A) as [Hm1|Hm1];
    [|destruct (Z.eq_dec (Zpos m) (2 ^ 52)) as [Hm2|Hm2];
      [destruct (Z.eq_dec e (-1074)) as [He1|He1]|]].
  - destruct H2 as [<- Hf]; [now left|].
    symmetry. apply round_frac_nearest; try lia; subst A B; ring.
  - destruct H2 as [<- Hf]; [now right; right|].
    symmetry. apply round_frac_nearest; try lia; subst A B; ring.
  - destruct H1 as [<- Hf]; try lia.
    symmetry. apply round_frac_nearest; try lia; subst A B.
    replace (e + 1074) with (1 + (e - 1 + 1074)) by lia.
    rewrite (Z.pow_add_r 2 1) by lia. change (2 ^ 1) with 2. ring.
  - destruct H2 as [<- Hf]; [now right; left|].
    symmetry. apply round_frac_nearest; try lia; subst A B; ring.
Qed.

(** *** Seventeen digits are enough *)

Lemma scale_lt a b2 E1 T S K :
  0 < T -> 0 < K -> E1 * T = S * K -> a * S < b2 * T -> a * E1 < b2 * K.
Proof.
  intros HT HK HE H. apply (Z.mul_lt_mono_pos_r T); [exact HT|].
  replace (a * E1 * T) with (a * (E1 * T)) by ring. rewrite HE.
  replace (a * (S * K)) with (a * S * K) by ring.
  replace (b2 * K * T) with (b2 * T * K) by ring.
  now apply Z.mul_lt_mono_pos_r.
Qed.

Lemma pow2_split e :
  -1074 <= e -> 2 ^ (e + 1074) * 2 ^ Z.max (- e) 0 = 2 ^ Z.max e 0 * 2 ^ 1074.
Proof. intros He. rewrite <- !Z.pow_add_r by lia. f_equal. lia. Qed.

Lemma scaled_eq m e k :
  scaled m e k
  = (Zpos m * (2 ^ Z.max e 0 * 10 ^ Z.max (- k) 0), 2 ^ Z.max (- e) 0 * 10 ^ Z.max k 0).
Proof. unfold scaled. f_equal. ring. Qed.

Lemma reads_back_spec D j m e :
  reads_back D j m e = true <-> float_of_decimal false D j = S754_finite false m e.
Proof.
  unfold reads_back. split.
  - destruct (float_of_decimal false D j) as [| | |[] m' e']; try discriminate.
    intros H. apply andb_true_iff in H as [H1 H2].
    apply Pos.eqb_eq in H1. apply Z.eqb_eq in H2. now subst.
  - intros ->. now rewrite Pos.eqb_refl, Z.eqb_refl.
Qed.

(** A decimal [D * 10^j] within half a unit of the last bit of the float
    (a quarter below a power of two) reads back as the float. *)
Lemma reads_back_near m e j D :
  bounded prec emax m e = true -> 0 < D ->
  forall W num den,
  W = 2 ^ Z.max e 0 * 10 ^ Z.max (- j) 0 -> num = Zpos m * W ->
  den = 2 ^ Z.max (- e) 0 * 10 ^ Z.max j 0 ->
  2 * num - W < 2 * (D * den) < 2 * num + W ->
  (Zpos m = 2 ^ 52 -> 4 * num - W < 4 * (D * den)) ->
  reads_back D j m e = true.
Proof.
  intros Hb HD W num den HW Hnum Hden Hnear Hq.
  destruct (bounded_canonical m e Hb) as (Hc & He & Hm & Hn).
  apply reads_back_spec. destruct D as [|d|d]; try lia.
  rewrite float_of_decimal_nearest.
  pose proof (pow2_split e ltac:(lia)) as HE.
  assert (HK : 0 < 2 ^ 1074) by (apply Z.pow_pos_nonneg; lia).
  assert (HE1 : 0 < 2 ^ (e + 1074)) by (apply Z.pow_pos_nonneg; lia).
  set (P := 10 ^ Z.max j 0) in *. set (Q := 10 ^ Z.max (- j) 0) in *.
  set (S := 2 ^ Z.max e 0) in *. set (T := 2 ^ Z.max (- e) 0) in *.
  assert (HP : 0 < P) by (apply Z.pow_pos_nonneg; lia).
  assert (HQ : 0 < Q) by (apply Z.pow_pos_nonneg; lia).
  assert (HS : 0 < S) by (apply Z.pow_pos_nonneg; lia).
  assert (HT : 0 < T) by (apply Z.pow_pos_nonneg; lia).
  apply nearest_near; try assumption.
  - apply Z.mul_nonneg_nonneg; lia.
  - set (K := 2 ^ 1074) in *. set (E1 := 2 ^ (e + 1074)) in *.
    clearbody P Q S T K E1. subst W num den.
    assert (HE' : K * S = T * E1) by lia.
    split.
    + replace ((2 * Zpos m - 1) * (Q * E1)) with ((2 * Zpos m - 1) * Q * E1) by ring.
      replace (2 * (Zpos d * P * K)) with (2 * Zpos d * P * K) by ring.
      apply (scale_lt _ _ E1 T S K HT HK HE).
      replace ((2 * Zpos m - 1) * Q * S) with (2 * (Zpos m * (S * Q)) - S * Q) by ring.
      replace (2 * Zpos d * P * T) with (2 * (Zpos d * (T * P))) by ring.
      lia.
    + replace ((2 * Zpos m + 1) * (Q * E1)) with ((2 * Zpos m + 1) * Q * E1) by ring.
      replace (2 * (Zpos d * P * K)) with (2 * Zpos d * P * K) by ring.
      apply (scale_lt _ _ K S T E1 HS HE1 HE').
      replace ((2 * Zpos m + 1) * Q * S) with (2 * (Zpos m * (S * Q)) + S * Q) by ring.
      replace (2 * Zpos d * P * T) with (2 * (Zpos d * (T * P))) by ring.
      lia.
  - intros Hm52 _. specialize (Hq Hm52).
    set (K := 2 ^ 1074) in *. set (E1 := 2 ^ (e + 1074)) in *.
    clearbody P Q S T K E1. subst W num den.
    replace ((4 * Zpos m - 1) * (Q * E1)) with ((4 * Zpos m - 1) * Q * E1) by ring.
    replace (4 * (Zpos d * P * K)) with (4 * Zpos d * P * K) by ring.
    apply (scale_lt _ _ E1 T S K HT HK HE).
    replace ((4 * Zpos m - 1) * Q * S) with (4 * (Zpos m * (S * Q)) - S * Q) by ring.
    replace (4 * Zpos d * P * T) with (4 * (Zpos d * (T * P))) by ring.
    lia.
Qed.

Lemma decpt_start_table :
  forallb (fun i => decpt_start_ok (Z.of_nat i - 1074)) (seq 0 2098) = true.
Proof. vm_compute. reflexivity. Qed.

Lemma decpt_start t : -1074 <= t <= 1023 -> decpt_start_ok t = true.
Proof.
  intros Ht. pose proof decpt_start_table as H.
  rewrite forallb_forall in H. specialize (H (Z.to_nat (t + 1074))).
  replace (Z.of_nat (Z.to_nat (t + 1074)) - 1074) with t in H by lia.
  apply H. apply in_seq. lia.
Qed.

(** The search stops at its start or after a power of ten that is not above
    the float. *)
Lemma find_decpt_spec m e fuel : forall k,
  find_decpt fuel m e k = k
  \/ snd (scaled m e (find_decpt fuel m e k - 1))
     <= fst (scaled m e (find_decpt fuel m e k - 1)).
Proof.
  induction fuel as [|f IH]; intros k; [now left|].
  cbn [find_decpt]. destruct (scaled m e k) as [n d] eqn:Es.
  destruct (Z.ltb_spec n d) as [Hlt|Hge]; [now left|].
  destruct (IH (k + 1)) as [-> | H]; [|now right].
  right. replace (k + 1 - 1) with k by lia. now rewrite Es.
Qed.

(** The float is not below [10^(decpt - 1)]. *)
Lemma decpt_lower m e :
  bounded prec emax m e = true ->
  snd (scaled m e (decpt m e - 1)) <= fst (scaled m e (decpt m e - 1)).
Proof.
  intros Hb. destruct (bounded_canonical m e Hb) as (Hc & He & Hm & Hn).
  unfold decpt. cbv zeta.
  set (t := Zpos (digits2_pos m) + e - 1).
  destruct (find_decpt_spec m e 4 (t * 1233 / 4096 - 1)) as [-> | H]; [|exact H].
  pose proof (digits2_bounds m) as [Hlo Hhi].
  assert (Hd : Zpos (digits2_pos m) <= 53) by (apply digits2_le; lia).
  pose proof (decpt_start t ltac:(lia)) as Hs.
  unfold decpt_start_ok in Hs. cbv zeta in Hs. apply Z.leb_le in Hs.
  replace (t * 1233 / 4096 - 1 - 1) with (t * 1233 / 4096 - 2) by lia.
  set (k := t * 1233 / 4096 - 2) in *.
  rewrite scaled_eq. cbn [fst snd].
  assert (HX : 2 ^ Z.max t 0 * 2 ^ Z.max (- e) 0
               = 2 ^ (Zpos (digits2_pos m) - 1) * 2 ^ Z.max e 0 * 2 ^ Z.max (- t) 0).
  { rewrite <- !Z.pow_add_r by lia. f_equal. lia. }
  assert (Ha : 0 < 10 ^ Z.max k 0) by (apply Z.pow_pos_nonneg; lia).
  assert (Hb' : 0 < 10 ^ Z.max (- k) 0) by (apply Z.pow_pos_nonneg; lia).
  assert (HS : 0 < 2 ^ Z.max e 0) by (apply Z.pow_pos_nonneg; lia).
  assert (HT : 0 < 2 ^ Z.max (- e) 0) by (apply Z.pow_pos_nonneg; lia).
  assert (Ht1 : 0 < 2 ^ Z.max t 0) by (apply Z.pow_pos_nonneg; lia).
  assert (Ht2 : 0 < 2 ^ Z.max (- t) 0) by (apply Z.pow_pos_nonneg; lia).
  set (a := 10 ^ Z.max k 0) in *. set (b1 := 10 ^ Z.max (- k) 0) in *.
  set (S := 2 ^ Z.max e 0) in *. set (T := 2 ^ Z.max (- e) 0) in *.
  set (t1 := 2 ^ Z.max t 0) in *. set (t2 := 2 ^ Z.max (- t) 0) in *.
  set (md := 2 ^ (Zpos (digits2_pos m) - 1)) in *.
  clearbody a b1 S T t1 t2 md.
  apply (Z.mul_le_mono_pos_r _ _ t2 Ht2).
  apply Z.le_trans with (t1 * b1 * T).
  - replace (T * a * t2) with (t2 * a * T) by ring.
    apply Z.mul_le_mono_nonneg_r; lia.
  - replace (t1 * b1 * T) with (t1 * T * b1) by ring. rewrite HX.
    replace (md * S * t2 * b1) with (md * (S * b1 * t2)) by ring.
    replace (Zpos m * (S * b1) * t2) with (Zpos m * (S * b1 * t2)) by ring.
    apply Z.mul_le_mono_nonneg_r; [|lia].
    apply Z.mul_nonneg_nonneg; [apply Z.mul_nonneg_nonneg|]; lia.
Qed.

(** The float has at least seventeen digits before the point when the
    point is moved [decpt - 17] places. *)
Lemma decpt_17 m e :
  bounded prec emax m e = true ->
  10 ^ 16 * snd (scaled m e (decpt m e - 17)) <= fst (scaled m e (decpt m e - 17)).
Proof.
  intros Hb. pose proof (decpt_lower m e Hb) as H.
  set (dp := decpt m e) in *. rewrite scaled_eq in *. cbn [fst snd] in *.
  assert (HX : 10 ^ Z.max (dp - 1) 0 * 10 ^ Z.max (- (dp - 17)) 0
               = 10 ^ 16 * 10 ^ Z.max (- (dp - 1)) 0 * 10 ^ Z.max (dp - 17) 0).
  { rewrite <- !Z.pow_add_r by lia. f_equal. lia. }
  assert (Ha : 0 < 10 ^ Z.max (dp - 1) 0) by (apply Z.pow_pos_nonneg; lia).
  assert (Hb1 : 0 < 10 ^ Z.max (- (dp - 1)) 0) by (apply Z.pow_pos_nonneg; lia).
  assert (Hc : 0 < 10 ^ Z.max (- (dp - 17)) 0) by (apply Z.pow_pos_nonneg; lia).
  assert (Hf : 0 < 10 ^ Z.max (dp - 17) 0) by (apply Z.pow_pos_nonneg; lia).
  assert (HS : 0 < 2 ^ Z.max e 0) by (apply Z.pow_pos_nonneg; lia).
  assert (HT : 0 < 2 ^ Z.max (- e) 0) by (apply Z.pow_pos_nonneg; lia).
  set (a := 10 ^ Z.max (dp - 1) 0) in *. set (b1 := 10 ^ Z.max (- (dp - 1)) 0) in *.
  set (c := 10 ^ Z.max (- (dp - 17)) 0) in *. set (f := 10 ^ Z.max (dp - 17) 0) in *.
  set (S := 2 ^ Z.max e 0) in *. set (T := 2 ^ Z.max (- e) 0) in *.
  set (K := 10 ^ 16) in *.
  clearbody a b1 c f S T K.
  apply (Z.mul_le_mono_pos_r _ _ b1 Hb1).
  replace (K * (T * f) * b1) with (T * (K * b1 * f)) by ring. rewrite <- HX.
  replace (T * (a * c)) with (T * a * c) by ring.
  replace (Zpos m * (S * c) * b1) with (Zpos m * (S * b1) * c) by ring.
  apply Z.mul_le_mono_nonneg_r; lia.
Qed.

Lemma digits_at_reads m e dp n D :
  digits_at m e dp n = Some D -> reads_back D (dp - n) m e = true.
Proof.
  unfold digits_at. cbv zeta.
  destruct (scaled m e (dp - n)) as [num den].
  destruct (reads_back (num / den) (dp - n) m e) eqn:Hlo;
    destruct (reads_back (num / den + 1) (dp - n) m e) eqn:Hhi;
    try discriminate.
  - destruct (2 * (num mod den) ?= den); [destruct (Z.even (num / den))| |];
      intros [= <-]; assumption.
  - intros [= <-]. assumption.
  - intros [= <-]. assumption.
Qed.

(** With seventeen digits, the decimal below the float or the one above it
    reads back as the float. *)
Lemma digits_at_17 m e :
  bounded prec emax m e = true -> exists D, digits_at m e (decpt m e) 17 = Some D.
Proof.
  intros Hb. pose proof (decpt_17 m e Hb) as H17.
  destruct (bounded_canonical m e Hb) as (Hc & He & Hm & Hn).
  unfold digits_at. cbv zeta.
  set (j := decpt m e - 17) in *.
  pose proof (reads_back_near m e j) as Hnear.
  rewrite scaled_eq in *. cbn [fst snd] in H17.
  set (W := 2 ^ Z.max e 0 * 10 ^ Z.max (- j) 0) in *.
  set (den := 2 ^ Z.max (- e) 0 * 10 ^ Z.max j 0) in *.
  set (num := Zpos m * W) in *.
  assert (HW : 0 < W)
    by (apply Z.mul_pos_pos; apply Z.pow_pos_nonneg; lia).
  assert (Hden : 0 < den)
    by (apply Z.mul_pos_pos; apply Z.pow_pos_nonneg; lia).
  specialize (fun D H => Hnear D Hb H W num den eq_refl eq_refl eq_refl).
  pose proof (Z.div_mod num den ltac:(lia)) as Hdm.
  pose proof (Z.mod_pos_bound num den Hden) as Hr.
  set (lo := num / den) in *. set (r := num mod den) in *.
  assert (H53 : 2 ^ 53 < 10 ^ 16) by (vm_compute; reflexivity).
  assert (HdW : den < W).
  { apply (Z.mul_lt_mono_pos_l (10 ^ 16)); [lia|].
    apply Z.le_lt_trans with (1 := H17). subst num.
    apply Z.lt_trans with (2 ^ 53 * W).
    - apply Z.mul_lt_mono_pos_r; lia.
    - apply Z.mul_lt_mono_pos_r; lia. }
  assert (HdW2 : Zpos m = 2 ^ 52 -> 2 * den < W).
  { intros Hm52. apply (Z.mul_lt_mono_pos_l (10 ^ 16)); [lia|].
    apply Z.le_lt_trans with (2 * num); [lia|]. subst num. rewrite Hm52.
    replace (2 * (2 ^ 52 * W)) with (2 ^ 53 * W) by (change (2 ^ 53) with (2 * 2 ^ 52); ring).
    apply Z.mul_lt_mono_pos_r; lia. }
  assert (Hlo : 0 < lo).
  { assert (10 ^ 16 <= lo); [|lia].
    apply Z.div_le_lower_bound; [lia|]. lia. }
  clearbody W den num lo r.
  assert (Hcase : reads_back lo j m e = true \/ reads_back (lo + 1) j m e = true).
  { destruct (Z_le_gt_dec (2 * r) den) as [Hh|Hh].
    - left. apply Hnear; [lia | | intros Hm52; specialize (HdW2 Hm52)];
        replace (lo * den) with (den * lo) by ring; lia.
    - right. apply Hnear; [lia | | intros Hm52; specialize (HdW2 Hm52)];
        replace ((lo + 1) * den) with (den * lo + den) by ring; lia. }
  destruct (reads_back lo j m e), (reads_back (lo + 1) j m e).
  - destruct (2 * r ?= den); [destruct (Z.even lo)| |]; eexists; reflexivity.
  - eexists; reflexivity.
  - eexists; reflexivity.
  - destruct Hcase; discriminate.
Qed.

Lemma shortest_from_some m e dp fuel : forall n k,
  (k < fuel)%nat -> (exists D, digits_at m e dp (n + Z.of_nat k) = Some D) ->
  exists D k', (k' <= k)%nat
    /\ shortest_from fuel m e dp n = (D, n + Z.of_nat k')
    /\ digits_at m e dp (n + Z.of_nat k') = Some D.
Proof.
  induction fuel as [|f IH]; intros n k Hk [D HD]; [lia|].
  cbn [shortest_from].
  destruct (digits_at m e dp n) as [D0|] eqn:E0.
  - exists D0, O. rewrite Z.add_0_r. repeat split; [lia | exact E0].
  - destruct k as [|k].
    + rewrite Z.add_0_r in HD. congruence.
    + destruct (IH (n + 1) k ltac:(lia)) as (D1 & k' & Hk' & Hs & Hd).
      { exists D. rewrite <- HD. f_equal. lia. }
      exists D1, (S k'). replace (n + Z.of_nat (S k')) with (n + 1 + Z.of_nat k') by lia.
      repeat split; [lia | exact Hs | exact Hd].
Qed.

(** The digits that [repr] chooses read back as the float. *)
Lemma shortest_reads_back m e :
  bounded prec emax m e = true ->
  exists D n,
    shortest_from 17 m e (decpt m e) 1 = (D, n)
    /\ 0 < D
    /\ float_of_decimal false D (decpt m e - n) = S754_finite false m e.
Proof.
  intros Hb.
  destruct (shortest_from_some m e (decpt m e) 17 1 16 ltac:(lia) (digits_at_17 m e Hb))
    as (D & k & _ & Hs & Hd).
  exists D, (1 + Z.of_nat k). split; [exact Hs|].
  apply digits_at_reads, reads_back_spec in Hd. split; [|exact Hd].
  destruct D as [|d|d]; [discriminate Hd | lia | discriminate Hd].
Qed.

End Rounding.

(** *** The text of a float is read as its digits *)

Lemma digit_char_value d :
  (0 <= d < 10)%Z -> is_digit (digit_char d) = true /\ digit_value (digit_char d) = d.
Proof.
  intros H.
  assert (Hc : (d = 0 \/ d = 1 \/ d = 2 \/ d = 3 \/ d = 4 \/ d = 5 \/ d = 6 \/ d = 7
               \/ d = 8 \/ d = 9)%Z) by lia.
  repeat (destruct Hc as [-> | Hc]; [split; reflexivity|]). subst d. split; reflexivity.
Qed.

Lemma Z_of_digits_acc_eq s : forall a,
  Z_of_digits_acc a s = (a * 10 ^ Z.of_nat (String.length s) + Z_of_digits s)%Z.
Proof.
  induction s as [|c s IH]; intros a.
  - cbn. lia.
  - unfold Z_of_digits. cbn [Z_of_digits_acc String.length].
    rewrite (IH (10 * a + digit_value c)%Z), (IH (10 * 0 + digit_value c)%Z).
    rewrite Nat2Z.inj_succ, Z.pow_succ_r by lia. ring.
Qed.

Lemma Z_of_digits_acc_app s t : forall a,
  Z_of_digits_acc a (s ++ t) = Z_of_digits_acc (Z_of_digits_acc a s) t.
Proof. induction s as [|c s IH]; intros a; [reflexivity | apply IH]. Qed.

Lemma Z_of_digits_app s t :
  Z_of_digits (s ++ t)
  = (Z_of_digits s * 10 ^ Z.of_nat (String.length t) + Z_of_digits t)%Z.
Proof.
  unfold Z_of_digits at 1. rewrite Z_of_digits_acc_app.
  now rewrite Z_of_digits_acc_eq.
Qed.

Lemma Z_of_digits_zeros k : Z_of_digits (zeros k) = 0%Z.
Proof.
  induction k as [|k IH]; [reflexivity|].
  change (zeros (S k)) with ("0" ++ zeros k)%string. rewrite Z_of_digits_app, IH. reflexivity.
Qed.

Lemma length_zeros k : String.length (zeros k) = k.
Proof. induction k as [|k IH]; [reflexivity|]. cbn [zeros String.length]. now rewrite IH. Qed.

Lemma all_digits_zeros k : all_chars is_digit (zeros k) = true.
Proof. induction k as [|k IH]; [reflexivity|]. cbn [zeros all_chars]. now rewrite IH. Qed.

Lemma length_append s t :
  String.length (s ++ t)%string = (String.length s + String.length t)%nat.
Proof. induction s as [|c s IH]; [reflexivity|]. cbn [append String.length]. now rewrite IH. Qed.

(** *** The digits of a whole number *)

Lemma decimal_acc_S f n acc :
  decimal_acc (S f) n acc
  = if (n <? 10)%Z then String (digit_char (n mod 10)) acc
    else decimal_acc f (n / 10) (String (digit_char (n mod 10)) acc).
Proof. reflexivity. Qed.

Lemma decimal_acc_spec fuel : forall n acc,
  (0 <= n < 2 ^ Z.of_nat (S fuel))%Z ->
  exists ds, decimal_acc (S fuel) n acc = (ds ++ acc)%string
    /\ all_chars is_digit ds = true /\ ds <> "" /\ Z_of_digits ds = n.
Proof.
  induction fuel as [|fuel IH]; intros n acc Hn.
  - rewrite decimal_acc_S. replace (n <? 10)%Z with true by (symmetry; apply Z.ltb_lt; cbn in Hn; lia).
    assert (Hd : (0 <= n < 10)%Z) by (cbn in Hn; lia).
    rewrite (Z.mod_small n 10 Hd). destruct (digit_char_value n Hd) as [H1 H2].
    exists (String (digit_char n) ""). repeat split.
    + cbn [all_chars]. now rewrite H1.
    + discriminate.
    + unfold Z_of_digits. cbn [Z_of_digits_acc]. lia.
  - rewrite decimal_acc_S. pose proof (Z.mod_pos_bound n 10 eq_refl) as Hm.
    destruct (digit_char_value (n mod 10) Hm) as [H1 H2].
    destruct (Z.ltb_spec n 10) as [Hlt|Hge].
    + rewrite (Z.mod_small n 10) in * by lia.
      exists (String (digit_char n) ""). repeat split.
      * cbn [all_chars]. now rewrite H1.
      * discriminate.
      * unfold Z_of_digits. cbn [Z_of_digits_acc]. lia.
    + assert (Hq : (0 <= n / 10 < 2 ^ Z.of_nat (S fuel))%Z).
      { split; [apply Z.div_pos; lia|].
        apply Z.div_lt_upper_bound; [lia|].
        rewrite (Nat2Z.inj_succ (S fuel)), Z.pow_succ_r in Hn by lia. lia. }
      destruct (IH (n / 10)%Z (String (digit_char (n mod 10)) acc) Hq)
        as (ds & Hds & Hall & Hne & Hv).
      exists (ds ++ String (digit_char (n mod 10)) "")%string. repeat split.
      * rewrite Hds, append_assoc. reflexivity.
      * rewrite all_chars_app, Hall. cbn [all_chars]. now rewrite H1.
      * destruct ds; [congruence | discriminate].
      * rewrite Z_of_digits_app, Hv. unfold Z_of_digits. cbn [Z_of_digits_acc String.length].
        rewrite H2. pose proof (Z.div_mod n 10 ltac:(lia)). cbn. lia.
Qed.

Lemma decimal_spec n :
  (0 <= n)%Z ->
  all_chars is_digit (decimal n) = true /\ decimal n <> "" /\ Z_of_digits (decimal n) = n.
Proof.
  intros Hn. unfold decimal.
  destruct (decimal_acc_spec (Z.to_nat (Z.log2 n)) n "") as (ds & Hds & H).
  - split; [exact Hn|]. rewrite Nat2Z.inj_succ, Z2Nat.id by apply Z.log2_nonneg.
    destruct (Z.eq_dec n 0) as [->|Hne]; [reflexivity|].
    apply Z.log2_spec. lia.
  - rewrite Hds, append_nil_r. exact H.
Qed.

(** *** The zeros at the end *)

Lemma strip_zeros_rev_spec s : exists k, s = (zeros k ++ strip_zeros_rev s)%string.
Proof.
  induction s as [|c s [k IH]]; [now exists O|].
  cbn [strip_zeros_rev]. destruct (Ascii.eqb_spec c "0") as [->|Hc].
  - exists (S k). cbn [zeros append]. now rewrite <- IH.
  - now exists O.
Qed.

Lemma rev_str_app s t : forall acc,
  rev_str (s ++ t)%string acc = rev_str t (rev_str s acc).
Proof. induction s as [|c s IH]; intros acc; [reflexivity | apply IH]. Qed.

Lemma rev_str_zeros k : forall acc, rev_str (zeros k) acc = (zeros k ++ acc)%string.
Proof.
  induction k as [|k IH]; intros acc; [reflexivity|].
  cbn [zeros rev_str]. rewrite IH. clear IH.
  induction k as [|k IH]; [reflexivity|]. cbn [zeros append]. now rewrite IH.
Qed.

Lemma rev_str_involutive s : rev_str (rev_str s "") "" = s.
Proof.
  induction s as [|c s IH]; [reflexivity|].
  cbn [rev_str]. rewrite (rev_str_acc s (String c "")), rev_str_app, IH. reflexivity.
Qed.

Lemma strip_trailing_zeros_spec s :
  exists k, s = (strip_trailing_zeros s ++ zeros k)%string.
Proof.
  unfold strip_trailing_zeros.
  destruct (strip_zeros_rev_spec (rev_str s "")) as [k Hk].
  exists k. rewrite <- (rev_str_involutive s) at 1. rewrite Hk at 1.
  rewrite rev_str_app, rev_str_zeros, append_nil_r. apply rev_str_acc.
Qed.

(** *** The parser on the layouts of [repr] *)

Lemma span_digits_all ds : all_chars is_digit ds = true -> span_digits ds = (ds, "").
Proof.
  induction ds as [|c ds IH]; [reflexivity|]. cbn [all_chars span_digits].
  intros H. apply andb_true_iff in H as [Hc Hd]. now rewrite Hc, (IH Hd).
Qed.

Lemma span_digits_app ds c r :
  all_chars is_digit ds = true -> is_digit c = false ->
  span_digits (ds ++ String c r) = (ds, String c r).
Proof.
  intros Hd Hc. induction ds as [|d ds IH].
  - cbn [append span_digits]. now rewrite Hc.
  - cbn [all_chars] in Hd. apply andb_true_iff in Hd as [Hd1 Hd2].
    cbn [append span_digits]. now rewrite Hd1, (IH Hd2).
Qed.

Lemma parse_exponent_head ex x :
  parse_exponent ex = Some x ->
  ex = "" \/ exists c r, ex = String c r /\ is_digit c = false /\ Ascii.eqb c "." = false.
Proof.
  destruct ex as [|c r]; [now left|]. right. exists c, r. cbn [parse_exponent] in H.
  destruct (Ascii.eqb_spec c "e") as [->|H1]; [now repeat split|].
  destruct (Ascii.eqb_spec c "E") as [->|H2]; [now repeat split|].
  discriminate H.
Qed.

(** Digits, a point, digits and an exponent. *)
Lemma parse_decimal_point ip fp ex x :
  all_chars is_digit ip = true -> all_chars is_digit fp = true ->
  is_empty ip && is_empty fp = false -> parse_exponent ex = Some x ->
  parse_decimal (ip ++ String "." (fp ++ ex))
  = Some (Z_of_digits (ip ++ fp), (x - Z.of_nat (String.length fp))%Z).
Proof.
  intros Hi Hf Hne Hx. unfold parse_decimal.
  rewrite (span_digits_app ip "." _ Hi eq_refl).
  cbn [Ascii.eqb Bool.eqb].
  assert (Hs : span_digits (fp ++ ex) = (fp, ex)).
  { destruct (parse_exponent_head ex x Hx) as [-> | (c & r & -> & Hc & _)].
    - rewrite append_nil_r. now apply span_digits_all.
    - now apply span_digits_app. }
  now rewrite Hs, Hne, Hx.
Qed.

(** Digits and an exponent, without a point. *)
Lemma parse_decimal_whole ip ex x :
  all_chars is_digit ip = true -> is_empty ip = false -> parse_exponent ex = Some x ->
  parse_decimal (ip ++ ex) = Some (Z_of_digits ip, x).
Proof.
  intros Hi Hne Hx. unfold parse_decimal.
  destruct (parse_exponent_head ex x Hx) as [-> | (c & r & -> & Hc & Hp)].
  - injection Hx as <-.
    rewrite append_nil_r, (span_digits_all ip Hi), Hne. cbn [andb parse_exponent].
    rewrite append_nil_r. reflexivity.
  - rewrite (span_digits_app ip c r Hi Hc), Hp, Hne, Hx. cbn [andb].
    rewrite append_nil_r. cbn [String.length Z.of_nat]. now rewrite Z.sub_0_r.
Qed.

Lemma parse_exponent_format x : parse_exponent (String "e" (format_exponent x)) = Some x.
Proof.
  unfold format_exponent.
  destruct (decimal_spec (Z.abs x) (Z.abs_nonneg x)) as (Hd & Hne & Hv).
  set (a := decimal (Z.abs x)) in *.
  assert (Hb : forall body, all_chars is_digit body = true -> body <> "" ->
            Z_of_digits body = Z.abs x ->
            parse_exponent (String "e" (String (if (x <? 0)%Z then "-" else "+")%char body))
            = Some x).
  { intros body H1 H2 H3. cbn [parse_exponent Ascii.eqb Bool.eqb orb].
    destruct (Z.ltb_spec x 0) as [Hx|Hx]; cbn [parse_sign Ascii.eqb Bool.eqb];
      rewrite (span_digits_all body H1);
      (destruct body; [congruence|]); cbn [is_empty negb andb]; rewrite H3; f_equal; lia. }
  destruct (Z.abs x <? 10)%Z.
  - apply Hb.
    + cbn [all_chars]. now rewrite Hd.
    + discriminate.
    + change (String "0" a) with ("0" ++ a)%string. rewrite Z_of_digits_app, Hv. reflexivity.
  - now apply Hb.
Qed.

Lemma take_drop n : forall s, (take n s ++ drop n s)%string = s.
Proof.
  induction n as [|n IH]; intros [|c s]; try reflexivity.
  cbn [take drop append]. now rewrite IH.
Qed.

Lemma length_drop_le n : forall s,
  (n <= String.length s)%nat -> String.length (drop n s) = (String.length s - n)%nat.
Proof.
  induction n as [|n IH]; intros [|c s] H; try reflexivity; cbn [String.length] in *; try lia.
  cbn [drop]. rewrite IH by lia. lia.
Qed.

Lemma take_nonempty n s : (0 < n)%nat -> s <> "" -> is_empty (take n s) = false.
Proof. destruct n; [lia|]. destruct s; [congruence | reflexivity]. Qed.

(** The four layouts of [format_digits]. *)
Lemma format_digits_exponent c ds1 dp :
  (dp <=? -4)%Z || (16 <? dp)%Z = true ->
  format_digits (String c ds1) dp
  = match ds1 with
    | "" => String c "" ++ String "e" (format_exponent (dp - 1))
    | _ => String c "" ++ String "." (ds1 ++ String "e" (format_exponent (dp - 1)))
    end%string.
Proof. intros H. unfold format_digits. rewrite H. destruct ds1; reflexivity. Qed.

Lemma format_digits_small ds dp :
  (dp <=? -4)%Z || (16 <? dp)%Z = false -> (dp <= 0)%Z ->
  format_digits ds dp
  = ("0" ++ String "." ((zeros (Z.to_nat (- dp)) ++ ds) ++ ""))%string.
Proof.
  intros H1 H2. unfold format_digits. rewrite H1.
  replace (dp <=? 0)%Z with true by (symmetry; now apply Z.leb_le).
  now rewrite append_nil_r.
Qed.

Lemma format_digits_whole ds dp :
  (dp <=? -4)%Z || (16 <? dp)%Z = false -> (0 < dp)%Z ->
  (Z.of_nat (String.length ds) <= dp)%Z ->
  format_digits ds dp
  = ((ds ++ zeros (Z.to_nat dp - String.length ds)) ++ String "." ("0" ++ ""))%string.
Proof.
  intros H1 H2 H3. unfold format_digits. rewrite H1.
  replace (dp <=? 0)%Z with false by (symmetry; apply Z.leb_gt; lia).
  replace (Z.of_nat (String.length ds) <=? dp)%Z with true by (symmetry; now apply Z.leb_le).
  now rewrite append_assoc.
Qed.

Lemma format_digits_point ds dp :
  (dp <=? -4)%Z || (16 <? dp)%Z = false -> (0 < dp)%Z ->
  (dp < Z.of_nat (String.length ds))%Z ->
  format_digits ds dp
  = (take (Z.to_nat dp) ds ++ String "." (drop (Z.to_nat dp) ds ++ ""))%string.
Proof.
  intros H1 H2 H3. unfold format_digits. rewrite H1.
  replace (dp <=? 0)%Z with false by (symmetry; apply Z.leb_gt; lia).
  replace (Z.of_nat (String.length ds) <=? dp)%Z with false by (symmetry; apply Z.leb_gt; lia).
  now rewrite append_nil_r.
Qed.

(** Each layout is read as the digits with the decimal point after [dp] of
    them. *)
Lemma parse_format_digits ds dp :
  all_chars is_digit ds = true -> ds <> "" -> (0 < Z_of_digits ds)%Z ->
  exists M E c r,
    parse_decimal (format_digits ds dp) = Some (M, E)
    /\ float_of_decimal false M E
       = float_of_decimal false (Z_of_digits ds) (dp - Z.of_nat (String.length ds))
    /\ format_digits ds dp = String c r /\ is_digit c = true.
Proof.
  intros Hall Hne Hpos.
  destruct ds as [|c ds1]; [congruence|]. clear Hne.
  pose proof Hall as Hall'. cbn [all_chars] in Hall'.
  apply andb_true_iff in Hall' as [Hc Hd1].
  destruct ((dp <=? -4)%Z || (16 <? dp)%Z) eqn:Hexp.
  - rewrite (format_digits_exponent c ds1 dp Hexp).
    destruct ds1 as [|d ds2].
    + rewrite (parse_decimal_whole (String c "") _ (dp - 1)%Z Hall eq_refl
                 (parse_exponent_format _)).
      eexists _, _, c, _. split; [reflexivity|].
      split; [reflexivity|]. split; [reflexivity | exact Hc].
    + rewrite (parse_decimal_point (String c "") (String d ds2) _ (dp - 1)%Z);
        [|cbn [all_chars]; now rewrite Hc | exact Hd1 | reflexivity
         | apply parse_exponent_format].
      eexists _, _, c, _. split; [reflexivity|].
      split; [|split; [reflexivity | exact Hc]].
      cbn [append]. f_equal. cbn [String.length]. lia.
  - set (ds := String c ds1) in *.
    destruct (Z_le_gt_dec dp 0) as [Hdp|Hdp];
      [|destruct (Z_le_gt_dec (Z.of_nat (String.length ds)) dp) as [Hnd|Hnd]].
    + rewrite (format_digits_small ds dp Hexp Hdp).
      set (k := Z.to_nat (- dp)).
      rewrite (parse_decimal_point "0" (zeros k ++ ds) "" 0%Z);
        [|reflexivity | rewrite all_chars_app, all_digits_zeros; exact Hall
         | reflexivity | reflexivity].
      eexists _, _, "0"%char, _. split; [reflexivity|].
      split; [|split; reflexivity].
      rewrite !Z_of_digits_app, Z_of_digits_zeros, length_append, length_zeros.
      change (Z_of_digits "0") with 0%Z.
      f_equal; lia.
    + rewrite (format_digits_whole ds dp Hexp ltac:(lia) Hnd).
      set (k := (Z.to_nat dp - String.length ds)%nat).
      rewrite (parse_decimal_point (ds ++ zeros k) "0" "" 0%Z);
        [|rewrite all_chars_app, all_digits_zeros; now rewrite Hall
         | reflexivity | subst ds; reflexivity | reflexivity].
      eexists _, _, c, _. split; [reflexivity|].
      split; [|split; [subst ds; reflexivity | exact Hc]].
      rewrite !Z_of_digits_app, Z_of_digits_zeros, length_zeros.
      cbn [String.length Z.of_nat Pos.of_succ_nat].
      change (Z_of_digits "0") with 0%Z.
      rewrite !Z.add_0_r, <- Z.mul_assoc, <- Z.pow_add_r by lia.
      rewrite <- (float_of_decimal_shift (Z_of_digits ds)
                    (dp - Z.of_nat (String.length ds)) (Z.of_nat k + 1) Hpos ltac:(lia)).
      f_equal. lia.
    + rewrite (format_digits_point ds dp Hexp ltac:(lia) ltac:(lia)).
      set (p := Z.to_nat dp).
      rewrite (parse_decimal_point (take p ds) (drop p ds) "" 0%Z);
        [|now apply all_chars_take | now apply all_chars_drop
         | rewrite take_nonempty; [reflexivity | lia | discriminate] | reflexivity].
      rewrite take_drop, length_drop_le by lia.
      assert (Hp : exists p', p = S p') by (exists (pred p); lia).
      destruct Hp as [p' Hp].
      eexists _, _, c, _. split; [reflexivity|].
      split; [|split; [rewrite Hp; subst ds; reflexivity | exact Hc]].
      f_equal. lia.
Qed.

(** *** Nothing to strip and no underscore *)

Lemma repr_char_plain c :
  repr_char c = true -> is_space c = false /\ Ascii.eqb c "_" = false.
Proof.
  destruct c as [[] [] [] [] [] [] [] []]; intros H; try discriminate H; split; reflexivity.
Qed.

Lemma lstrip_repr s : all_chars repr_char s = true -> lstrip s = s.
Proof.
  destruct s as [|c s]; [reflexivity|]. cbn [all_chars lstrip]. intros H.
  apply andb_true_iff in H as [H _]. now rewrite (proj1 (repr_char_plain c H)).
Qed.

Lemma rstrip_repr s : all_chars repr_char s = true -> rstrip s = s.
Proof.
  induction s as [|c s IH]; [reflexivity|]. cbn [all_chars rstrip]. intros H.
  apply andb_true_iff in H as [Hc Hs]. rewrite (IH Hs).
  destruct s; [now rewrite (proj1 (repr_char_plain c Hc)) | reflexivity].
Qed.

Lemma remove_underscores_repr s : forall prev,
  Ascii.eqb prev "_" = false -> all_chars repr_char s = true ->
  remove_underscores prev s = Some s.
Proof.
  induction s as [|c s IH]; intros prev Hp H.
  - cbn [remove_underscores]. now rewrite Hp.
  - cbn [all_chars] in H. apply andb_true_iff in H as [Hc Hs].
    destruct (repr_char_plain c Hc) as [_ Hu].
    cbn [remove_underscores]. rewrite Hu, Hp. cbn [andb].
    now rewrite (IH c Hu Hs).
Qed.

(** *** [float(repr(x)) == x] *)

Lemma float_digits_reads_back m e :
  bounded prec emax m e = true ->
  exists M E c r,
    parse_decimal (let '(ds, dp) := float_digits m e in format_digits ds dp) = Some (M, E)
    /\ float_of_decimal false M E = S754_finite false m e
    /\ (let '(ds, dp) := float_digits m e in format_digits ds dp) = String c r
    /\ is_digit c = true.
Proof.
  intros Hb. unfold float_digits.
  destruct (shortest_reads_back m e Hb) as (D & n & -> & HD & Hread).
  destruct (decimal_spec D ltac:(lia)) as (Hall & Hne & Hv).
  destruct (strip_trailing_zeros_spec (decimal D)) as [k Hk].
  set (ds := decimal D) in *. set (ds' := strip_trailing_zeros ds) in *.
  assert (Hall' : all_chars is_digit ds' = true).
  { rewrite Hk, all_chars_app in Hall. now apply andb_true_iff in Hall as [H _]. }
  assert (HV : Z_of_digits ds = (Z_of_digits ds' * 10 ^ Z.of_nat k)%Z).
  { rewrite Hk at 1. rewrite Z_of_digits_app, Z_of_digits_zeros, length_zeros. lia. }
  assert (Hlen : String.length ds = (String.length ds' + k)%nat).
  { rewrite Hk at 1. now rewrite length_append, length_zeros. }
  assert (Hpos : (0 < Z_of_digits ds')%Z).
  { assert (0 < 10 ^ Z.of_nat k)%Z by (apply Z.pow_pos_nonneg; lia).
    rewrite Hv in HV. nia. }
  assert (Hne' : ds' <> "") by (intros E; rewrite E in Hpos; cbn in Hpos; lia).
  destruct (parse_format_digits ds'
              (Z.of_nat (String.length ds) + (decpt m e - n))%Z Hall' Hne' Hpos)
    as (M & E & c & r & Hp & Hf & Hs & Hc).
  exists M, E, c, r. repeat split; try assumption.
  rewrite Hf, <- Hread, <- Hv, HV.
  rewrite <- (float_of_decimal_shift (Z_of_digits ds')
                (Z.of_nat (String.length ds) + (decpt m e - n) - Z.of_nat (String.length ds'))
                (Z.of_nat k) Hpos ltac:(lia)).
  f_equal. lia.
Qed.

Lemma float_of_str_repr_finite s m e :
  bounded prec emax m e = true ->
  float_of_str (float_repr (S754_finite s m e)) = Ok (S754_finite s m e).
Proof.
  intros Hb. pose proof (all_chars_float_repr (S754_finite s m e)) as Hchars.
  destruct (float_digits_reads_back m e Hb) as (M & E & c & r & Hp & Hf & Hs & Hc).
  unfold float_of_str, strip.
  rewrite (lstrip_repr _ Hchars), (rstrip_repr _ Hchars),
    (remove_underscores_repr _ NUL eq_refl Hchars).
  cbn [float_repr]. destruct (float_digits m e) as [ds dp].
  rewrite Hs in *. destruct s.
  - cbn [append parse_sign Ascii.eqb Bool.eqb]. rewrite Hp.
    now rewrite float_of_decimal_sign, Hf.
  - cbn [append parse_sign].
    replace (Ascii.eqb c "-") with false
      by (destruct c as [[] [] [] [] [] [] [] []]; try discriminate Hc; reflexivity).
    replace (Ascii.eqb c "+") with false
      by (destruct c as [[] [] [] [] [] [] [] []]; try discriminate Hc; reflexivity).
    now rewrite Hp, Hf.
Qed.

(** The text that [repr] writes for a float is read by [float] as the
    same float. *)
Lemma float_repr_reads_back x :
  valid_binary prec emax x = true -> float_of_str (float_repr x) = Ok x.
Proof.
  destruct x as [s|s| |s m e]; intros H.
  - destruct s; reflexivity.
  - destruct s; reflexivity.
  - reflexivity.
  - now apply float_of_str_repr_finite.
Qed.

(** *** The rates on the command line *)

Lemma lambdas_valid i : valid_binary prec emax (nth i lambdas NaN) = true.
Proof.
  assert (H : forallb (valid_binary prec emax) lambdas = true) by (vm_compute; reflexivity).
  rewrite forallb_forall in H.
  destruct (Nat.lt_ge_cases i (List.length lambdas)) as [Hi|Hi].
  - apply H. now apply nth_In.
  - now rewrite nth_overflow.
Qed.

(** C8.  Every command that [process] launches is the command line of its
    step: the shell reads it as [./schedsim] with the five parameters, 0, 3
    and 0 for topo, genType and procType, and after [--mu=] and [--lambda=]
    the texts that Python writes for the service rate and for the arrival
    rate of the step.  These texts denote the two rates: [float] reads the
    text after [--lambda=] as the arrival rate of the step and, for a
    service rate that is a binary64 value, as every float of Python is, the
    text after [--mu=] as the service rate. *)
Theorem launched_command E mu i cmd :
  nth_error (fst (run E mu)) i = Some cmd ->
  i < 100
  /\ cmd = ("./schedsim --topo=0 --mu=" ++ float_repr mu ++ " --lambda="
            ++ float_repr (nth i lambdas NaN) ++ " --genType=3 --procType=0")%string
  /\ sh_words cmd =
     ["./schedsim"; "--topo=0"; ("--mu=" ++ float_repr mu)%string;
      ("--lambda=" ++ float_repr (nth i lambdas NaN))%string;
      "--genType=3"; "--procType=0"]
  /\ (valid_binary prec emax mu = true -> float_of_str (float_repr mu) = Ok mu)
  /\ float_of_str (float_repr (nth i lambdas NaN)) = Ok (nth i lambdas NaN).
Proof.
  intros H. destruct (run_launched E mu) as (n & Hn & Hrun & _). rewrite Hrun in H.
  destruct (nth_error_map_firstn (command mu) NaN n lambdas i cmd H) as (_ & Hi & ->).
  split; [exact Hi|]. split; [reflexivity|]. split; [apply sh_words_command|].
  split; [apply float_repr_reads_back|].
  apply float_repr_reads_back, lambdas_valid.
Qed.

Lemma launched_command_witness :
  nth_error (fst (run env_ok lit_0_1)) 8
  = Some "./schedsim --topo=0 --mu=0.1 --lambda=0.009000000000000001 --genType=3 --procType=0"
  /\ sh_words "./schedsim --topo=0 --mu=0.1 --lambda=0.009000000000000001 --genType=3 --procType=0"
     = ["./schedsim"; "--topo=0"; ("--mu=" ++ float_repr lit_0_1)%string;
        ("--lambda=" ++ float_repr (nth 8 lambdas NaN))%string;
        "--genType=3"; "--procType=0"]
  /\ float_of_str "0.1" = Ok lit_0_1
  /\ float_of_str "0.009000000000000001" = Ok (nth 8 lambdas NaN).
Proof.
  assert (H : nth_error (fst (run env_ok lit_0_1)) 8
    = Some "./schedsim --topo=0 --mu=0.1 --lambda=0.009000000000000001 --genType=3 --procType=0")
    by (vm_compute; reflexivity).
  destruct (launched_command env_ok lit_0_1 8 _ H) as (_ & _ & Hw & Hmu & Hl).
  split; [exact H|]. split; [exact Hw|]. split; [exact (Hmu eq_refl) | exact Hl].
Defined.

(** * Further properties of the parser, the sweep and the script *)

(** ** [split] and [join] *)

Lemma split_scan_skip sep s : forall k, split_scan sep s k = split_scan sep (drop k s) 0.
Proof.
  induction s as [|c s IH]; intros [|k]; try reflexivity.
  cbn [split_scan drop]. apply IH.
Qed.

Lemma prefix_drop sep : forall s,
  prefix sep s = true -> s = (sep ++ drop (String.length sep) s)%string.
Proof.
  induction sep as [|a sep IH]; intros s H; [reflexivity|].
  destruct s as [|c s]; [discriminate H|].
  rewrite prefix_cons in H. destruct (ascii_dec a c) as [->|]; [|discriminate H].
  cbn [append String.length drop]. f_equal. now apply IH.
Qed.

Lemma length_drop k : forall s, String.length (drop k s) <= String.length s.
Proof.
  induction k as [|k IH]; intros [|c s]; cbn [drop String.length]; try lia.
  specialize (IH s). lia.
Qed.

Lemma join_push_char sep c fields :
  fields <> [] -> join sep (push_char c fields) = String c (join sep fields).
Proof. destruct fields as [|f [|g fs]]; [congruence | reflexivity | reflexivity]. Qed.

Lemma join_split_scan sep : sep <> "" -> forall n s,
  String.length s <= n -> join sep (split_scan sep s 0) = s.
Proof.
  intros Hsep. induction n as [|n IH]; intros s Hn.
  { destruct s; [reflexivity | cbn in Hn; lia]. }
  destruct s as [|c s]; [reflexivity|].
  cbn [split_scan]. destruct (prefix sep (String c s)) eqn:Hp.
  - rewrite split_scan_skip.
    pose proof (split_nonempty sep (drop (String.length sep - 1) s) 0) as Hne.
    destruct (split_scan sep (drop (String.length sep - 1) s) 0) as [|g gs] eqn:Hs;
      [congruence|].
    change (join sep ("" :: g :: gs)) with (sep ++ join sep (g :: gs))%string.
    rewrite <- Hs, IH.
    + transitivity (sep ++ drop (String.length sep) (String c s))%string;
        [|symmetry; now apply prefix_drop].
      destruct sep as [|a sep]; [congruence|].
      cbn [String.length drop Nat.sub]. now rewrite ?Nat.sub_0_r.
    + pose proof (length_drop (String.length sep - 1) s). cbn [String.length] in Hn. lia.
  - rewrite join_push_char by apply split_nonempty.
    f_equal. apply IH. cbn [String.length] in Hn. lia.
Qed.

(** The fields that [split] makes of a text, joined again with the
    separator, are the text. *)
Theorem split_join s sep fields :
  str_split s sep = Ok fields -> fields <> [] /\ join sep fields = s.
Proof.
  unfold str_split. destruct sep as [|a sep]; [discriminate|].
  intros [= <-]. split; [apply split_nonempty|].
  now apply (join_split_scan (String a sep) ltac:(discriminate) (String.length s)).
Qed.

Lemma split_join_witness :
  str_split "b'a\t1.5\tz'" "\t" = Ok ["b'a"; "1.5"; "z'"]
  /\ join "\t" ["b'a"; "1.5"; "z'"] = "b'a\t1.5\tz'".
Proof.
  split; [reflexivity|].
  exact (proj2 (split_join "b'a\t1.5\tz'" "\t" ["b'a"; "1.5"; "z'"] eq_refl)).
Defined.

(** *** A metric field that [str] escapes *)

(** With three fields or more, a second-to-last field that holds a byte
    which [str] does not write as it is (a control byte such as a newline, a
    byte above 126, a backslash or a quote) makes [process] raise
    [ValueError], even when [float] would accept the field itself. *)
Theorem escaped_metric_rejected raw fs f g :
  fs <> [] -> tab_fields raw = fs ++ [f; g] ->
  bs_t_free f = true -> bs_t_free g = true ->
  plain f = false ->
  parse_output raw = Raise ValueError.
Proof.
  intros Hfs Hraw Hf Hg Hp.
  rewrite (parse_output_fields raw fs f g Hfs Hraw Hf Hg).
  apply float_of_str_alphabet, repr_body_not_plain; [apply repr_quote_is_quote | exact Hp].
Qed.

Lemma escaped_metric_rejected_witness :
  let raw := tabbed ["a"; String "1" (String "." (String "5" (String LF ""))); "z"] in
  numeric (b (String "1" (String "." (String "5" (String LF ""))))) = true
  /\ parse_output raw = Raise ValueError.
Proof.
  intros raw. split; [reflexivity|].
  apply (escaped_metric_rejected raw [b "a"]
           (b (String "1" (String "." (String "5" (String LF ""))))) (b "z"));
    [discriminate | reflexivity | reflexivity | reflexivity | reflexivity].
Defined.

(** *** White space around the metric *)

Lemma lstrip_spaces w s : all_chars is_space w = true -> lstrip (w ++ s) = lstrip s.
Proof.
  induction w as [|c w IH]; [reflexivity|]. cbn [all_chars append lstrip].
  intros H. apply andb_true_iff in H as [Hc Hw]. rewrite Hc. now apply IH.
Qed.

Lemma rstrip_all_spaces w : all_chars is_space w = true -> rstrip w = "".
Proof.
  induction w as [|c w IH]; [reflexivity|]. cbn [all_chars rstrip].
  intros H. apply andb_true_iff in H as [Hc Hw]. now rewrite (IH Hw), Hc.
Qed.

Lemma rstrip_spaces s w : all_chars is_space w = true -> rstrip (s ++ w) = rstrip s.
Proof.
  intros Hw. induction s as [|c s IH]; [now apply rstrip_all_spaces|].
  cbn [append rstrip]. now rewrite IH.
Qed.

Lemma lstrip_app_spaces s w :
  all_chars is_space w = true -> rstrip (lstrip (s ++ w)) = rstrip (lstrip s).
Proof.
  intros Hw. induction s as [|c s IH].
  - cbn [append]. rewrite <- (append_nil_r w), (lstrip_spaces w "" Hw). reflexivity.
  - cbn [append lstrip]. destruct (is_space c); [exact IH|].
    change (String c (s ++ w)%string) with (String c s ++ w)%string. now apply rstrip_spaces.
Qed.

Lemma strip_spaces pre s post :
  all_chars is_space pre = true -> all_chars is_space post = true ->
  strip (pre ++ s ++ post) = strip s.
Proof.
  intros H1 H2. unfold strip. rewrite (lstrip_spaces pre _ H1).
  now apply lstrip_app_spaces.
Qed.

Lemma float_of_str_spaces pre s post :
  all_chars is_space pre = true -> all_chars is_space post = true ->
  float_of_str (pre ++ s ++ post) = float_of_str s.
Proof. intros H1 H2. unfold float_of_str. now rewrite strip_spaces. Qed.

Lemma text_of_bytes_app x y :
  text_of_bytes (x ++ y) = (text_of_bytes x ++ text_of_bytes y)%string.
Proof.
  induction x as [|c x IH]; [reflexivity|].
  cbn [app]. rewrite !text_of_bytes_cons, IH. reflexivity.
Qed.

Lemma spaces_plain n : plain (spaces n) = true.
Proof. induction n as [|n IH]; [reflexivity | exact IH]. Qed.

Lemma spaces_text n : all_chars is_space (text_of_bytes (spaces n)) = true.
Proof. induction n as [|n IH]; [reflexivity | exact IH]. Qed.

Lemma plain_app x y : plain (x ++ y) = plain x && plain y.
Proof. apply forallb_app. Qed.

(** Spaces around the metric are ignored: with three fields or more, a
    second-to-last field made of spaces, a plain text [d] and spaces again is
    read as the float of [d]. *)
Theorem padded_metric raw fs n d m g :
  fs <> [] -> tab_fields raw = fs ++ [spaces n ++ d ++ spaces m; g] ->
  plain d = true -> bs_t_free g = true ->
  parse_output raw = float_of_str (text_of_bytes d).
Proof.
  intros Hfs Hraw Hd Hg.
  assert (Hp : plain (spaces n ++ d ++ spaces m) = true)
    by now rewrite !plain_app, !spaces_plain, Hd.
  rewrite (parse_output_fields raw fs _ g Hfs Hraw (plain_bs_t_free _ Hp) Hg).
  rewrite (repr_body_plain _ _ (repr_quote_is_quote raw) Hp).
  rewrite !text_of_bytes_app. apply float_of_str_spaces; apply spaces_text.
Qed.

Lemma padded_metric_witness :
  parse_output (tabbed ["a"; "   1.5 "; "z"]) = float_of_str "1.5".
Proof.
  apply (padded_metric (tabbed ["a"; "   1.5 "; "z"]) [b "a"] 3 (b "1.5") 1 (b "z"));
    [discriminate | reflexivity | reflexivity | reflexivity].
Defined.

(** ** The characters of the command line *)

Lemma repr_shell_plain c : repr_char c = true -> shell_plain c = true.
Proof.
  destruct c as [[] [] [] [] [] [] [] []]; intros H; try discriminate H; reflexivity.
Qed.

(** Whatever the two floats, the command line is made of letters, digits,
    spaces and the characters [. / = + -] only: the shell, which gets it
    with [shell=True], finds no quoting, expansion or operator character in
    it. *)
Theorem command_shell_plain mu l : all_chars shell_plain (command mu l) = true.
Proof.
  unfold command. rewrite !all_chars_app.
  rewrite !(all_chars_impl _ _ _ repr_shell_plain (all_chars_float_repr _)).
  reflexivity.
Qed.

(** ** The arrival rates on the command line *)

Lemma SFltb_irrefl x : SFltb x x = false.
Proof.
  unfold SFltb. destruct x as [s|s| |s m e]; cbn; try (destruct s; reflexivity); [reflexivity|].
  destruct s; rewrite Z.compare_refl, Pos.compare_cont_refl; reflexivity.
Qed.

Lemma lambdas_read_back i :
  i < 100 -> float_of_str (float_repr (nth i lambdas NaN)) = Ok (nth i lambdas NaN).
Proof.
  intros Hi.
  do 100 (destruct i as [|i]; [vm_compute; reflexivity|]).
  lia.
Qed.

Lemma lambdas_increasing :
  pairs_below 100 (fun i j => float_ltb (nth i lambdas NaN) (nth j lambdas NaN)) = true.
Proof. vm_compute. reflexivity. Qed.

Lemma lambdas_distinct i j :
  i < 100 -> j < 100 -> i <> j -> nth i lambdas NaN <> nth j lambdas NaN.
Proof.
  intros Hi Hj Hij Heq.
  assert (H : float_ltb (nth i lambdas NaN) (nth j lambdas NaN) = true
              \/ float_ltb (nth j lambdas NaN) (nth i lambdas NaN) = true).
  { destruct (Nat.lt_ge_cases i j) as [H|H].
    - left. exact (pairs_below_spec 100 _ lambdas_increasing i j H Hj).
    - right. apply (pairs_below_spec 100 _ lambdas_increasing j i); lia. }
  rewrite Heq in H. unfold float_ltb in H. rewrite SFltb_irrefl in H.
  destruct H; discriminate.
Qed.

Lemma command_inj mu l1 l2 : command mu l1 = command mu l2 -> float_repr l1 = float_repr l2.
Proof.
  intros Heq. apply (f_equal sh_words) in Heq. rewrite !sh_words_command in Heq.
  unfold argv in Heq. generalize dependent (float_repr l1). generalize (float_repr l2).
  intros r2 r1 Heq. now injection Heq.
Qed.

(** The [--lambda] word of step [i] holds a text that [float] reads back
    as arrival rate [i] exactly, the float that the load of the step is
    computed from; hence the command lines of two different steps of a sweep
    differ. *)
Theorem arrival_rate_reads_back mu i :
  i < 100 ->
  nth_error (sh_words (command_at mu i)) 3
  = Some ("--lambda=" ++ float_repr (nth i lambdas NaN))%string
  /\ float_of_str (float_repr (nth i lambdas NaN)) = Ok (nth i lambdas NaN)
  /\ forall j, j < 100 -> i <> j -> command_at mu i <> command_at mu j.
Proof.
  intros Hi. unfold command_at. split; [now rewrite sh_words_command|].
  split; [now apply lambdas_read_back|].
  intros j Hj Hij Heq. apply command_inj in Heq.
  apply (lambdas_distinct i j Hi Hj Hij).
  pose proof (lambdas_read_back i Hi) as H1. pose proof (lambdas_read_back j Hj) as H2.
  rewrite Heq, H2 in H1. now injection H1.
Qed.

Lemma arrival_rate_reads_back_witness :
  nth_error (sh_words (command_at lit_0_1 8)) 3 = Some "--lambda=0.009000000000000001"
  /\ float_of_str "0.009000000000000001" = Ok (nth 8 lambdas NaN).
Proof.
  destruct (arrival_rate_reads_back lit_0_1 8) as (H1 & H2 & _); [lia|].
  split; [exact H1 | exact H2].
Defined.

(** ** Service rates that [process] does not reject *)

Lemma lambdas_cons : exists l ls, lambdas = l :: ls /\ nth 0 lambdas NaN = l.
Proof. eexists. eexists. split; reflexivity. Qed.

(** At a service rate of zero, of either sign, [process] launches the
    first command only; when that launch fails it raises the exception of
    the launch, and otherwise [ZeroDivisionError], before the output is
    read. *)
Theorem zero_service_rate E mu :
  is_zero mu = true ->
  run E mu
  = ([command_at mu 0],
     match returned (answer E mu 0) with
     | Ok _ => Raise ZeroDivisionError
     | Raise e => Raise e
     end).
Proof.
  intros Hmu. rewrite run_sweep. unfold answer, command_at.
  destruct lambdas_cons as (l & ls & -> & ->).
  cbn [for_each]. unfold bindM. rewrite step_spec. cbn [List.length app].
  unfold step_result, float_truediv. rewrite Hmu.
  destruct (returned (E 0 (command mu l))); reflexivity.
Qed.

Lemma zero_service_rate_witness :
  run env_ok (S754_zero true)
  = (["./schedsim --topo=0 --mu=-0.0 --lambda=0.001 --genType=3 --procType=0"],
     Raise ZeroDivisionError).
Proof. exact (zero_service_rate env_ok (S754_zero true) eq_refl). Defined.

Lemma loads_nonfinite :
  loads S754_nan = repeat S754_nan 100
  /\ forall s, loads (S754_infinity s) = repeat (S754_zero s) 100.
Proof. split; [|intros []]; vm_compute; reflexivity. Qed.

(** A service rate that is the NaN or an infinity is not rejected: when
    every launch yields a metric the sweep returns, and every load is the
    NaN, or the zero of the sign of the infinity. *)
Theorem nonfinite_service_rate E mu :
  (forall i, i < 100 -> is_ok (metric (answer E mu i)) = true) ->
  (mu = S754_nan ->
   exists performance,
     run E mu = (map (command mu) lambdas, Ok (repeat S754_nan 100, performance)))
  /\ (forall s, mu = S754_infinity s ->
      exists performance,
        run E mu = (map (command mu) lambdas, Ok (repeat (S754_zero s) 100, performance))).
Proof.
  intros Hok. destruct loads_nonfinite as [Hn Hi]. split.
  - intros ->. destruct (run_completes E S754_nan eq_refl Hok) as (perf & H & _).
    exists perf. now rewrite <- Hn.
  - intros s ->. destruct (run_completes E (S754_infinity s) eq_refl Hok) as (perf & H & _).
    exists perf. now rewrite <- Hi.
Qed.

Lemma nonfinite_service_rate_witness :
  exists performance,
    run env_ok (S754_infinity false)
    = (map (command (S754_infinity false)) lambdas,
       Ok (repeat (S754_zero false) 100, performance)).
Proof.
  apply (proj2 (nonfinite_service_rate env_ok (S754_infinity false)
                  (fun i _ => eq_refl)) false eq_refl).
Defined.

Lemma SFdiv_opp x y : SFdiv prec emax x (SFopp y) = SFopp (SFdiv prec emax x y).
Proof.
  destruct x as [sx|sx| |sx mx ex], y as [sy|sy| |sy my ey]; cbn [SFdiv SFopp];
    try reflexivity; try (now destruct sx, sy).
  destruct (SFdiv_core_binary prec emax (Zpos mx) ex (Zpos my) ey) as [[mz ez] lz].
  unfold binary_round_aux.
  destruct (shr_fexp prec emax mz ez lz) as [mrs e'].
  destruct (shr_fexp prec emax _ e' loc_Exact) as [mrs' e''].
  destruct (shr_m mrs'); [| destruct (_ <=? _)%Z |]; cbn [SFopp]; try reflexivity;
    now destruct sx, sy.
Qed.

Lemma SFltb_opp x y : SFltb (SFopp y) (SFopp x) = SFltb x y.
Proof.
  unfold SFltb.
  destruct x as [sx|sx| |sx mx ex], y as [sy|sy| |sy my ey]; cbn [SFcompare SFopp];
    try reflexivity; try (now destruct sx); try (now destruct sy);
    try (now destruct sx, sy).
  destruct sx, sy; cbn [negb]; try reflexivity;
    rewrite (Z.compare_antisym ex ey);
    change (Pos.compare_cont Eq my mx) with (Pos.compare_cont (CompOpp Eq) my mx);
    rewrite <- (Pos.compare_cont_antisym mx my Eq);
    destruct (ex ?= ey)%Z; destruct (Pos.compare_cont Eq mx my); reflexivity.
Qed.

Lemma loads_opp mu : loads (SFopp mu) = map SFopp (loads mu).
Proof.
  unfold loads. rewrite map_map. apply map_ext. intros l. apply SFdiv_opp.
Qed.

(** A negative service rate is not rejected either: a sweep that returns
    at the opposite of [mu] has the opposites of the loads at [mu], so that
    at the opposite of a positive normal float the loads are strictly
    decreasing. *)
Theorem negative_service_rate E mu load performance :
  snd (run E (SFopp mu)) = Ok (load, performance) ->
  load = map SFopp (loads mu)
  /\ (normal_positive mu = true ->
      forall i j, i < j -> j < 100 ->
        float_ltb (nth j load NaN) (nth i load NaN) = true).
Proof.
  intros Hrun. destruct (run_ok_loads E (SFopp mu) load performance Hrun) as [-> _].
  split; [apply loads_opp|].
  intros Hmu i j Hij Hj. rewrite loads_opp.
  change NaN with (SFopp NaN). rewrite !map_nth.
  unfold float_ltb. rewrite SFltb_opp. now apply loads_increasing.
Qed.

Lemma negative_service_rate_witness :
  exists load performance,
    snd (run env_ok (SFopp lit_0_1)) = Ok (load, performance)
    /\ load = map SFopp (loads lit_0_1)
    /\ forall i j, i < j -> j < 100 ->
         float_ltb (nth j load NaN) (nth i load NaN) = true.
Proof.
  destruct (run_completes env_ok (SFopp lit_0_1) eq_refl (fun i _ => eq_refl))
    as (performance & H & _).
  exists (loads (SFopp lit_0_1)), performance.
  assert (Hrun : snd (run env_ok (SFopp lit_0_1)) = Ok (loads (SFopp lit_0_1), performance))
    by now rewrite H.
  split; [exact Hrun|].
  destruct (negative_service_rate env_ok lit_0_1 _ _ Hrun) as [H1 H2].
  split; [exact H1 | exact (H2 eq_refl)].
Defined.

(** ** Loads that are finite *)

Section Quotients.

Local Open Scope Z_scope.

(** A dividend of the magnitude of the arrival rates, divided by a positive
    normal float, neither overflows nor vanishes. *)
Lemma SFdiv_positive_finite mx ex my ey :
  Zpos (digits2_pos mx) = 53 -> Zpos (digits2_pos my) = 53 ->
  -62 <= ex <= -56 -> -1074 <= ey <= 971 ->
  positive_finite (SFdiv prec emax (S754_finite false mx ex) (S754_finite false my ey))
  = true.
Proof.
  intros Hdx Hdy Hex Hey.
  destruct (SFdiv_round mx ex my ey Hdx Hdy ltac:(lia)) as [l ->].
  set (e := Z.max (ex - ey - 53) (-1074)).
  set (s := ex - ey - e).
  assert (Hs : 41 <= s <= 53) by (unfold s, e; lia).
  pose proof (digits2_bounds mx) as Hbx. rewrite Hdx in Hbx.
  pose proof (digits2_bounds my) as Hby. rewrite Hdy in Hby.
  change (53 - 1) with 52 in *.
  destruct (quotient_bounds (Zpos mx) (Zpos my) s Hbx Hby Hs) as (Hq & Hn & _).
  assert (He : -1074 <= e <= 969) by (unfold e; lia).
  assert (Hn' : -1074 < e -> s = 53) by (unfold s, e; lia).
  destruct (round_aux_spec (Zpos mx * 2 ^ s / Zpos my) e l Hq He) as (mz & ez & -> & _);
    [intros H; apply Hn, Hn', H | reflexivity].
Qed.

End Quotients.

Lemma loads_positive_finite mu i :
  normal_positive mu = true -> i < 100 ->
  positive_finite (nth i (loads mu) NaN) = true.
Proof.
  intros Hmu Hi. rewrite nth_loads by exact Hi.
  assert (Hw : exists x, well_apart x (nth i lambdas NaN) = true
                         \/ well_apart (nth i lambdas NaN) x = true).
  { destruct i as [|i].
    - exists (nth 1 lambdas NaN). right.
      exact (pairs_below_spec 100 _ lambdas_well_apart 0 1 ltac:(lia) ltac:(lia)).
    - exists (nth 0 lambdas NaN). left.
      exact (pairs_below_spec 100 _ lambdas_well_apart 0 (S i) ltac:(lia) Hi). }
  destruct Hw as (x & Hw).
  destruct mu as [| | |[] my ey]; try discriminate Hmu.
  cbn [normal_positive] in Hmu. repeat (apply andb_true_iff in Hmu as [Hmu ?]).
  destruct (nth i lambdas NaN) as [| | |[] m e];
    try (destruct Hw as [Hw|Hw]; destruct x as [| | |[] ? ?]; discriminate Hw).
  destruct x as [| | |[] mx ex]; try (destruct Hw as [Hw|Hw]; discriminate Hw).
  cbn [well_apart] in Hw.
  destruct Hw as [Hw|Hw]; repeat (apply andb_true_iff in Hw as [Hw ?]);
    repeat match goal with
           | H : (_ =? _)%Z = true |- _ => apply Z.eqb_eq in H
           | H : (_ <=? _)%Z = true |- _ => apply Z.leb_le in H
           end;
    apply SFdiv_positive_finite; try assumption; lia.
Qed.

(** For a positive normal service rate no load overflows to the infinity or
    vanishes: every load of a sweep that returns is a positive finite
    float. *)
Theorem loads_finite E mu load performance :
  snd (run E mu) = Ok (load, performance) ->
  normal_positive mu = true ->
  forall i, i < 100 -> positive_finite (nth i load NaN) = true.
Proof.
  intros Hrun Hmu i Hi.
  destruct (run_ok_loads E mu load performance Hrun) as [-> _].
  now apply loads_positive_finite.
Qed.

Lemma loads_finite_witness :
  exists load performance,
    snd (run env_ok lit_0_1) = Ok (load, performance)
    /\ forall i, i < 100 -> positive_finite (nth i load NaN) = true.
Proof.
  destruct (run_completes env_ok lit_0_1 eq_refl (fun i _ => eq_refl))
    as (performance & H & _).
  exists (loads lit_0_1), performance.
  assert (Hrun : snd (run env_ok lit_0_1) = Ok (loads lit_0_1, performance))
    by now rewrite H.
  split; [exact Hrun|].
  exact (loads_finite env_ok lit_0_1 _ _ Hrun eq_refl).
Defined.

(** ** The causes of the exceptions *)

Lemma below_cases n (P : nat -> bool) :
  (forall i, i < n -> P i = true) \/ (exists i, i < n /\ P i = false).
Proof.
  induction n as [|n [IH | (i & Hi & HP)]].
  - left. intros i Hi. lia.
  - destruct (P n) eqn:Hn.
    + left. intros i Hi. destruct (Nat.eq_dec i n) as [->|]; [exact Hn | apply IH; lia].
    + right. exists n. split; [lia | exact Hn].
  - right. exists i. split; [lia | exact HP].
Qed.

(** A sweep that raises has stopped at some step: the steps before it have
    yielded their pairs, and the exception is the one of that step. *)
Lemma run_raise_inv E mu e :
  snd (run E mu) = Raise e ->
  exists k, k < 100
    /\ run E mu = (map (command mu) (firstn (S k) lambdas), Raise e)
    /\ step_result mu (nth k lambdas NaN) (answer E mu k) = Raise e
    /\ forall i, i < k ->
         is_ok (step_result mu (nth i lambdas NaN) (answer E mu i)) = true.
Proof.
  intros Hrun.
  destruct (below_cases 100
              (fun i => is_ok (step_result mu (nth i lambdas NaN) (answer E mu i))))
    as [Hall | (i & Hi & Hfail)].
  - destruct (for_each_ok E mu lambdas [] [] [] Hall) as (qs & vs & H & _).
    rewrite run_sweep, H in Hrun. discriminate Hrun.
  - destruct (for_each_raise E mu lambdas [] [] [] i Hi Hfail) as (j & e' & Hj & H & He & Hbefore).
    rewrite run_sweep, H in Hrun. cbn [snd] in Hrun. injection Hrun as ->.
    exists j. split; [lia|]. rewrite run_sweep. repeat split; assumption.
Qed.

Lemma getitem_error {A} (l : list A) i e : getitem l i = Raise e -> e = IndexError.
Proof.
  unfold getitem. destruct (_ && _); [|now intros [= <-]].
  destruct (nth_error l _); [discriminate | now intros [= <-]].
Qed.

Lemma parse_output_raises raw e :
  parse_output raw = Raise e -> e = IndexError \/ e = ValueError.
Proof.
  unfold parse_output. rewrite parse_metric_split.
  destruct (getitem _ _) as [field|e'] eqn:Hg; cbn [bind].
  - intros H. right. now apply float_of_str_error in H.
  - intros [= <-]. left. now apply getitem_error in Hg.
Qed.

(** Every exception that [process] raises has its cause at the step at
    which the sweep stopped, every launch before it having yielded a metric:
    [OSError] when the launch could not be started, [CalledProcessError]
    with the return code of a launch that exited with a code other than
    zero, [ZeroDivisionError] at the first step of a sweep at service rate
    zero, [IndexError] when the output of the launch holds no separator and
    [ValueError] when the field read is no number. *)
Theorem raised_exception_cause E mu e :
  snd (run E mu) = Raise e ->
  exists k, k < 100
    /\ fst (run E mu) = map (command mu) (firstn (S k) lambdas)
    /\ (forall i, i < k -> is_ok (metric (answer E mu i)) = true)
    /\ match e with
       | OSError => answer E mu k = NotStarted
       | CalledProcessError rc =>
           rc <> 0%Z /\ exists out, answer E mu k = Exited rc out
       | ZeroDivisionError =>
           is_zero mu = true /\ k = 0 /\ exists out, answer E mu k = Exited 0 out
       | IndexError =>
           is_zero mu = false
           /\ exists out, answer E mu k = Exited 0 out /\ separators out = 0
       | ValueError =>
           is_zero mu = false
           /\ exists out, answer E mu k = Exited 0 out
                /\ parse_output out = Raise ValueError
       end.
Proof.
  intros Hrun. destruct (run_raise_inv E mu e Hrun) as (k & Hk & H & He & Hbefore).
  exists k. split; [exact Hk|]. split; [now rewrite H|].
  assert (Hmet : forall i, i < k -> is_ok (metric (answer E mu i)) = true).
  { intros i Hi. specialize (Hbefore i Hi).
    destruct (is_ok (metric (answer E mu i))) eqn:Hm; [reflexivity|].
    now rewrite (step_result_metric mu _ _ Hm) in Hbefore. }
  split; [exact Hmet|].
  assert (Hzero : is_zero mu = true -> k = 0).
  { intros Hz. destruct k as [|k]; [reflexivity|].
    specialize (Hbefore 0 ltac:(lia)). revert Hbefore.
    unfold step_result, float_truediv. rewrite Hz.
    destruct (returned _); discriminate. }
  revert He. unfold step_result, float_truediv.
  destruct (answer E mu k) as [|rc out]; cbn [returned bind].
  { now intros [= <-]. }
  destruct (Z.eqb_spec rc 0) as [->|Hrc]; cbn [bind].
  - destruct (is_zero mu) eqn:Hz; cbn [bind].
    + intros [= <-]. split; [reflexivity|]. split; [now apply Hzero | now exists out].
    + destruct (parse_output out) as [v|e'] eqn:Hp; cbn [bind]; [discriminate|].
      intros [= ->].
      destruct (parse_output_raises out e Hp) as [-> | ->].
      * split; [reflexivity|]. exists out. split; [reflexivity|].
        now apply parse_output_no_separator.
      * split; [reflexivity|]. exists out. split; [reflexivity | exact Hp].
  - intros [= <-]. split; [exact Hrc | now exists out].
Qed.

Lemma raised_exception_cause_witness :
  snd (run (env_exit_at 36 1) lit_0_1) = Raise (CalledProcessError 1)
  /\ exists k, k < 100
       /\ fst (run (env_exit_at 36 1) lit_0_1)
          = map (command lit_0_1) (firstn (S k) lambdas)
       /\ exists out, answer (env_exit_at 36 1) lit_0_1 k = Exited 1 out.
Proof.
  assert (H : snd (run (env_exit_at 36 1) lit_0_1) = Raise (CalledProcessError 1))
    by (vm_compute; reflexivity).
  split; [exact H|].
  destruct (raised_exception_cause (env_exit_at 36 1) lit_0_1 _ H)
    as (k & Hk & Hl & _ & _ & Hout).
  exists k. split; [exact Hk|]. split; [exact Hl | exact Hout].
Defined.

(** ** [display] and the script *)

Lemma for_each_shift E mu ls : forall acc before launched,
  for_each ls (step E mu) acc (before ++ launched)
  = (before ++ fst (for_each ls (step (shift (List.length before) E) mu) acc launched),
     snd (for_each ls (step (shift (List.length before) E) mu) acc launched)).
Proof.
  induction ls as [|l ls IH]; intros [load perf] before launched; [reflexivity|].
  cbn [for_each]. unfold bindM. rewrite !step_spec.
  rewrite length_app. unfold shift at 1 3.
  destruct (step_result mu l (E (List.length before + List.length launched) (command mu l)))
    as [[q v]|e].
  - rewrite <- app_assoc. apply IH.
  - cbn [fst snd]. now rewrite app_assoc.
Qed.

Lemma process_shift E mu launched :
  process E mu launched
  = (launched ++ fst (run (shift (List.length launched) E) mu),
     snd (run (shift (List.length launched) E) mu)).
Proof.
  rewrite process_sweep, run_sweep. unfold sweep.
  rewrite <- (app_nil_r launched) at 1. apply for_each_shift.
Qed.

(** A sweep that returns was run at a service rate other than zero, has
    launched every command and has read the metric of every launch. *)
Lemma run_ok_inv E mu load performance :
  snd (run E mu) = Ok (load, performance) ->
  is_zero mu = false
  /\ run E mu = (map (command mu) lambdas, Ok (loads mu, performance))
  /\ List.length performance = 100
  /\ forall i, i < 100 -> metric (answer E mu i) = Ok (nth i performance NaN).
Proof.
  intros Hrun.
  assert (Hall : forall i, i < 100 ->
            is_ok (step_result mu (nth i lambdas NaN) (answer E mu i)) = true).
  { intros i Hi.
    destruct (is_ok (step_result mu (nth i lambdas NaN) (answer E mu i))) eqn:Hs;
      [reflexivity|].
    destruct (for_each_raise E mu lambdas [] [] [] i Hi Hs) as (j & e & _ & H & _).
    rewrite run_sweep, H in Hrun. discriminate Hrun. }
  assert (Hmu : is_zero mu = false).
  { specialize (Hall 0 ltac:(lia)). revert Hall. unfold step_result, float_truediv.
    destruct (returned _); cbn [bind]; [|discriminate].
    destruct (is_zero mu); [discriminate | reflexivity]. }
  assert (Hmet : forall i, i < 100 -> is_ok (metric (answer E mu i)) = true).
  { intros i Hi. specialize (Hall i Hi).
    destruct (is_ok (metric (answer E mu i))) eqn:Hm; [reflexivity|].
    now rewrite (step_result_metric mu _ _ Hm) in Hall. }
  destruct (run_completes E mu Hmu Hmet) as (perf & H & _ & Hlen & _ & Hnth).
  rewrite H in Hrun. cbn [snd] in Hrun. injection Hrun as _ <-.
  repeat split; assumption.
Qed.

Lemma launched_of_app t1 t2 : launched_of (t1 ++ t2) = launched_of t1 ++ launched_of t2.
Proof. apply flat_map_app. Qed.

Lemma launched_of_launched cmds : launched_of (map Launched cmds) = cmds.
Proof.
  unfold launched_of. induction cmds as [|c cmds IH]; [reflexivity|].
  cbn [map flat_map app]. now rewrite IH.
Qed.

Lemma launched_of_curve mu perf :
  launched_of (curve_events (mu, perf)) = map (command mu) lambdas.
Proof.
  unfold curve_events. cbv beta iota. rewrite launched_of_app, launched_of_launched.
  apply app_nil_r.
Qed.

Lemma skipn_length_app {A} (l1 l2 : list A) : skipn (List.length l1) (l1 ++ l2) = l2.
Proof. induction l1 as [|x l1 IH]; [reflexivity | exact IH]. Qed.

(** One sweep run by the script. *)
Lemma launching_process E mu trace :
  launching (process E mu) trace
  = (trace ++ map Launched (fst (run (shift (List.length (launched_of trace)) E) mu)),
     snd (run (shift (List.length (launched_of trace)) E) mu)).
Proof.
  unfold launching. cbv zeta. rewrite process_shift.
  now rewrite skipn_length_app.
Qed.

(** The body of the loop of [display]. *)
Lemma display_cons E mu mus trace :
  display E (mu :: mus) trace =
  match run (shift (List.length (launched_of trace)) E) mu with
  | (_, Ok (_, performance)) => display E mus (trace ++ curve_events (mu, performance))
  | (cmds, Raise e) => (trace ++ map Launched cmds, Raise e)
  end.
Proof.
  unfold display. cbn [for_in]. unfold bindS at 1 2. rewrite launching_process.
  destruct (run (shift (List.length (launched_of trace)) E) mu) as [cmds [[load perf]|e]] eqn:Hrun;
    cbn [fst snd]; [|reflexivity].
  destruct (run_ok_inv (shift (List.length (launched_of trace)) E) mu load perf)
    as (_ & H & Hlen & _); [now rewrite Hrun|].
  rewrite Hrun in H. injection H as -> ->.
  unfold bindS, plt_plot, plt_show, np_array.
  rewrite loads_length, Hlen. cbn [Nat.eqb].
  unfold curve_events. now rewrite <- !app_assoc.
Qed.

Lemma display_from E mus : forall trace,
  exists k performances cmds r,
    display E mus trace
    = (trace ++ flat_map curve_events (combine (firstn k mus) performances)
         ++ map Launched cmds, r)
    /\ k <= List.length mus
    /\ List.length performances = k
    /\ (forall j, j < k ->
          List.length (nth j performances []) = 100
          /\ forall i, i < 100 ->
               metric (answer (shift (List.length (launched_of trace) + 100 * j) E)
                         (nth j mus NaN) i)
               = Ok (nth i (nth j performances []) NaN))
    /\ match r with
       | Ok _ => k = List.length mus /\ cmds = []
       | Raise e =>
           k < List.length mus
           /\ run (shift (List.length (launched_of trace) + 100 * k) E) (nth k mus NaN)
              = (cmds, Raise e)
       end.
Proof.
  induction mus as [|mu mus IH]; intros trace.
  - exists 0, [], [], (Ok tt). cbn. rewrite app_nil_r.
    repeat split; try reflexivity; intros; lia.
  - rewrite display_cons.
    destruct (run (shift (List.length (launched_of trace)) E) mu) as [cmds [[load perf]|e]] eqn:Hrun.
    + destruct (run_ok_inv (shift (List.length (launched_of trace)) E) mu load perf)
        as (_ & _ & Hlen & Hmet); [now rewrite Hrun|].
      destruct (IH (trace ++ curve_events (mu, perf))) as (k & ps & cs & r & Hd & Hk & Hps & Hj & Hr).
      rewrite launched_of_app, launched_of_curve, length_app, length_map, lambdas_length in Hj, Hr.
      exists (S k), (perf :: ps), cs, r. rewrite Hd. cbn [firstn combine flat_map List.length].
      split; [now rewrite <- !app_assoc|].
      split; [lia|]. split; [now rewrite Hps|]. split.
      * intros [|j] Hlt; cbn [nth].
        -- rewrite Nat.mul_0_r, Nat.add_0_r. split; assumption.
        -- destruct (Hj j ltac:(lia)) as [H1 H2]. split; [exact H1|].
           intros i Hi. rewrite <- (H2 i Hi). do 3 f_equal. lia.
      * destruct r as [[]|e].
        -- destruct Hr as [-> ->]. split; reflexivity.
        -- destruct Hr as [Hlt Hrun']. split; [lia|]. cbn [nth].
           rewrite <- Hrun'. do 2 f_equal. lia.
    + exists 0, [], cmds, (Raise e). cbn [firstn combine flat_map app List.length nth].
      rewrite Nat.mul_0_r, Nat.add_0_r.
      split; [reflexivity|]. split; [lia|]. split; [reflexivity|].
      split; [intros; lia|]. split; [lia | exact Hrun].
Qed.

(** Whatever the environment, [display] deals with the service rates in
    order and stops at the first sweep that raises.  For each rate before
    that one the trace holds the 100 launches of its sweep, one plot of its
    100 loads against the 100 metrics read, and one show; [display] returns
    after the last rate, or raises the exception of the failing sweep after
    the launches of that sweep, without a plot for it and without a launch
    for a later rate.  The launches are counted through the whole run: sweep
    [j] gets the answers from launch [100 * j] on. *)
Theorem display_trace E mus :
  exists k performances cmds r,
    display E mus []
    = (flat_map curve_events (combine (firstn k mus) performances) ++ map Launched cmds, r)
    /\ k <= List.length mus
    /\ List.length performances = k
    /\ (forall j, j < k ->
          List.length (nth j performances []) = 100
          /\ forall i, i < 100 ->
               metric (answer (shift (100 * j) E) (nth j mus NaN) i)
               = Ok (nth i (nth j performances []) NaN))
    /\ match r with
       | Ok _ => k = List.length mus /\ cmds = []
       | Raise e =>
           k < List.length mus
           /\ run (shift (100 * k) E) (nth k mus NaN) = (cmds, Raise e)
       end.
Proof. exact (display_from E mus []). Qed.

(** When no service rate is zero and every launch of every sweep yields a
    metric, [display] returns, having launched 100 commands, plotted one
    curve of 100 points and shown the figure once per service rate, in the
    order of the list. *)
Theorem display_completes E mus :
  (forall j, j < List.length mus -> is_zero (nth j mus NaN) = false) ->
  (forall j i, j < List.length mus -> i < 100 ->
     is_ok (metric (answer (shift (100 * j) E) (nth j mus NaN) i)) = true) ->
  exists performances,
    display E mus [] = (flat_map curve_events (combine mus performances), Ok tt)
    /\ List.length performances = List.length mus
    /\ forall j i, j < List.length mus -> i < 100 ->
         List.length (nth j performances []) = 100
         /\ metric (answer (shift (100 * j) E) (nth j mus NaN) i)
            = Ok (nth i (nth j performances []) NaN).
Proof.
  intros Hmu Hok.
  destruct (display_from E mus []) as (k & ps & cmds & r & Hd & Hk & Hps & Hj & Hr).
  cbn [launched_of flat_map List.length Nat.add app] in Hd, Hj, Hr.
  destruct r as [[]|e].
  - destruct Hr as [-> ->]. rewrite firstn_all, app_nil_r in Hd.
    exists ps. split; [exact Hd|]. split; [exact Hps|].
    intros j i Hlt Hi. destruct (Hj j Hlt) as [H1 H2]. split; [exact H1 | now apply H2].
  - destruct Hr as [Hlt Hrun].
    destruct (run_completes (shift (100 * k) E) (nth k mus NaN) (Hmu k Hlt))
      as (perf & H & _); [intros i Hi; now apply Hok|].
    rewrite H in Hrun. discriminate Hrun.
Qed.

Lemma display_completes_witness :
  exists performances,
    display env_ok [lit_0_1; lit_0_001] []
    = (flat_map curve_events (combine [lit_0_1; lit_0_001] performances), Ok tt)
    /\ List.length performances = 2
    /\ forall j i, j < 2 -> i < 100 ->
         List.length (nth j performances []) = 100
         /\ metric (answer (shift (100 * j) env_ok) (nth j [lit_0_1; lit_0_001] NaN) i)
            = Ok (nth i (nth j performances []) NaN).
Proof.
  apply (display_completes env_ok [lit_0_1; lit_0_001]).
  - intros [|[|j]] H; [reflexivity | reflexivity | cbn in H; lia].
  - intros j i _ _. reflexivity.
Defined.

Lemma shift_0 E : forall mu, run (shift 0 E) mu = run E mu.
Proof. reflexivity. Qed.

(** The script draws its one curve, at service rate [0.1], exactly when
    each of the 100 launches yields a metric; otherwise it raises the
    exception of the sweep, and its trace holds the launches made, from 1 to
    100 of them, and no plot. *)
Theorem script_draws E :
  ((forall i, i < 100 -> is_ok (metric (answer E lit_0_1 i)) = true)
   <-> exists performance, script E = (curve_events (lit_0_1, performance), Ok tt))
  /\ (forall e, snd (script E) = Raise e ->
      snd (run E lit_0_1) = Raise e
      /\ exists n, 0 < n <= 100
           /\ fst (script E) = map Launched (map (command lit_0_1) (firstn n lambdas))).
Proof.
  unfold script. rewrite display_cons.
  cbn [launched_of flat_map List.length]. rewrite shift_0.
  destruct (run E lit_0_1) as [cmds [[load perf]|e]] eqn:Hrun.
  - destruct (run_ok_inv E lit_0_1 load perf) as (_ & _ & _ & Hmet); [now rewrite Hrun|].
    split; [|discriminate]. split.
    + intros _. now exists perf.
    + intros _ i Hi. now rewrite (Hmet i Hi).
  - split.
    + split.
      * intros Hok. destruct (run_completes E lit_0_1 eq_refl Hok) as (perf & H & _).
        rewrite H in Hrun. discriminate Hrun.
      * intros [perf H]. discriminate H.
    + cbn [snd fst app]. intros e' [= <-]. split; [reflexivity|].
      destruct (run_launched E lit_0_1) as (n & Hn & Hl & _).
      rewrite Hrun in Hl. cbn [fst] in Hl. exists n. split; [|now rewrite Hl].
      split; [|exact Hn]. destruct n; [|lia].
      exfalso. cbn [firstn map] in Hl. subst cmds.
      rewrite run_sweep in Hrun. revert Hrun.
      assert (Hl : exists l ls, lambdas = l :: ls) by (eexists; eexists; reflexivity).
      destruct Hl as (l & ls & ->). cbn [for_each]. unfold bindM. rewrite step_spec.
      destruct (step_result _ _ _) as [[q v]|e0].
      * destruct (for_each_launched E lit_0_1 ls ([] ++ [q], [] ++ [v]) ([] ++ [command lit_0_1 l]))
          as (m & _ & H & _).
        intros Hrun. rewrite Hrun in H. discriminate H.
      * discriminate.
Qed.
